(** * Bid crawler core: a shallow embedding and its checked properties

    The development follows the Python sources of the crawler subsystem
    ([bid_crawler]): the retry helper, the checkpoint model and its manager,
    the bid notice model, the JSON repository, and the producer / consumer
    pipeline.  Python objects that are mutated in place are modelled by
    explicit state passing; exceptions by sum-like result types; the
    environment (clock, scraped site, disk failures) by oracles that are
    indexed by a call counter or consumed from a script. *)

From stdpp Require Import gmap strings list.
From Stdlib Require Import ZArith QArith Qminmax Qpower Ascii DecimalString DecimalN DecimalPos.

Local Open Scope string_scope.
Local Open Scope Z_scope.
Local Open Scope list_scope.

(** ** Python results: a call either returns a value or raises. *)

Inductive Outcome (E A : Type) : Type :=
| Return (v : A)
| Raise (e : E).
Arguments Return {E A} v.
Arguments Raise {E A} e.

(** * utils/retry.py *)

Module Retry.

(** Messages of the two [RetryError] raise sites of [retry_async]. *)
Inductive RetryMessage : Type :=
| MaxRetriesExceeded (max_retries : Z)
| UnexpectedLoopExit.

(** [RetryError(message, attempts, last_exception)]. *)
Record RetryError (E : Type) : Type := mkRetryError {
  message : RetryMessage;
  attempts : Z;
  last_exception : option E
}.
Arguments mkRetryError {E} _ _ _.
Arguments message {E} _.
Arguments attempts {E} _.
Arguments last_exception {E} _.

(** What a call of [retry_async] ends with: the value of [func], the
    [RetryError] it raises itself, or an exception of [func] that the
    [except retry_exceptions] clause does not catch. *)
Inductive Result (E T : Type) : Type :=
| Returned (v : T)
| RetryFailed (err : RetryError E)
| Propagated (e : E).
Arguments Returned {E T} v.
Arguments RetryFailed {E T} err.
Arguments Propagated {E T} e.

(** Observable actions of one run, in program order. *)
Inductive Event (E : Type) : Type :=
| EvCall
| EvOnRetry (attempt : Z) (e : E)
| EvSleep (delay : Q).
Arguments EvCall {E}.
Arguments EvOnRetry {E} attempt e.
Arguments EvSleep {E} delay.

Definition is_call {E} (ev : Event E) : bool :=
  match ev with EvCall => true | _ => false end.

(** Number of invocations of the wrapped operation recorded in a trace. *)
Definition invocations {E} (tr : list (Event E)) : Z :=
  Z.of_nat (length (List.filter is_call tr)).

Section RetryAsync.
Context {E T W : Type}.

(** The keyword arguments of [retry_async].  [random] gives the value
    that [random.random()] returns at a given attempt. *)
Variable func : W -> Outcome E T * W.
Variable max_retries : Z.
Variable base_delay max_delay : Q.
Variable exponential_backoff jitter : bool.
Variable retry_exceptions : E -> bool.
Variable on_retry : option (Z -> E -> W -> W).
Variable random : Z -> Q.

(** Lines 91-98: the waiting time before the next attempt. *)
Definition compute_delay (attempt : Z) : Q :=
  let delay :=
    if exponential_backoff
    then Qmin (base_delay * (2 ^ attempt)) max_delay
    else base_delay in
  if jitter then (delay * ((1 # 2) + random attempt))%Q else delay.

(** Lines 105-106: [if on_retry: on_retry(attempt + 1, e)]. *)
Definition call_on_retry (attempt : Z) (e : E) (w : W) : W :=
  match on_retry with
  | Some cb => cb (attempt + 1) e w
  | None => w
  end.

Definition on_retry_events (attempt : Z) (e : E) : list (Event E) :=
  match on_retry with
  | Some _ => [EvOnRetry (attempt + 1) e]
  | None => []
  end.

(** The body of [for attempt in range(max_retries + 1)], with
    [remaining] iterations of the range left and [attempt] its current
    element; falling out of the loop reaches the final [raise]. *)
Fixpoint retry_loop (remaining : nat) (attempt : Z) (last : option E) (w : W)
  : Result E T * W * list (Event E) :=
  match remaining with
  | O =>
      (RetryFailed (mkRetryError UnexpectedLoopExit (max_retries + 1) last), w, [])
  | S remaining' =>
      match func w with
      | (Return v, w1) => (Returned v, w1, [EvCall])
      | (Raise e, w1) =>
          if retry_exceptions e then
            if attempt =? max_retries then
              (RetryFailed
                 (mkRetryError (MaxRetriesExceeded max_retries) (attempt + 1) (Some e)),
               w1, [EvCall])
            else
              let delay := compute_delay attempt in
              let w2 := call_on_retry attempt e w1 in
              let '(r, w3, tr) := retry_loop remaining' (attempt + 1) (Some e) w2 in
              (r, w3, EvCall :: on_retry_events attempt e ++ EvSleep delay :: tr)
          else (Propagated e, w1, [EvCall])
      end
  end.

Definition retry_async (w : W) : Result E T * W * list (Event E) :=
  retry_loop (Z.to_nat (max_retries + 1)) 0 None w.

(** [after_failures n k w P]: starting in world [w] at attempt [k], the
    next [n] invocations all raise an exception matching
    [retry_exceptions] (each followed by the retry callback), and the
    world reached afterwards satisfies [P]. *)
Fixpoint after_failures (n : nat) (k : Z) (w : W) (P : W -> Prop) : Prop :=
  match n with
  | O => P w
  | S n' =>
      exists e w1, func w = (Raise e, w1) /\ retry_exceptions e = true /\
                   after_failures n' (k + 1) (call_on_retry k e w1) P
  end.

(** All [max_retries + 1] attempts of a run started in [w] fail with an
    exception matching [retry_exceptions]. *)
Definition all_attempts_fail (w : W) : Prop :=
  after_failures (Z.to_nat max_retries) 0 w
    (fun wl => exists e w1, func wl = (Raise e, w1) /\ retry_exceptions e = true).

End RetryAsync.

(** A concrete operation for the retry helper: the world counts the calls,
    every call raises, and the exception carries whether it is retryable. *)
Definition always_raises (retryable : bool) (calls : nat) : Outcome bool unit * nat :=
  (Raise retryable, S calls).

(** The waiting times recorded in a trace, in order. *)
Definition sleeps {E} (tr : list (Event E)) : list Q :=
  omap (fun ev => match ev with EvSleep d => Some d | _ => None end) tr.

(** The attempt numbers handed to the [on_retry] callback, in order. *)
Definition retry_callbacks {E} (tr : list (Event E)) : list Z :=
  omap (fun ev => match ev with EvOnRetry a _ => Some a | _ => None end) tr.

(** An operation that raises a retryable exception on its first [n]
    calls and returns the number of earlier calls afterwards. *)
Definition fails_until (n : nat) (calls : nat) : Outcome bool nat * nat :=
  if (calls <? n)%nat then (Raise true, S calls) else (Return calls, S calls).

(** [RetryContext]: the four settings and the two attributes that
    [handle_error] updates. *)
Record RetryContext (E : Type) : Type := mkRetryContext {
  ctx_max_retries : Z;
  ctx_base_delay : Q;
  ctx_max_delay : Q;
  ctx_exponential_backoff : bool;
  ctx_attempt : Z;
  ctx_last_exception : option E
}.
Arguments mkRetryContext {E} _ _ _ _ _ _.
Arguments ctx_max_retries {E} _.
Arguments ctx_base_delay {E} _.
Arguments ctx_max_delay {E} _.
Arguments ctx_exponential_backoff {E} _.
Arguments ctx_attempt {E} _.
Arguments ctx_last_exception {E} _.

(** [RetryContext.__init__]. *)
Definition RetryContext_init {E} (max_retries : Z) (base_delay max_delay : Q)
    (exponential_backoff : bool) : RetryContext E :=
  mkRetryContext max_retries base_delay max_delay exponential_backoff 0 None.

Definition should_retry {E} (ctx : RetryContext E) : bool :=
  ctx_attempt ctx <=? ctx_max_retries ctx.

(** [RetryContext.handle_error]: the [RetryError] it raises or the time it
    sleeps, and the context it leaves; [rnd] is the value
    [random.random()] returns. *)
Definition handle_error {E} (ctx : RetryContext E) (error : E) (rnd : Q)
  : Outcome (RetryError E) Q * RetryContext E :=
  let n := ctx_attempt ctx + 1 in
  let ctx1 :=
    mkRetryContext (ctx_max_retries ctx) (ctx_base_delay ctx) (ctx_max_delay ctx)
      (ctx_exponential_backoff ctx) n (Some error) in
  if ctx_max_retries ctx <? n then
    (Raise (mkRetryError (MaxRetriesExceeded (ctx_max_retries ctx)) n (Some error)), ctx1)
  else
    let delay :=
      if ctx_exponential_backoff ctx
      then Qmin (ctx_base_delay ctx * (2 ^ (n - 1))) (ctx_max_delay ctx)
      else ctx_base_delay ctx in
    (Return (delay * ((1 # 2) + rnd))%Q, ctx1).

(** Errors handled one after the other, up to the first [RetryError];
    each error comes with the random value of its call. *)
Fixpoint handle_errors {E} (ctx : RetryContext E) (errors : list (E * Q))
  : Outcome (RetryError E) (list Q) * RetryContext E :=
  match errors with
  | [] => (Return [], ctx)
  | (e, rnd) :: rest =>
      match handle_error ctx e rnd with
      | (Raise err, ctx1) => (Raise err, ctx1)
      | (Return d, ctx1) =>
          match handle_errors ctx1 rest with
          | (Return ds, ctx2) => (Return (d :: ds), ctx2)
          | (Raise err, ctx2) => (Raise err, ctx2)
          end
      end
  end.


End Retry.

(** * models/crawl_state.py *)

(** A [datetime] value is represented by its ISO-8601 text, which
    determines it; [datetime.now()] is an input of every operation that
    reads the clock. *)
Definition datetime : Type := string.

Definition isoformat (t : datetime) : string := t.

Module CrawlStateModel.

Record CrawlProgress : Type := mkProgress {
  current_page : Z;
  current_index : Z;
  total_pages : option Z;
  last_completed_page : Z;
  keyword : option string;
  bid_type : option string
}.

Record CrawlStatistics : Type := mkStatistics {
  total_collected : Z;
  list_collected : Z;
  detail_collected : Z;
  errors : Z;
  retries : Z;
  skipped_duplicates : Z
}.

(** One entry of [failed_items]: [{"info": ..., "error": ..., "timestamp": ...}];
    the timestamp is kept as the [datetime] whose ISO rendering is stored. *)
Record FailedItem : Type := mkFailedItem {
  info : list (string * string);
  error : string;
  timestamp : datetime
}.

Record CrawlState : Type := mkCrawlState {
  run_id : string;
  started_at : datetime;
  last_updated_at : datetime;
  is_running : bool;
  is_completed : bool;
  last_error : option string;
  progress : CrawlProgress;
  statistics : CrawlStatistics;
  collected_ids : gset string;
  failed_items : list FailedItem
}.

(** Field defaults of the three models. *)
Definition CrawlProgress_default : CrawlProgress :=
  mkProgress 1 0 None 0 None None.

Definition CrawlStatistics_default : CrawlStatistics :=
  mkStatistics 0 0 0 0 0 0.

(** [CrawlState(run_id=..., is_running=...)]; both timestamps come from
    [default_factory=datetime.now]. *)
Definition CrawlState_new (rid : string) (running : bool) (now1 now2 : datetime)
  : CrawlState :=
  mkCrawlState rid now1 now2 running false None
    CrawlProgress_default CrawlStatistics_default ∅ [].

(** In-place field assignments. *)
Definition set_statistics (st : CrawlState) (s : CrawlStatistics) : CrawlState :=
  mkCrawlState (run_id st) (started_at st) (last_updated_at st) (is_running st)
    (is_completed st) (last_error st) (progress st) s (collected_ids st)
    (failed_items st).

Definition set_progress (st : CrawlState) (p : CrawlProgress) : CrawlState :=
  mkCrawlState (run_id st) (started_at st) (last_updated_at st) (is_running st)
    (is_completed st) (last_error st) p (statistics st) (collected_ids st)
    (failed_items st).

Definition set_last_updated_at (st : CrawlState) (now : datetime) : CrawlState :=
  mkCrawlState (run_id st) (started_at st) now (is_running st)
    (is_completed st) (last_error st) (progress st) (statistics st)
    (collected_ids st) (failed_items st).

Definition set_collected_ids (st : CrawlState) (ids : gset string) : CrawlState :=
  mkCrawlState (run_id st) (started_at st) (last_updated_at st) (is_running st)
    (is_completed st) (last_error st) (progress st) (statistics st) ids
    (failed_items st).

Definition set_last_error (st : CrawlState) (e : option string) : CrawlState :=
  mkCrawlState (run_id st) (started_at st) (last_updated_at st) (is_running st)
    (is_completed st) e (progress st) (statistics st) (collected_ids st)
    (failed_items st).

Definition set_failed_items (st : CrawlState) (l : list FailedItem) : CrawlState :=
  mkCrawlState (run_id st) (started_at st) (last_updated_at st) (is_running st)
    (is_completed st) (last_error st) (progress st) (statistics st)
    (collected_ids st) l.

Definition set_flags (st : CrawlState) (running completed : bool) : CrawlState :=
  mkCrawlState (run_id st) (started_at st) (last_updated_at st) running
    completed (last_error st) (progress st) (statistics st) (collected_ids st)
    (failed_items st).

Definition set_run_id (st : CrawlState) (rid : string) : CrawlState :=
  mkCrawlState rid (started_at st) (last_updated_at st) (is_running st)
    (is_completed st) (last_error st) (progress st) (statistics st)
    (collected_ids st) (failed_items st).

Definition add_total_collected (s : CrawlStatistics) : CrawlStatistics :=
  mkStatistics (total_collected s + 1) (list_collected s) (detail_collected s)
    (errors s) (retries s) (skipped_duplicates s).

Definition add_skipped_duplicates (s : CrawlStatistics) : CrawlStatistics :=
  mkStatistics (total_collected s) (list_collected s) (detail_collected s)
    (errors s) (retries s) (skipped_duplicates s + 1).

Definition add_errors (s : CrawlStatistics) : CrawlStatistics :=
  mkStatistics (total_collected s) (list_collected s) (detail_collected s)
    (errors s + 1) (retries s) (skipped_duplicates s).

Definition add_retries (s : CrawlStatistics) : CrawlStatistics :=
  mkStatistics (total_collected s) (list_collected s) (detail_collected s)
    (errors s) (retries s + 1) (skipped_duplicates s).

(** [CrawlState.mark_collected]: the returned flag and the mutated state. *)
Definition mark_collected (st : CrawlState) (bid_id : string) (now : datetime)
  : bool * CrawlState :=
  if bool_decide (bid_id ∈ collected_ids st) then
    (false, set_statistics st (add_skipped_duplicates (statistics st)))
  else
    let st1 := set_collected_ids st ({[bid_id]} ∪ collected_ids st) in
    let st2 := set_statistics st1 (add_total_collected (statistics st1)) in
    (true, set_last_updated_at st2 now).

Definition is_collected (st : CrawlState) (bid_id : string) : bool :=
  bool_decide (bid_id ∈ collected_ids st).

(** Truth value of an [Optional[Dict]] argument: [None] and the empty
    dictionary are both false. *)
Definition dict_truthy (d : option (list (string * string))) : bool :=
  match d with
  | Some (_ :: _) => true
  | _ => false
  end.

(** [CrawlState.record_error]; the clock is read once for
    [last_updated_at] and once more for the entry's timestamp. *)
Definition record_error (st : CrawlState) (err : string)
    (item_info : option (list (string * string))) (now now_entry : datetime)
  : CrawlState :=
  let st1 := set_statistics st (add_errors (statistics st)) in
  let st2 := set_last_error st1 (Some err) in
  let st3 := set_last_updated_at st2 now in
  if dict_truthy item_info then
    set_failed_items st3
      (failed_items st3 ++ [mkFailedItem (default [] item_info) err now_entry])
  else st3.

Definition record_retry (st : CrawlState) (now : datetime) : CrawlState :=
  set_last_updated_at (set_statistics st (add_retries (statistics st))) now.

Definition update_progress (st : CrawlState) (page index total : option Z)
    (now : datetime) : CrawlState :=
  let p0 := progress st in
  let p1 := match page with
            | Some v => mkProgress v (current_index p0) (total_pages p0)
                          (last_completed_page p0) (keyword p0) (bid_type p0)
            | None => p0
            end in
  let p2 := match index with
            | Some v => mkProgress (current_page p1) v (total_pages p1)
                          (last_completed_page p1) (keyword p1) (bid_type p1)
            | None => p1
            end in
  let p3 := match total with
            | Some v => mkProgress (current_page p2) (current_index p2) (Some v)
                          (last_completed_page p2) (keyword p2) (bid_type p2)
            | None => p2
            end in
  set_last_updated_at (set_progress st p3) now.

Definition complete_page (st : CrawlState) (page : Z) (now : datetime) : CrawlState :=
  let p := progress st in
  let p1 := mkProgress (current_page p) 0 (total_pages p) page (keyword p) (bid_type p) in
  set_last_updated_at (set_progress st p1) now.

Definition mark_completed (st : CrawlState) (now : datetime) : CrawlState :=
  set_last_updated_at (set_flags st false true) now.

(** The mutating operations of [CrawlState], as data, and their effect. *)
Inductive Operation : Type :=
| MarkCollected (bid_id : string) (now : datetime)
| RecordError (err : string) (item_info : option (list (string * string)))
    (now now_entry : datetime)
| RecordRetry (now : datetime)
| UpdateProgress (page index total : option Z) (now : datetime)
| CompletePage (page : Z) (now : datetime)
| MarkCompleted (now : datetime).

Definition apply_operation (st : CrawlState) (op : Operation) : CrawlState :=
  match op with
  | MarkCollected bid_id now => snd (mark_collected st bid_id now)
  | RecordError err item_info now now_entry => record_error st err item_info now now_entry
  | RecordRetry now => record_retry st now
  | UpdateProgress page index total now => update_progress st page index total now
  | CompletePage page now => complete_page st page now
  | MarkCompleted now => mark_completed st now
  end.

Definition apply_operations (st : CrawlState) (ops : list Operation) : CrawlState :=
  fold_left apply_operation ops st.

(** The counter [total_collected] mirrors the size of [collected_ids]. *)
Definition counts_ids (st : CrawlState) : Prop :=
  total_collected (statistics st) = Z.of_nat (size (collected_ids st)).

(** Kinds of operations, for counting the calls of a sequence. *)
Definition is_mark_collected (op : Operation) : bool :=
  match op with MarkCollected _ _ => true | _ => false end.

Definition is_record_error (op : Operation) : bool :=
  match op with RecordError _ _ _ _ => true | _ => false end.

Definition is_record_retry (op : Operation) : bool :=
  match op with RecordRetry _ => true | _ => false end.

Definition is_mark_completed (op : Operation) : bool :=
  match op with MarkCompleted _ => true | _ => false end.

(** A [record_error] call that passes a non-empty [item_info]. *)
Definition names_item (op : Operation) : bool :=
  match op with RecordError _ item_info _ _ => dict_truthy item_info | _ => false end.

Definition count_calls (kind : Operation -> bool) (ops : list Operation) : Z :=
  Z.of_nat (length (List.filter kind ops)).

(** The ids passed to [mark_collected] in a sequence of operations. *)
Definition marked_ids (ops : list Operation) : gset string :=
  list_to_set
    (omap (fun op => match op with MarkCollected bid_id _ => Some bid_id | _ => None end) ops).


End CrawlStateModel.

(** * decimal.Decimal, as far as the crawler uses it *)

Module PyDecimal.

(** A finite [Decimal]: sign (true for negative), coefficient and
    exponent, the three components of [Decimal.as_tuple()].  The
    coefficient is a number, so it has no leading zeros, as in Python. *)
Record Decimal : Type := mkDecimal {
  sign : bool;
  coefficient : N;
  exponent : Z
}.

Definition zero : Decimal := mkDecimal false 0 0.

(** [bool(d)]: a finite decimal is false exactly when its coefficient is 0. *)
Definition truthy (d : Decimal) : bool := negb (N.eqb (coefficient d) 0).

(** The rational number a decimal denotes, and [==] on decimals, which
    compares denotations ([Decimal("1.0") == Decimal("1")]). *)
Definition value (d : Decimal) : Q :=
  ((if sign d then (-1) else 1) * inject_Z (Z.of_N (coefficient d)) *
   (10 ^ exponent d))%Q.

Definition equal (d1 d2 : Decimal) : Prop := (value d1 == value d2)%Q.

(** [d >= threshold], as used by [is_valuable]. *)
Definition ge (d1 d2 : Decimal) : bool :=
  match (value d1 ?= value d2)%Q with Lt => false | _ => true end.

(** Digits of a natural number, most significant first (["0"] for 0). *)
Definition digits (n : N) : list ascii :=
  String.list_ascii_of_string (NilEmpty.string_of_uint (N.to_uint n)).

Definition zeros (n : nat) : list ascii := replicate n "0"%char.

(** ["%+d" % z]. *)
Definition format_signed (z : Z) : list ascii :=
  (if z <? 0 then "-"%char else "+"%char) :: digits (Z.abs_N z).

(** [str(z)] for a Python [int]. *)
Definition str_int (z : Z) : string :=
  String.string_of_list_ascii
    ((if z <? 0 then ["-"%char] else []) ++ digits (Z.abs_N z)).

(** [Decimal.__str__]: scientific string of a finite decimal. *)
Definition str_chars (d : Decimal) : list ascii :=
  let int_digits := digits (coefficient d) in
  let len := Z.of_nat (length int_digits) in
  let leftdigits := exponent d + len in
  let dotplace :=
    if (exponent d <=? 0) && (-6 <? leftdigits) then leftdigits else 1 in
  let '(intpart, fracpart) :=
    if dotplace <=? 0 then
      (["0"%char], "."%char :: zeros (Z.to_nat (- dotplace)) ++ int_digits)
    else if len <=? dotplace then
      (int_digits ++ zeros (Z.to_nat (dotplace - len)), [])
    else
      (take (Z.to_nat dotplace) int_digits,
       "."%char :: drop (Z.to_nat dotplace) int_digits) in
  let exp :=
    if leftdigits =? dotplace then []
    else "E"%char :: format_signed (leftdigits - dotplace) in
  (if sign d then ["-"%char] else []) ++ intpart ++ fracpart ++ exp.

Definition str (d : Decimal) : string := String.string_of_list_ascii (str_chars d).

(** What the constructor [Decimal(s)] makes of a string. *)
Inductive Parsed : Type :=
| Finite (d : Decimal)
| Special
| Invalid.

Definition is_digit (c : ascii) : bool :=
  (48 <=? nat_of_ascii c)%nat && (nat_of_ascii c <=? 57)%nat.

(** The longest prefix of digits, and the rest. *)
Fixpoint span_digits (l : list ascii) : list ascii * list ascii :=
  match l with
  | c :: r =>
      if is_digit c then let '(ds, rest) := span_digits r in (c :: ds, rest)
      else ([], l)
  | [] => ([], [])
  end.

Definition number_of_digits (ds : list ascii) : N :=
  match NilEmpty.uint_of_string (String.string_of_list_ascii ds) with
  | Some u => N.of_uint u
  | None => 0
  end.

Definition parse_sign (l : list ascii) : bool * list ascii :=
  match l with
  | c :: r =>
      if Ascii.eqb c "-" then (true, r)
      else if Ascii.eqb c "+" then (false, r)
      else (false, l)
  | [] => (false, [])
  end.

(** ASCII lower-casing, for the case-insensitive keywords. *)
Definition lower (c : ascii) : ascii :=
  let n := nat_of_ascii c in
  if (65 <=? n)%nat && (n <=? 90)%nat then ascii_of_nat (n + 32) else c.

Definition chars_eqb (l1 l2 : list ascii) : bool :=
  String.eqb (String.string_of_list_ascii l1) (String.string_of_list_ascii l2).

(** [Inf], [Infinity], [NaN<digits>], [sNaN<digits>], in any case. *)
Definition is_special (l : list ascii) : bool :=
  let low := map lower l in
  let after_nan (r : list ascii) := forallb is_digit r in
  chars_eqb low (String.list_ascii_of_string "inf") ||
  chars_eqb low (String.list_ascii_of_string "infinity") ||
  (chars_eqb (take 3 low) (String.list_ascii_of_string "nan") && after_nan (drop 3 low)) ||
  (chars_eqb (take 4 low) (String.list_ascii_of_string "snan") && after_nan (drop 4 low)).

(** The exponent part [E[+-]digits] up to the end of the text. *)
Definition parse_exponent (l : list ascii) : option Z :=
  match l with
  | [] => Some 0
  | c :: r =>
      if Ascii.eqb (lower c) "e" then
        let '(neg, r1) := parse_sign r in
        let '(ds, r2) := span_digits r1 in
        match ds, r2 with
        | _ :: _, [] =>
            let e := Z.of_N (number_of_digits ds) in
            Some (if neg then - e else e)
        | _, _ => None
        end
      else None
  end.

(** The numeric-string grammar of the constructor, after the sign:
    digits with an optional fraction (at least one digit overall) and an
    optional exponent; otherwise one of the special keywords. *)
Definition parse_chars (l : list ascii) : Parsed :=
  let '(neg, l1) := parse_sign l in
  let '(intpart, l2) := span_digits l1 in
  let '(fracpart, l3) :=
    match l2 with
    | c :: r => if Ascii.eqb c "." then span_digits r else ([], l2)
    | [] => ([], [])
    end in
  match intpart ++ fracpart with
  | [] => if is_special l1 then Special else Invalid
  | ds =>
      match parse_exponent l3 with
      | Some e =>
          Finite (mkDecimal neg (number_of_digits ds) (e - Z.of_nat (length fracpart)))
      | None => Invalid
      end
  end.

(** Python's [str.strip()] and [replace("_", "")] on ASCII text. *)
Definition is_space (c : ascii) : bool :=
  let n := nat_of_ascii c in
  ((9 <=? n)%nat && (n <=? 13)%nat) || (n =? 32)%nat || ((28 <=? n)%nat && (n <=? 31)%nat).

Fixpoint lstrip (l : list ascii) : list ascii :=
  match l with
  | c :: r => if is_space c then lstrip r else l
  | [] => []
  end.

Definition strip (l : list ascii) : list ascii := rev (lstrip (rev (lstrip l))).

Definition remove_underscores (l : list ascii) : list ascii :=
  List.filter (fun c => negb (Ascii.eqb c "_")) l.

(** [Decimal(s)] for a [str] argument made of ASCII characters. *)
Definition of_str (s : string) : Parsed :=
  parse_chars (remove_underscores (strip (String.list_ascii_of_string s))).

(** Characters the parser neither strips nor removes. *)
Definition plain (c : ascii) : Prop := is_space c = false /\ Ascii.eqb c "_" = false.

(** [rest] does not continue a run of digits. *)
Definition stops (rest : list ascii) : Prop :=
  match rest with [] => True | c :: _ => is_digit c = false end.

(** The shapes [str] produces: an optional minus sign, a non-empty run of
    digits, an optional fraction, and a tail that is empty or an exponent. *)
Definition exponent_tail (tail : list ascii) (e : Z) : Prop :=
  (tail = [] /\ e = 0) \/ exists z, tail = "E"%char :: format_signed z /\ e = z.

Definition sign_chars (neg : bool) : list ascii := if neg then ["-"%char] else [].

End PyDecimal.

(** * exceptions.py (and pydantic's [ValidationError]) *)

Inductive Exn : Type :=
| InvalidBidDataException (message : string) (field_name : option string)
    (invalid_value : option string)
| DuplicateBidException (bid_id : string)
| RepositoryException (message : string)
| ScraperException (message : string)
| ValidationError (detail : string)
| OtherException (message : string).

(** * models/bid_notice.py *)

Module BidModel.
Import PyDecimal.

Inductive BidType : Type := GOODS | SERVICE | CONSTRUCTION | FOREIGN | OTHER.

Inductive BidStatus : Type := OPEN | CLOSED | CANCELLED | POSTPONED | REBID | UNKNOWN.

#[export] Instance BidStatus_eq_dec : EqDecision BidStatus.
Proof. solve_decision. Defined.

#[export] Instance BidType_eq_dec : EqDecision BidType.
Proof. solve_decision. Defined.

(** The [.value] of the two string enumerations. *)
Definition BidType_value (t : BidType) : string :=
  match t with
  | GOODS => "물품" | SERVICE => "용역" | CONSTRUCTION => "공사"
  | FOREIGN => "외자" | OTHER => "기타"
  end.

Definition BidStatus_value (st : BidStatus) : string :=
  match st with
  | OPEN => "공고중" | CLOSED => "마감" | CANCELLED => "취소"
  | POSTPONED => "연기" | REBID => "재공고" | UNKNOWN => "알수없음"
  end.

Record BidNotice : Type := mkBidNotice {
  bid_notice_id : string;
  title : string;
  bid_type : BidType;
  status : BidStatus;
  organization : option string;
  demand_organization : option string;
  announce_date : option datetime;
  deadline : option datetime;
  estimated_price : option Decimal;
  base_price : option Decimal;
  detail_url : option string;
  crawled_at : datetime
}.

(** A value passed for a price field: [None], a [Decimal], an [int], a
    [float] (given by the text [str(v)] yields) or a [str]. *)
Inductive PriceInput : Type :=
| PriceNone
| PriceDecimal (d : Decimal)
| PriceInt (z : Z)
| PriceFloat (repr : string)
| PriceStr (text : string).

(** [str(v)] of a price argument that is neither [None] nor a [Decimal]. *)
Definition price_text (v : PriceInput) : string :=
  match v with
  | PriceInt z => str_int z
  | PriceFloat repr => repr
  | PriceStr text => text
  | PriceNone => "None"
  | PriceDecimal d => str d
  end.

(** The [mode='before'] validator [convert_to_decimal]: the value handed
    on to pydantic, or the [InvalidBidDataException] it raises. *)
Definition convert_to_decimal (v : PriceInput) : Outcome Exn (option Parsed) :=
  match v with
  | PriceNone => Return None
  | PriceDecimal d => Return (Some (Finite d))
  | _ =>
      match of_str (price_text v) with
      | Invalid =>
          Raise (InvalidBidDataException ("Invalid price value: " +:+ price_text v)
                   (Some "price") (Some (price_text v)))
      | parsed => Return (Some parsed)
      end
  end.

(** pydantic's own check of an [Optional[Decimal]] field after the
    validator: infinities and NaNs are not accepted. *)
Definition validate_decimal_field (name : string) (v : option Parsed)
  : Outcome Exn (option Decimal) :=
  match v with
  | None => Return None
  | Some (Finite d) => Return (Some d)
  | Some _ => Raise (ValidationError (name +:+ ": finite_number"))
  end.

(** Keyword arguments of [BidNotice(...)]; [None] stands for an argument
    that is not passed. *)
Record BidNoticeArgs : Type := mkBidNoticeArgs {
  arg_bid_notice_id : option string;
  arg_title : option string;
  arg_bid_type : option BidType;
  arg_status : option BidStatus;
  arg_organization : option string;
  arg_demand_organization : option string;
  arg_announce_date : option datetime;
  arg_deadline : option datetime;
  arg_estimated_price : PriceInput;
  arg_base_price : PriceInput;
  arg_detail_url : option string;
  arg_crawled_at : option datetime
}.

Definition required (name : string) (v : option string) : Outcome Exn string :=
  match v with
  | Some x => Return x
  | None => Raise (ValidationError (name +:+ ": missing"))
  end.

(** The constructor call [BidNotice(...)].  Fields are validated in
    declaration order; an exception of the price validator leaves the
    constructor at once, the errors pydantic collects itself are reported
    after all fields. *)
Definition BidNotice_new (args : BidNoticeArgs) (now : datetime) : Outcome Exn BidNotice :=
  match convert_to_decimal (arg_estimated_price args) with
  | Raise e => Raise e
  | Return ep =>
      match convert_to_decimal (arg_base_price args) with
      | Raise e => Raise e
      | Return bp =>
          match required "bid_notice_id" (arg_bid_notice_id args),
                required "title" (arg_title args),
                validate_decimal_field "estimated_price" ep,
                validate_decimal_field "base_price" bp with
          | Return bid_id, Return ttl, Return ep', Return bp' =>
              Return (mkBidNotice bid_id ttl
                        (default OTHER (arg_bid_type args))
                        (default UNKNOWN (arg_status args))
                        (arg_organization args) (arg_demand_organization args)
                        (arg_announce_date args) (arg_deadline args)
                        ep' bp' (arg_detail_url args)
                        (default now (arg_crawled_at args)))
          | Raise e, _, _, _ => Raise e
          | _, Raise e, _, _ => Raise e
          | _, _, Raise e, _ => Raise e
          | _, _, _, Raise e => Raise e
          end
      end
  end.

(** Price arguments whose conversion involves no reading of free text:
    [None], a [Decimal] and an [int]; and the field value each one gives. *)
Definition exact_price (v : PriceInput) : bool :=
  match v with
  | PriceNone | PriceDecimal _ | PriceInt _ => true
  | _ => false
  end.

Definition decimal_of_int (z : Z) : Decimal := mkDecimal (z <? 0) (Z.abs_N z) 0.

Definition price_value (v : PriceInput) : option Decimal :=
  match v with
  | PriceDecimal d => Some d
  | PriceInt z => Some (decimal_of_int z)
  | _ => None
  end.

(** A price argument whose text the [Decimal] constructor rejects. *)
Definition price_unreadable (v : PriceInput) : Prop :=
  match v with
  | PriceNone | PriceDecimal _ => False
  | _ => of_str (price_text v) = Invalid
  end.

(** [is_valuable], [is_open]. *)
Definition is_valuable (b : BidNotice) (threshold : Decimal) : bool :=
  match estimated_price b with
  | None => false
  | Some price => ge price threshold
  end.

Definition is_open (b : BidNotice) : bool := bool_decide (status b = OPEN).

(** The dictionary [valid_transitions] of [transition_to], with
    [.get(status, [])] for the states that have no entry. *)
Definition valid_transitions (st : BidStatus) : list BidStatus :=
  match st with
  | OPEN => [CLOSED; CANCELLED; POSTPONED]
  | POSTPONED => [OPEN; CANCELLED; REBID]
  | REBID => [OPEN]
  | _ => []
  end.

(** [model_copy(update={"status": new_status})]. *)
Definition with_status (b : BidNotice) (st : BidStatus) : BidNotice :=
  mkBidNotice (bid_notice_id b) (title b) (bid_type b) st (organization b)
    (demand_organization b) (announce_date b) (deadline b) (estimated_price b)
    (base_price b) (detail_url b) (crawled_at b).

(** Objects live in a store; a reference is an index into it. *)
Abbreviation Store := (list BidNotice).
Abbreviation Ref := nat.

Definition alloc (h : Store) (b : BidNotice) : Ref * Store := (length h, h ++ [b]).

(** [self.transition_to(new_status)] on the object [self] of store [h]:
    the exception raised, or the reference of the copy together with the
    store that now holds it. *)
Definition transition_to (h : Store) (self : Ref) (new_status : BidStatus)
  : option (Outcome Exn (Ref * Store)) :=
  b ← h !! self;
  let allowed := valid_transitions (status b) in
  if bool_decide (new_status ∈ allowed) then
    Some (Return (alloc h (with_status b new_status)))
  else
    Some (Raise (InvalidBidDataException
                   ("Invalid status transition: " +:+ BidStatus_value (status b) +:+
                    " -> " +:+ BidStatus_value new_status)
                   (Some "status") (Some (BidStatus_value new_status)))).

(** The JSON-mode field serializer [serialize_decimal]:
    [str(v) if v else None]. *)
Definition serialize_decimal (v : option Decimal) : option string :=
  match v with
  | Some d => if truthy d then Some (str d) else None
  | None => None
  end.

(** The JSON-mode field serializer [serialize_datetime]:
    [v.isoformat() if v else None]; a [datetime] object is always true. *)
Definition serialize_datetime (v : option datetime) : option string :=
  match v with
  | Some t => Some (isoformat t)
  | None => None
  end.

Record BidNoticeDetail : Type := mkBidNoticeDetail {
  notice : BidNotice;
  bid_method : option string;
  contract_method : option string;
  qualification : option string;
  region : option string;
  delivery_location : option string;
  contact_department : option string;
  contact_person : option string;
  contact_phone : option string;
  contact_email : option string;
  attachments : list string;
  registration_no : option string;
  reference_no : option string;
  raw_html : option string;
  detail_crawled_at : option datetime;
  crawl_success : bool;
  crawl_error : option string
}.

(** The record built at the places that give up on a detail page: every
    field of the listed notice is carried over, the detail fields keep
    their defaults, and the three crawl fields are set. *)
Definition partial_detail (b : BidNotice) (now : datetime) (err : string)
  : BidNoticeDetail :=
  mkBidNoticeDetail b None None None None None None None None None [] None None None
    (Some now) false (Some err).

(** Values of a [model_dump()] dictionary. *)
Inductive PyValue : Type :=
| VNone
| VBool (b : bool)
| VStr (s : string)
| VDecimal (d : Decimal)
| VDatetime (t : datetime)
| VBidType (t : BidType)
| VBidStatus (st : BidStatus)
| VList (l : list string).

Definition of_option {A} (f : A -> PyValue) (o : option A) : PyValue :=
  match o with Some x => f x | None => VNone end.

(** [model_dump()] in Python mode: field serializers marked
    [when_used='json'] do not run, so decimals, datetimes and enumeration
    members are kept as objects. *)
Definition BidNotice_fields (b : BidNotice) : list (string * PyValue) :=
  [("bid_notice_id", VStr (bid_notice_id b));
   ("title", VStr (title b));
   ("bid_type", VBidType (bid_type b));
   ("status", VBidStatus (status b));
   ("organization", of_option VStr (organization b));
   ("demand_organization", of_option VStr (demand_organization b));
   ("announce_date", of_option VDatetime (announce_date b));
   ("deadline", of_option VDatetime (deadline b));
   ("estimated_price", of_option VDecimal (estimated_price b));
   ("base_price", of_option VDecimal (base_price b));
   ("detail_url", of_option VStr (detail_url b));
   ("crawled_at", VDatetime (crawled_at b))].

Definition BidNoticeDetail_fields (d : BidNoticeDetail) : list (string * PyValue) :=
  BidNotice_fields (notice d) ++
  [("bid_method", of_option VStr (bid_method d));
   ("contract_method", of_option VStr (contract_method d));
   ("qualification", of_option VStr (qualification d));
   ("region", of_option VStr (region d));
   ("delivery_location", of_option VStr (delivery_location d));
   ("contact_department", of_option VStr (contact_department d));
   ("contact_person", of_option VStr (contact_person d));
   ("contact_phone", of_option VStr (contact_phone d));
   ("contact_email", of_option VStr (contact_email d));
   ("attachments", VList (attachments d));
   ("registration_no", of_option VStr (registration_no d));
   ("reference_no", of_option VStr (reference_no d));
   ("raw_html", of_option VStr (raw_html d));
   ("detail_crawled_at", of_option VDatetime (detail_crawled_at d));
   ("crawl_success", VBool (crawl_success d));
   ("crawl_error", of_option VStr (crawl_error d))].

(** The argument of the storage methods: [Union[BidNotice, BidNoticeDetail]]. *)
Inductive Item : Type :=
| NoticeItem (b : BidNotice)
| DetailItem (d : BidNoticeDetail).

Definition item_notice (i : Item) : BidNotice :=
  match i with NoticeItem b => b | DetailItem d => notice d end.

Definition item_id (i : Item) : string := bid_notice_id (item_notice i).

Definition model_dump (i : Item) : gmap string PyValue :=
  list_to_map
    (match i with
     | NoticeItem b => BidNotice_fields b
     | DetailItem d => BidNoticeDetail_fields d
     end).

Definition sample_notice : BidNotice :=
  mkBidNotice "20240115-001" "sample" GOODS OPEN None None None None
    (Some (mkDecimal false 100000000 0)) None None "2024-01-15T09:00:00".

(** The status table as the specification lists it. *)
Definition spec_transition_table : list (BidStatus * BidStatus) :=
  [(OPEN, CLOSED); (OPEN, CANCELLED); (OPEN, POSTPONED);
   (POSTPONED, OPEN); (POSTPONED, CANCELLED); (POSTPONED, REBID);
   (REBID, OPEN)].

(** The record a successful construction yields from exact prices. *)
Definition constructed (args : BidNoticeArgs) (bid_id ttl : string) (now : datetime)
  : BidNotice :=
  mkBidNotice bid_id ttl
    (default OTHER (arg_bid_type args)) (default UNKNOWN (arg_status args))
    (arg_organization args) (arg_demand_organization args)
    (arg_announce_date args) (arg_deadline args)
    (price_value (arg_estimated_price args)) (price_value (arg_base_price args))
    (arg_detail_url args) (default now (arg_crawled_at args)).

(** An empty id and negative prices, one given as an [int] and one as a
    [Decimal], are accepted. *)
Definition lax_args : BidNoticeArgs :=
  mkBidNoticeArgs (Some "") (Some "t") None None None None None None
    (PriceInt (-5)) (PriceDecimal (mkDecimal true 15 (-1))) None None.

(** [int(d)] for a finite decimal: the digits before the point, with the
    sign (truncation towards zero). *)
Definition to_int (d : Decimal) : Z :=
  let c := Z.of_N (coefficient d) in
  let m := if 0 <=? exponent d then c * 10 ^ exponent d else c / 10 ^ (- exponent d) in
  if sign d then - m else m.

(** The format specification [","]: digits in groups of three counted
    from the right.  [l] holds the digits least significant first, [n]
    the number of digits of the current group already passed. *)
Fixpoint group_thousands (l : list ascii) (n : nat) : list ascii :=
  match l with
  | [] => []
  | c :: r =>
      match n, r with
      | 2%nat, _ :: _ => c :: ","%char :: group_thousands r 0
      | _, _ => c :: group_thousands r (S n)
      end
  end.

(** [f"{z:,}"] for an [int]. *)
Definition format_commas (z : Z) : string :=
  String.string_of_list_ascii
    ((if z <? 0 then ["-"%char] else []) ++
     rev (group_thousands (rev (digits (Z.abs_N z))) 0)).

(** [get_price_display]. *)
Definition get_price_display (b : BidNotice) : string :=
  match estimated_price b with
  | None => "미정"
  | Some d =>
      let price := to_int d in
      if 100000000 <=? price then
        let eok := price / 100000000 in
        let man := (price mod 100000000) / 10000 in
        if 0 <? man then str_int eok +:+ "억 " +:+ format_commas man +:+ "만원"
        else str_int eok +:+ "억원"
      else if 10000 <=? price then format_commas (price / 10000) +:+ "만원"
      else format_commas price +:+ "원"
  end.

(** A notice that carries only an estimated price. *)
Definition priced (d : Decimal) : BidNotice :=
  mkBidNotice "20240115-001" "sample" GOODS OPEN None None None None (Some d) None None
    "2024-01-15T09:00:00".


End BidModel.

(** * storage/json_storage.py *)

Module JsonStorageModel.
Import PyDecimal BidModel.

(** Values read back from a JSON file. *)
Inductive JsonValue : Type :=
| JNull
| JBool (b : bool)
| JNum (z : Z)
| JStr (s : string)
| JArr (l : list string).

#[export] Instance JsonValue_eq_dec : EqDecision JsonValue.
Proof. solve_decision. Defined.

(** One element of a loaded document: a JSON object, or anything else. *)
Inductive Elem : Type :=
| EDict (d : gmap string JsonValue)
| ENotDict.

(** The parsed contents of a [*.json] file: an array, or another value. *)
Inductive JsonFile : Type :=
| FileArray (l : list Elem)
| FileOther (e : Elem).

(** How the next attempt to write a file ends: it succeeds, [open] fails
    (the file stays as it is), or the write breaks off (the file is left
    unreadable). *)
Inductive IoOutcome : Type := IoOk | IoOpenError | IoWriteError.

(** The repository object together with the directory it writes to.
    [directory] maps the name of each readable [*.json] file of
    [output_dir] to its parsed contents; a missing or unparseable file has
    no entry.  [io_script] lists the outcomes of the coming write
    attempts (success once it is used up).  The last two fields are
    ghosts that no method reads: the ids loaded when the repository was
    opened, and the ids of the items [save] has stored, in order. *)
Record JsonStorage : Type := mkJsonStorage {
  filename : string;
  individual_files : bool;
  raise_on_duplicate : bool;
  _buffer : list (gmap string PyValue);
  _id_cache : gset string;
  directory : gmap string JsonFile;
  io_script : list IoOutcome;
  hydrated : gset string;
  taken : list string
}.

Definition set_buffer (st : JsonStorage) (b : list (gmap string PyValue)) : JsonStorage :=
  mkJsonStorage (filename st) (individual_files st) (raise_on_duplicate st) b
    (_id_cache st) (directory st) (io_script st) (hydrated st) (taken st).

Definition set_id_cache (st : JsonStorage) (c : gset string) : JsonStorage :=
  mkJsonStorage (filename st) (individual_files st) (raise_on_duplicate st) (_buffer st)
    c (directory st) (io_script st) (hydrated st) (taken st).

Definition set_directory (st : JsonStorage) (d : gmap string JsonFile) : JsonStorage :=
  mkJsonStorage (filename st) (individual_files st) (raise_on_duplicate st) (_buffer st)
    (_id_cache st) d (io_script st) (hydrated st) (taken st).

Definition set_io_script (st : JsonStorage) (io : list IoOutcome) : JsonStorage :=
  mkJsonStorage (filename st) (individual_files st) (raise_on_duplicate st) (_buffer st)
    (_id_cache st) (directory st) io (hydrated st) (taken st).

Definition note_taken (st : JsonStorage) (bid_id : string) : JsonStorage :=
  mkJsonStorage (filename st) (individual_files st) (raise_on_duplicate st) (_buffer st)
    (_id_cache st) (directory st) (io_script st) (hydrated st) (taken st ++ [bid_id]).

(** The outcome of the next write attempt. *)
Definition next_io (st : JsonStorage) : IoOutcome * JsonStorage :=
  match io_script st with
  | o :: rest => (o, set_io_script st rest)
  | [] => (IoOk, st)
  end.

(** [_to_dict]: the dumped fields, top-level datetimes and decimals
    replaced by text. *)
Definition to_dict_value (v : PyValue) : PyValue :=
  match v with
  | VDatetime t => VStr (isoformat t)
  | VDecimal d => VStr (str d)
  | _ => v
  end.

Definition _to_dict (i : Item) : gmap string PyValue := to_dict_value <$> model_dump i.

(** What [json.load] reads back after [json.dump(..., cls=DecimalEncoder)]
    wrote a value; members of the string enumerations are written as
    their values. *)
Definition json_value (v : PyValue) : JsonValue :=
  match v with
  | VNone => JNull
  | VBool b => JBool b
  | VStr s => JStr s
  | VDecimal d => JStr (str d)
  | VDatetime t => JStr (isoformat t)
  | VBidType t => JStr (BidType_value t)
  | VBidStatus st => JStr (BidStatus_value st)
  | VList l => JArr l
  end.

Definition json_dict (d : gmap string PyValue) : gmap string JsonValue := json_value <$> d.

Definition _load_single_raw (st : JsonStorage) : list Elem :=
  match directory st !! filename st with
  | None => []
  | Some (FileArray l) => l
  | Some (FileOther e) => [e]
  end.

(** Each file but [filename] contributes the value it holds; a file that
    holds an array contributes that array, which is no object. *)
Definition _load_individual_raw (st : JsonStorage) : list Elem :=
  (fun p : string * JsonFile =>
     match p.2 with FileArray _ => ENotDict | FileOther e => e end) <$>
  List.filter (fun p : string * JsonFile => negb (String.eqb p.1 (filename st)))
    (map_to_list (directory st)).

Definition _load_raw (st : JsonStorage) : list Elem :=
  if individual_files st then _load_individual_raw st else _load_single_raw st.

(** [item.get("bid_notice_id")] inside the cache comprehension: a
    non-empty string enters the cache; a false value is filtered out; a
    true value that is no string enters the set but equals no string; and
    an element without [get], or a non-empty array used as a set member,
    raises. *)
Inductive IdEntry : Type :=
| IdString (s : string)
| IdSkipped
| IdOther
| IdError.

Definition cache_entry (e : Elem) : IdEntry :=
  match e with
  | ENotDict => IdError
  | EDict d =>
      match d !! "bid_notice_id" with
      | None | Some JNull => IdSkipped
      | Some (JStr s) => if String.eqb s "" then IdSkipped else IdString s
      | Some (JBool b) => if b then IdOther else IdSkipped
      | Some (JNum z) => if z =? 0 then IdSkipped else IdOther
      | Some (JArr []) => IdSkipped
      | Some (JArr (_ :: _)) => IdError
      end
  end.

Definition is_id_error (e : IdEntry) : bool :=
  match e with IdError => true | _ => false end.

Definition id_strings (l : list IdEntry) : gset string :=
  list_to_set (omap (fun e => match e with IdString s => Some s | _ => None end) l).

(** [_load_id_cache]: any exception leaves the cache empty. *)
Definition _load_id_cache (st : JsonStorage) : gset string :=
  let entries := cache_entry <$> _load_raw st in
  if existsb is_id_error entries then ∅ else id_strings entries.

(** The constructor: empty buffer, cache loaded from the directory. *)
Definition JsonStorage_init (fname : string) (individual strict : bool)
    (dir : gmap string JsonFile) (io : list IoOutcome) : JsonStorage :=
  let st0 := mkJsonStorage fname individual strict [] ∅ dir io ∅ [] in
  let cache := _load_id_cache st0 in
  mkJsonStorage fname individual strict [] cache dir io cache [].

Definition exists_ (st : JsonStorage) (bid_id : string) : bool :=
  bool_decide (bid_id ∈ _id_cache st).

(** An element's id as the set comprehension of [flush] takes it
    ([None] for a missing key); [None] when taking it raises. *)
Definition existing_id (e : Elem) : option JsonValue :=
  match e with
  | ENotDict => None
  | EDict d =>
      match d !! "bid_notice_id" with
      | Some (JArr _) => None
      | Some v => Some v
      | None => Some JNull
      end
  end.

Definition existing_ids (l : list Elem) : option (list JsonValue) :=
  mapM existing_id l.

Definition buffered_id (d : gmap string PyValue) : JsonValue :=
  default JNull (json_value <$> d !! "bid_notice_id").

(** [flush]. *)
Definition flush (st : JsonStorage) : Outcome Exn bool * JsonStorage :=
  match _buffer st with
  | [] => (Return true, st)
  | _ :: _ =>
      let existing_data := _load_raw st in
      match existing_ids existing_data with
      | None => (Raise (RepositoryException "Flush failed"), st)
      | Some ids =>
          let new_items :=
            List.filter (fun d => negb (bool_decide (buffered_id d ∈ ids))) (_buffer st) in
          let all_data := existing_data ++ ((fun d => EDict (json_dict d)) <$> new_items) in
          match next_io st with
          | (IoOk, st1) =>
              (Return true,
               set_buffer
                 (set_directory st1 (<[filename st := FileArray all_data]> (directory st1)))
                 [])
          | (IoOpenError, st1) => (Raise (RepositoryException "Flush failed"), st1)
          | (IoWriteError, st1) =>
              (Raise (RepositoryException "Flush failed"),
               set_directory st1 (delete (filename st) (directory st1)))
          end
      end
  end.

Definition has_slash (s : string) : bool :=
  existsb (fun c => Ascii.eqb c "/") (String.list_ascii_of_string s).

(** [_save_individual]: the file [<id>.json] is written below
    [output_dir]; an id with a slash names a path that is not an entry of
    [output_dir] itself. *)
Definition _save_individual (st : JsonStorage) (i : Item) : Outcome Exn bool * JsonStorage :=
  let name := item_id i +:+ ".json" in
  let data := _to_dict i in
  match next_io st with
  | (IoOk, st1) =>
      let st2 :=
        if has_slash (item_id i) then st1
        else set_directory st1 (<[name := FileOther (EDict (json_dict data))]> (directory st1)) in
      (Return true, note_taken st2 (item_id i))
  | (IoOpenError, st1) => (Raise (RepositoryException "Save failed"), st1)
  | (IoWriteError, st1) =>
      (Raise (RepositoryException "Save failed"),
       if has_slash (item_id i) then st1
       else set_directory st1 (delete name (directory st1)))
  end.

(** [save]. *)
Definition save (st : JsonStorage) (bid : Item) : Outcome Exn bool * JsonStorage :=
  let bid_id := item_id bid in
  if exists_ st bid_id then
    if raise_on_duplicate st then (Raise (DuplicateBidException bid_id), st)
    else (Return false, st)
  else if individual_files st then
    match _save_individual st bid with
    | (Return success, st1) =>
        (Return success,
         if success then set_id_cache st1 ({[bid_id]} ∪ _id_cache st1) else st1)
    | (Raise e, st1) => (Raise e, st1)
    end
  else
    let st1 := note_taken (set_buffer st (_buffer st ++ [_to_dict bid])) bid_id in
    let st2 := set_id_cache st1 ({[bid_id]} ∪ _id_cache st1) in
    if (10 <=? length (_buffer st2))%nat then
      match flush st2 with
      | (Return _, st3) => (Return true, st3)
      | (Raise e, st3) => (Raise e, st3)
      end
    else (Return true, st2).

(** [save_batch]: only [DuplicateBidException] is caught. *)
Fixpoint save_batch_loop (st : JsonStorage) (bids : list Item) (count : Z)
  : Outcome Exn Z * JsonStorage :=
  match bids with
  | [] => (Return count, st)
  | bid :: rest =>
      match save st bid with
      | (Return true, st1) => save_batch_loop st1 rest (count + 1)
      | (Return false, st1) => save_batch_loop st1 rest count
      | (Raise (DuplicateBidException _), st1) => save_batch_loop st1 rest count
      | (Raise e, st1) => (Raise e, st1)
      end
  end.

Definition save_batch (st : JsonStorage) (bids : list Item) : Outcome Exn Z * JsonStorage :=
  save_batch_loop st bids 0.

(** [close]. *)
Definition close (st : JsonStorage) : Outcome Exn unit * JsonStorage :=
  match flush st with
  | (Return _, st1) => (Return tt, st1)
  | (Raise e, st1) => (Raise e, st1)
  end.

(** Calls a client can make, and the repository after a sequence of them
    (whatever each call returned or raised). *)
Inductive Call : Type :=
| CallSave (bid : Item)
| CallSaveBatch (bids : list Item)
| CallExists (bid_id : string)
| CallFlush
| CallClose.

Definition after_call (st : JsonStorage) (c : Call) : JsonStorage :=
  match c with
  | CallSave bid => snd (save st bid)
  | CallSaveBatch bids => snd (save_batch st bids)
  | CallExists _ => st
  | CallFlush => snd (flush st)
  | CallClose => snd (close st)
  end.

Definition after_calls (st : JsonStorage) (cs : list Call) : JsonStorage :=
  fold_left after_call cs st.

(** The way of one Decimal field through [_from_dict]: the restoring loop
    ([Decimal(str(data[field]))], [None] when that raises) followed by the
    model constructor.  The text of an array starts with a bracket and is
    never numeric. *)
Definition json_text (v : JsonValue) : option string :=
  match v with
  | JStr s => Some s
  | JNum z => Some (str_int z)
  | JBool true => Some "True"
  | JBool false => Some "False"
  | JNull => Some "None"
  | JArr _ => None
  end.

Definition _from_dict_decimal (name : string) (v : option JsonValue)
  : Outcome Exn (option Decimal) :=
  match v with
  | None | Some JNull => Return None
  | Some x =>
      match of_str <$> json_text x with
      | None | Some Invalid => Return None
      | Some parsed => validate_decimal_field name (Some parsed)
      end
  end.

(** The fields that decide the answers of [exists] and [save]. *)
Definition view (st : JsonStorage)
  : gset string * gset string * list string * bool * bool * string :=
  (_id_cache st, hydrated st, taken st, raise_on_duplicate st, individual_files st,
   filename st).

(** The cache holds exactly the ids loaded at construction and the ids of
    the items stored since. *)
Definition cache_tracks (st : JsonStorage) : Prop :=
  forall bid_id, bid_id ∈ _id_cache st <-> bid_id ∈ hydrated st \/ bid_id ∈ taken st.

(** The fields no method assigns after construction. *)
Definition settings (st : JsonStorage) : gset string * bool * bool * string :=
  (hydrated st, raise_on_duplicate st, individual_files st, filename st).

(** An item as it stands in the output file once it is written. *)
Definition stored_form (i : Item) : Elem := EDict (json_dict (_to_dict i)).

(** The branch of [save] that takes a new item into the buffer and its id
    into the cache. *)
Definition accept (st : JsonStorage) (bid : Item) : JsonStorage :=
  set_id_cache (note_taken (set_buffer st (_buffer st ++ [_to_dict bid])) (item_id bid))
    ({[item_id bid]} ∪ _id_cache (note_taken (set_buffer st (_buffer st ++ [_to_dict bid]))
                                    (item_id bid))).

(** The ids of the stored elements, as the comprehension of [flush] takes
    them. *)
Definition file_ids (st : JsonStorage) : option (list JsonValue) :=
  existing_ids (_load_single_raw st).

(** A single-file repository whose writes all succeed. *)
Definition quiet (st : JsonStorage) : Prop :=
  individual_files st = false /\ io_script st = [].

(** The cache knows the id [x] whenever the file or the buffer holds it. *)
Definition known (st : JsonStorage) (x : string) : Prop :=
  (forall ids, file_ids st = Some ids -> JStr x ∈ ids -> x ∈ _id_cache st) /\
  (forall d, d ∈ _buffer st -> buffered_id d = JStr x -> x ∈ _id_cache st).

(** The item is held: in the buffer, to be written by the next [flush],
    or in the file. *)
Definition kept (st : JsonStorage) (i : Item) : Prop :=
  item_id i ∈ _id_cache st /\
  ((_to_dict i ∈ _buffer st /\
    forall ids, file_ids st = Some ids -> JStr (item_id i) ∉ ids) \/
   stored_form i ∈ _load_single_raw st).


(** [item.get("bid_notice_id") == bid_id] for an item of the buffer and
    for a stored object: only a string equals a string (the members of
    the two string enumerations are strings as well). *)
Definition py_equals_str (v : PyValue) (s : string) : bool :=
  match v with
  | VStr x => String.eqb x s
  | VBidType t => String.eqb (BidType_value t) s
  | VBidStatus t => String.eqb (BidStatus_value t) s
  | _ => false
  end.

Definition buffered_matches (bid_id : string) (d : gmap string PyValue) : bool :=
  match d !! "bid_notice_id" with
  | Some v => py_equals_str v bid_id
  | None => false
  end.

Definition stored_matches (bid_id : string) (d : gmap string JsonValue) : bool :=
  match d !! "bid_notice_id" with
  | Some (JStr s) => String.eqb s bid_id
  | _ => false
  end.

(** The second loop of [find_by_id], through the stored data; an element
    that is no object has no [get]. *)
Fixpoint find_stored (l : list Elem) (bid_id : string)
  : Outcome Exn (option (gmap string JsonValue)) :=
  match l with
  | [] => Return None
  | EDict d :: r => if stored_matches bid_id d then Return (Some d) else find_stored r bid_id
  | ENotDict :: _ => Raise (OtherException "AttributeError")
  end.

(** What the search of [find_by_id] comes up with: an item of the
    buffer, an object of the stored data, or nothing. *)
Inductive Found : Type :=
| FoundBuffered (d : gmap string PyValue)
| FoundStored (d : gmap string JsonValue)
| NotFound.

(** [find_by_id] up to its call of [_from_dict]: the dictionary it hands
    over, the buffer being searched first. *)
Definition find_by_id_item (st : JsonStorage) (bid_id : string) : Outcome Exn Found :=
  match List.find (buffered_matches bid_id) (_buffer st) with
  | Some d => Return (FoundBuffered d)
  | None =>
      match find_stored (_load_raw st) bid_id with
      | Return (Some d) => Return (FoundStored d)
      | Return None => Return NotFound
      | Raise e => Raise e
      end
  end.

(** The buffer holds rendered items only. *)
Definition buffer_rendered (st : JsonStorage) : Prop :=
  forall d, d ∈ _buffer st -> exists i, d = _to_dict i.

(** Where the search finds the item: first in the buffer, and then not
    in the file; or in the file, and then not in the buffer. *)
Definition located (st : JsonStorage) (i : Item) : Prop :=
  (List.find (buffered_matches (item_id i)) (_buffer st) = Some (_to_dict i) /\
   forall ids, file_ids st = Some ids -> JStr (item_id i) ∉ ids) \/
  (List.find (buffered_matches (item_id i)) (_buffer st) = None /\
   find_stored (_load_single_raw st) (item_id i) = Return (Some (json_dict (_to_dict i)))).

(** What the calls keep up for an item with a non-empty id that was
    saved. *)
Definition findable (i : Item) (st : JsonStorage) : Prop :=
  item_id i ∈ _id_cache st /\ buffer_rendered st /\ located st i.


End JsonStorageModel.

(** * storage/state_manager.py *)

Module StateManagerModel.
Import CrawlStateModel.

(** A path: the parent directories and the final component. *)
Abbreviation Path := (list string * string)%type.

(** [PurePath.suffix] of a file name: the part from the last dot on,
    unless that dot opens or closes the name. *)
Fixpoint rfind_dot_from (l : list ascii) (i : nat) (found : option nat) : option nat :=
  match l with
  | [] => found
  | c :: r => rfind_dot_from r (S i) (if Ascii.eqb c "." then Some i else found)
  end.

Definition rfind_dot (l : list ascii) : option nat := rfind_dot_from l 0 None.

Definition suffix_chars (l : list ascii) : list ascii :=
  match rfind_dot l with
  | Some i => if (0 <? i)%nat && (i <? length l - 1)%nat then drop i l else []
  | None => []
  end.

Definition suffix (name : string) : string :=
  String.string_of_list_ascii (suffix_chars (String.list_ascii_of_string name)).

Definition starts_with_dot (s : string) : bool :=
  match s with String c _ => Ascii.eqb c "." | EmptyString => false end.

(** [PurePath.with_suffix]; [None] stands for its [ValueError]. *)
Definition with_suffix (p : Path) (sfx : string) : option Path :=
  let name := String.list_ascii_of_string p.2 in
  if existsb (fun c => Ascii.eqb c "/") (String.list_ascii_of_string sfx) then None
  else if (negb (String.eqb sfx "") && negb (starts_with_dot sfx)) || String.eqb sfx "." then None
  else if String.eqb p.2 "" then None
  else
    let old := suffix_chars name in
    let stem := take (length name - length old) name in
    Some (p.1, String.string_of_list_ascii (stem ++ String.list_ascii_of_string sfx)).

(** The sidecar path as the specification words it: the full name of the
    state file with [".backup"] appended. *)
Definition spec_backup_path (p : Path) : Path := (p.1, p.2 +:+ ".backup").

Record StateManager : Type := mkStateManager {
  state_file : Path;
  backup_file : Path;
  _state : option CrawlState
}.

(** [StateManager.__init__]. *)
Definition StateManager_init (file : Path) : option StateManager :=
  backup ← with_suffix file ".backup.json";
  Some (mkStateManager file backup None).

Definition set_state (sm : StateManager) (st : option CrawlState) : StateManager :=
  mkStateManager (state_file sm) (backup_file sm) st.

(** How the next file-system action ends: it succeeds, or it fails and
    leaves the target as it was ([None]) or holding a partial text. *)
Inductive IoStep : Type :=
| StepOk
| StepFails (remains : option string).

(** The files, by path, and the outcomes of the coming actions. *)
Record Disk : Type := mkDisk {
  files : gmap Path string;
  steps : list IoStep
}.

Definition next_step (d : Disk) : IoStep * Disk :=
  match steps d with
  | o :: rest => (o, mkDisk (files d) rest)
  | [] => (StepOk, d)
  end.

(** Storing [text] at [target] ([open(..., "w")] followed by the write, or
    the copying of [shutil.copy]): whether it succeeded, and the disk. *)
Definition store (d : Disk) (target : Path) (text : string) : bool * Disk :=
  match next_step d with
  | (StepOk, d1) => (true, mkDisk (<[target := text]> (files d1)) (steps d1))
  | (StepFails None, d1) => (false, d1)
  | (StepFails (Some partial), d1) =>
      (false, mkDisk (<[target := partial]> (files d1)) (steps d1))
  end.

(** [parent.mkdir(parents=True, exist_ok=True)]. *)
Definition mkdir (d : Disk) : bool * Disk :=
  match next_step d with
  | (StepOk, d1) => (true, d1)
  | (StepFails _, d1) => (false, d1)
  end.

(** What a call of [load] has produced once [fuel] nested calls have been
    followed: its return value, or nothing yet. *)
Inductive LoadResult : Type :=
| Loaded (st : option CrawlState)
| StillLoading.

Section Persistence.

(** Reading a state file (lines 89-102: [json.load] and the rebuilding of
    the models; [None] when any of it raises) and writing one (lines
    142-153: the text [json.dump] produces). *)
Variable parse_state : string -> option CrawlState.
Variable dump_state : CrawlState -> string.

(** [load].  The handler of a failed parse restores the backup over the
    state file and calls [load] again. *)
Fixpoint load (fuel : nat) (sm : StateManager) (d : Disk) : LoadResult * Disk :=
  match fuel with
  | O => (StillLoading, d)
  | S fuel' =>
      match files d !! state_file sm with
      | None => (Loaded None, d)
      | Some text =>
          match parse_state text with
          | Some st => (Loaded (Some st), d)
          | None =>
              match files d !! backup_file sm with
              | Some backup_text =>
                  match store d (state_file sm) backup_text with
                  | (true, d1) => load fuel' sm d1
                  | (false, d1) => (Loaded None, d1)
                  end
              | None => (Loaded None, d)
              end
          end
      end
  end.

(** [save]; the argument [force] is not read by the method. *)
Definition save (sm : StateManager) (d : Disk) : bool * Disk :=
  match _state sm with
  | None => (false, d)
  | Some st =>
      match mkdir d with
      | (false, d1) => (false, d1)
      | (true, d1) =>
          let '(copied, d2) :=
            match files d1 !! state_file sm with
            | Some old => store d1 (backup_file sm) old
            | None => (true, d1)
            end in
          if copied then store d2 (state_file sm) (dump_state st) else (false, d2)
      end
  end.

(** How [initialize] ends: with the state of an unfinished earlier run,
    with a new state, or not at all because [load] does not return. *)
Inductive InitResult : Type :=
| Resumed (sm : StateManager) (d : Disk)
| Fresh (sm : StateManager) (d : Disk)
| InitStillLoading.

(** [initialize]; [now1] and [now2] are the two clock readings a new
    [CrawlState] takes. *)
Definition initialize (fuel : nat) (sm : StateManager) (d : Disk) (rid : string)
    (resume : bool) (now1 now2 : datetime) : InitResult :=
  let fresh := Fresh (set_state sm (Some (CrawlState_new rid true now1 now2))) in
  if resume && bool_decide (is_Some (files d !! state_file sm)) then
    match load fuel sm d with
    | (StillLoading, _) => InitStillLoading
    | (Loaded (Some loaded), d1) =>
        if negb (is_completed loaded) then
          Resumed (set_state sm (Some (set_run_id (set_flags loaded true (is_completed loaded))
                                         rid))) d1
        else fresh d1
    | (Loaded None, d1) => fresh d1
    end
  else fresh d.

End Persistence.

(** A toy file format for concrete runs: the text ["ok"] is the one
    readable state file. *)
Definition toy_state : CrawlState := CrawlState_new "run" true "t0" "t0".

Definition toy_parse (text : string) : option CrawlState :=
  if String.eqb text "ok" then Some toy_state else None.

Definition toy_dump (st : CrawlState) : string := "ok".

(** The default state file, two unreadable files next to each other, a
    manager for them, and a disk that holds a state file only. *)
Definition crawl_state_path : Path := (["data"], "crawl_state.json").

Definition both_unreadable : Disk :=
  mkDisk (<[(["data"], "crawl_state.backup.json") := "{"]>
            (<[crawl_state_path := "not json"]> ∅)) [].

Definition toy_manager : StateManager :=
  mkStateManager crawl_state_path (["data"], "crawl_state.backup.json") (Some toy_state).

Definition one_state_file : Disk := mkDisk (<[crawl_state_path := "old"]> ∅) [].

Definition no_dot (c : ascii) : Prop := Ascii.eqb c "." = false.

(** All coming file-system actions succeed. *)
Definition all_succeed (d : Disk) : Prop := Forall (fun o => o = StepOk) (steps d).

(** [Path.unlink()]: whether it succeeded, and the disk. *)
Definition unlink (d : Disk) (target : Path) : bool * Disk :=
  match next_step d with
  | (StepOk, d1) => (true, mkDisk (delete target (files d1)) (steps d1))
  | (StepFails _, d1) => (false, d1)
  end.

(** [cleanup]: the manager it leaves and the disk; [None] when an
    [unlink] raises, which leaves the manager's state as it was. *)
Definition cleanup (sm : StateManager) (d : Disk) (remove_backup : bool)
  : option StateManager * Disk :=
  let '(removed, d1) :=
    match files d !! state_file sm with
    | Some _ => unlink d (state_file sm)
    | None => (true, d)
    end in
  if removed then
    let '(removed', d2) :=
      if remove_backup then
        match files d1 !! backup_file sm with
        | Some _ => unlink d1 (backup_file sm)
        | None => (true, d1)
        end
      else (true, d1) in
    if removed' then (Some (set_state sm None), d2) else (None, d2)
  else (None, d1).

(** A write that breaks off leaves text that cannot be read as a state. *)
Definition breaks_unreadably (parse_state : string -> option CrawlState) (o : IoStep) : Prop :=
  match o with
  | StepFails (Some partial) => parse_state partial = None
  | _ => True
  end.

(** The disk once the failures of the script are over. *)
Definition settled (d : Disk) : Disk := mkDisk (files d) [].

(** A second toy format, which keeps the run id: [run:<id>]. *)
Definition tagged_dump (st : CrawlState) : string := "run:" +:+ run_id st.

Definition tagged_parse (text : string) : option CrawlState :=
  if String.prefix "run:" text
  then Some (CrawlState_new (String.substring 4 (String.length text - 4) text) true "t0" "t0")
  else None.

(** A manager about to save the run [b] over the state file of run [a],
    on a disk whose third action, the write, breaks off. *)
Definition second_run : StateManager :=
  mkStateManager crawl_state_path (["data"], "crawl_state.backup.json")
    (Some (CrawlState_new "b" true "t0" "t0")).

Definition first_run_on_disk (script : list IoStep) : Disk :=
  mkDisk (<[crawl_state_path := "run:a"]> ∅) script.


End StateManagerModel.

(** * crawler.py *)

Module CrawlerModel.
Import PyDecimal BidModel CrawlStateModel StateManagerModel JsonStorageModel.

(** The settings the pipeline reads ([output_format] is ["json"], so no
    CSV sink is attached). *)
Record CrawlerConfig : Type := mkConfig {
  config_run_id : string;
  base_url : string;
  max_pages : option Z;
  max_items : option Z;
  max_retries : Z;
  retry_delay : Q;
  save_interval : Z;
  max_workers : nat;
  queue_size : Z
}.

Definition set_limits (cfg : CrawlerConfig) (pages items : option Z) : CrawlerConfig :=
  mkConfig (config_run_id cfg) (base_url cfg) pages items (max_retries cfg) (retry_delay cfg)
    (save_interval cfg) (max_workers cfg) (queue_size cfg).

(** [BidNoticeList], the result of [ListScraper.scrape]. *)
Record BidNoticeList : Type := mkBidNoticeList {
  items : list BidNotice;
  total_count : Z;
  list_current_page : Z;
  list_total_pages : Z;
  has_next : bool
}.

Record CrawlTask : Type := mkCrawlTask {
  task_notice : BidNotice;
  page_num : Z;
  index : Z
}.

(** The surroundings of a run, each given by the number of earlier uses:
    the clock, the two scrapers and the browser, the random source of the
    retry jitter, the reading and writing of a state file, and how many
    queued tasks the workers get through each time the producer waits. *)
Record Env : Type := mkEnv {
  now : nat -> datetime;
  run_id_format : datetime -> string;
  scrape_list : nat -> Outcome Exn BidNoticeList;
  go_to_next_page : nat -> bool;
  scrape_from_url : nat -> string -> BidNotice -> Outcome Exn BidNoticeDetail;
  go_back : nat -> bool;
  random : Z -> Q;
  parse_state : string -> option CrawlState;
  dump_state : CrawlState -> string;
  schedule : nat -> nat
}.

(** Everything a run changes. *)
Record World : Type := mkWorld {
  manager : StateManager;
  disk : Disk;
  repository : JsonStorage;
  clock_reads : nat;
  list_calls : nat;
  next_calls : nat;
  detail_calls : list (string * BidNotice)
}.

Definition set_manager (w : World) (m : StateManager) : World :=
  mkWorld m (disk w) (repository w) (clock_reads w) (list_calls w) (next_calls w)
    (detail_calls w).

Definition set_disk (w : World) (d : Disk) : World :=
  mkWorld (manager w) d (repository w) (clock_reads w) (list_calls w) (next_calls w)
    (detail_calls w).

Definition set_repository (w : World) (r : JsonStorage) : World :=
  mkWorld (manager w) (disk w) r (clock_reads w) (list_calls w) (next_calls w)
    (detail_calls w).

Section WithEnv.
Variable env : Env.
Variable cfg : CrawlerConfig.

(** [datetime.now()]. *)
Definition read_clock (w : World) : datetime * World :=
  (now env (clock_reads w),
   mkWorld (manager w) (disk w) (repository w) (S (clock_reads w)) (list_calls w)
     (next_calls w) (detail_calls w)).

(** The property [StateManager.state], which creates a state when there
    is none. *)
Definition current_state (w : World) : CrawlState * World :=
  match _state (manager w) with
  | Some st => (st, w)
  | None =>
      let '(t0, w1) := read_clock w in
      let '(t1, w2) := read_clock w1 in
      let '(t2, w3) := read_clock w2 in
      let st := CrawlState_new (run_id_format env t0) false t1 t2 in
      (st, set_manager w3 (set_state (manager w3) (Some st)))
  end.

Definition put_state (w : World) (st : CrawlState) : World :=
  set_manager w (set_state (manager w) (Some st)).

(** The methods of [StateManager] that the pipeline calls. *)
Definition sm_save (w : World) : bool * World :=
  let '(ok, d) := StateManagerModel.save (dump_state env) (manager w) (disk w) in
  (ok, set_disk w d).

Definition sm_is_collected (w : World) (bid_id : string) : bool * World :=
  let '(st, w1) := current_state w in (is_collected st bid_id, w1).

Definition sm_mark_collected (w : World) (bid_id : string) : bool * World :=
  let '(st, w1) := current_state w in
  let '(t, w2) := read_clock w1 in
  let '(fresh, st') := mark_collected st bid_id t in
  (fresh, put_state w2 st').

Definition sm_update_progress (w : World) (page idx total : option Z) : World :=
  let '(st, w1) := current_state w in
  let '(t, w2) := read_clock w1 in
  put_state w2 (update_progress st page idx total t).

Definition sm_complete_page (w : World) (page : Z) : World :=
  let '(st, w1) := current_state w in
  let '(t, w2) := read_clock w1 in
  snd (sm_save (put_state w2 (complete_page st page t))).

Definition sm_record_error (w : World) (err : string)
    (item_info : option (list (string * string))) : World :=
  let '(st, w1) := current_state w in
  let '(t, w2) := read_clock w1 in
  if dict_truthy item_info then
    let '(t', w3) := read_clock w2 in
    put_state w3 (record_error st err item_info t t')
  else put_state w2 (record_error st err item_info t t).

Definition sm_record_retry (w : World) : World :=
  let '(st, w1) := current_state w in
  let '(t, w2) := read_clock w1 in
  put_state w2 (record_retry st t).

Definition sm_mark_completed (w : World) : World :=
  let '(st, w1) := current_state w in
  let '(t, w2) := read_clock w1 in
  snd (sm_save (put_state w2 (mark_completed st t))).

Definition get_resume_point (w : World) : Z * Z * World :=
  let '(st, w1) := current_state w in
  (current_page (progress st), current_index (progress st), w1).

(** [str(e)] of a [RetryError]: its message. *)
Definition RetryError_str (err : Retry.RetryError Exn) : string :=
  match Retry.message err with
  | Retry.MaxRetriesExceeded m => "최대 재시도 횟수(" +:+ str_int m +:+ ")를 초과했습니다"
  | Retry.UnexpectedLoopExit => "예상치 못한 재시도 루프 종료"
  end.

(** The crawler calls [retry_async] with [max_retries], [base_delay] and
    [on_retry]; the other keywords keep their defaults, and
    [retry_exceptions = (Exception,)] matches every exception. *)
Definition crawler_retry {T} (func : World -> Outcome Exn T * World) (w : World)
  : Retry.Result Exn T * World :=
  let '(r, w1, _) :=
    Retry.retry_async func (max_retries cfg) (retry_delay cfg) 60%Q true true
      (fun _ => true) (Some (fun _ _ w0 => sm_record_retry w0)) (random env) w in
  (r, w1).

(** One call of [detail_scraper.scrape_from_url], put on record. *)
Definition call_scrape_from_url (url : string) (b : BidNotice) (w : World)
  : Outcome Exn BidNoticeDetail * World :=
  (scrape_from_url env (length (detail_calls w)) url b,
   mkWorld (manager w) (disk w) (repository w) (clock_reads w) (list_calls w)
     (next_calls w) (detail_calls w ++ [(url, b)])).

(** One call of [list_scraper.scrape]. *)
Definition call_scrape_list (w : World) : Outcome Exn BidNoticeList * World :=
  (scrape_list env (list_calls w),
   mkWorld (manager w) (disk w) (repository w) (clock_reads w) (S (list_calls w))
     (next_calls w) (detail_calls w)).

Definition call_go_to_next_page (w : World) : bool * World :=
  (go_to_next_page env (next_calls w),
   mkWorld (manager w) (disk w) (repository w) (clock_reads w) (list_calls w)
     (S (next_calls w)) (detail_calls w)).

(** Truth value of an [Optional[str]]. *)
Definition str_truthy (o : option string) : bool :=
  match o with
  | Some s => negb (String.eqb s "")
  | None => false
  end.

(** [ItemProcessor._crawl_detail]. *)
Definition _crawl_detail (b : BidNotice) (w : World) : option BidNoticeDetail * World :=
  if negb (str_truthy (detail_url b)) then
    let '(t, w1) := read_clock w in
    (Some (partial_detail b t "No detail URL"), w1)
  else
    let url0 := default "" (detail_url b) in
    let url := if String.prefix "http" url0 then url0 else base_url cfg +:+ url0 in
    match crawler_retry (call_scrape_from_url url b) w with
    | (Retry.Returned detail, w1) =>
        if go_back env (length (detail_calls w1)) then (Some detail, w1)
        else (None, w1)
    | (Retry.RetryFailed err, w1) =>
        let w2 :=
          sm_record_error w1 (RetryError_str err)
            (Some [("bid_id", bid_notice_id b); ("url", url0)]) in
        let '(t, w3) := read_clock w2 in
        (Some (partial_detail b t (RetryError_str err)), w3)
    | (Retry.Propagated _, w1) => (None, w1)
    end.

(** [ItemProcessor.process]: what it returns or raises. *)
Definition process (task : CrawlTask) (w : World)
  : Outcome Exn (option BidNoticeDetail) * World :=
  let b := task_notice task in
  let '(collected, w1) := sm_is_collected w (bid_notice_id b) in
  if collected then (Return None, w1)
  else
    let w2 := sm_update_progress w1 None (Some (index task)) None in
    let '(detail, w3) := _crawl_detail b w2 in
    match detail with
    | Some d =>
        match save (repository w3) (DetailItem d) with
        | (Raise e, r) => (Raise e, set_repository w3 r)
        | (Return _, r) =>
            let '(_, w4) := sm_mark_collected (set_repository w3 r) (bid_notice_id b) in
            (Return (Some d), w4)
        end
    | None => (Return None, w3)
    end.

(** The two limit tests, [limit and value > limit] and
    [limit and value >= limit]: an unset limit and the limit 0 are both
    false. *)
Definition page_limit_passed (limit : option Z) (page : Z) : bool :=
  match limit with
  | Some m => negb (m =? 0) && (m <? page)
  | None => false
  end.

Definition item_limit_reached (limit : option Z) (collected : Z) : bool :=
  match limit with
  | Some m => negb (m =? 0) && (m <=? collected)
  | None => false
  end.

(** The shared variables of [_execute_crawl_pipeline]: the task queue with
    its count of unfinished tasks, the workers still running, whether one
    of them ended with an exception, and the counters of the closure. *)
Record Pipe : Type := mkPipe {
  world : World;
  queue : list CrawlTask;
  unfinished : Z;
  alive : nat;
  crashed : bool;
  items_collected : Z;
  tracked_page : Z;
  page_items : Z;
  waits : nat
}.

Definition set_world (p : Pipe) (w : World) : Pipe :=
  mkPipe w (queue p) (unfinished p) (alive p) (crashed p) (items_collected p)
    (tracked_page p) (page_items p) (waits p).

(** [task_queue.task_done()]: [None] for its [ValueError]. *)
Definition task_done (p : Pipe) : option Pipe :=
  if unfinished p <=? 0 then None
  else Some (mkPipe (world p) (queue p) (unfinished p - 1) (alive p) (crashed p)
               (items_collected p) (tracked_page p) (page_items p) (waits p)).

(** A worker leaves its loop with an exception. *)
Definition worker_dies (p : Pipe) : Pipe :=
  mkPipe (world p) (queue p) (unfinished p) (pred (alive p)) true
    (items_collected p) (tracked_page p) (page_items p) (waits p).

(** The [finally] clause of the worker loop. *)
Definition finally_task_done (p : Pipe) : Pipe :=
  match task_done p with
  | Some p1 => p1
  | None => worker_dies p
  end.

(** One pass of a worker's loop on a task it took from the queue. *)
Definition worker_handles (task : CrawlTask) (p : Pipe) : Pipe :=
  if item_limit_reached (max_items cfg) (items_collected p) then
    match task_done p with
    | Some p1 => finally_task_done p1
    | None => finally_task_done p
    end
  else
    let p1 :=
      if page_num task =? tracked_page p then p
      else mkPipe (world p) (queue p) (unfinished p) (alive p) (crashed p)
             (items_collected p) (page_num task) 0 (waits p) in
    match process task (world p1) with
    | (Raise _, w) => finally_task_done (set_world p1 w)
    | (Return None, w) => finally_task_done (set_world p1 w)
    | (Return (Some _), w) =>
        let p2 :=
          mkPipe w (queue p1) (unfinished p1) (alive p1) (crashed p1)
            (items_collected p1 + 1) (tracked_page p1) (page_items p1 + 1) (waits p1) in
        if save_interval cfg =? 0 then finally_task_done p2
        else if items_collected p2 mod save_interval cfg =? 0 then
          match flush (repository (world p2)) with
          | (Raise _, r) => finally_task_done (set_world p2 (set_repository (world p2) r))
          | (Return _, r) =>
              finally_task_done
                (set_world p2 (snd (sm_save (set_repository (world p2) r))))
          end
        else finally_task_done p2
    end.

(** The workers take up to [n] tasks from the queue, one after the other. *)
Fixpoint workers_take (n : nat) (p : Pipe) : Pipe :=
  match n, queue p, alive p with
  | S n', task :: rest, S _ =>
      workers_take n'
        (worker_handles task
           (mkPipe (world p) rest (unfinished p) (alive p) (crashed p)
              (items_collected p) (tracked_page p) (page_items p) (waits p)))
  | _, _, _ => p
  end.

(** The producer waits: the workers run as long as the schedule says. *)
Definition producer_waits (p : Pipe) : Pipe :=
  let p1 := workers_take (schedule env (waits p)) p in
  mkPipe (world p1) (queue p1) (unfinished p1) (alive p1) (crashed p1)
    (items_collected p1) (tracked_page p1) (page_items p1) (S (waits p1)).

(** Whether [put] finds the queue full ([maxsize <= 0] is unbounded);
    sentinels already queued count as well. *)
Definition queue_full (p : Pipe) (sentinels : nat) : bool :=
  (0 <? queue_size cfg) && (queue_size cfg <=? Z.of_nat (length (queue p) + sentinels)).

(** [await task_queue.put(task)]: on a full queue the producer waits for
    a worker to take a task; [None] when no worker is left to do so. *)
Definition put_task (task : CrawlTask) (p : Pipe) : option Pipe :=
  let p1 := if queue_full p 0 then workers_take 1 p else p in
  if queue_full p1 0 then None
  else Some (mkPipe (world p1) (queue p1 ++ [task]) (unfinished p1 + 1) (alive p1)
               (crashed p1) (items_collected p1) (tracked_page p1) (page_items p1)
               (waits p1)).

(** [items[idx_start:]] with the indices [enumerate] gives from
    [idx_start] on. *)
Definition slice_from (l : list BidNotice) (start : Z) : list BidNotice :=
  if start <? 0 then drop (length l - Z.to_nat (- start)) l else drop (Z.to_nat start) l.

Fixpoint enumerate_from (start : Z) (l : list BidNotice) : list (Z * BidNotice) :=
  match l with
  | [] => []
  | b :: r => (start, b) :: enumerate_from (start + 1) r
  end.

(** How the loop over the tasks of one page ends. *)
Inductive Enqueued : Type :=
| AllQueued (p : Pipe)
| LimitReached (p : Pipe)
| PutBlocked (p : Pipe).

(** The body of [async for task in navigator.produce_tasks(...)] for the
    tasks of one page. *)
Fixpoint enqueue_page (page : Z) (tasks : list (Z * BidNotice)) (p : Pipe) : Enqueued :=
  match tasks with
  | [] => AllQueued p
  | (idx, b) :: rest =>
      if item_limit_reached (max_items cfg) (items_collected p) then LimitReached p
      else
        match put_task (mkCrawlTask b page idx) p with
        | Some p1 => enqueue_page page rest p1
        | None => PutBlocked p
        end
  end.

(** How [_execute_crawl_pipeline] ends. *)
Inductive PipelineResult : Type :=
| Completed (w : World)
| Failed (e : Exn) (w : World)
| Blocked (w : World)
| StillCrawling (w : World).

(** The [ValueError] of a [task_done] too many, which [gather] re-raises. *)
Definition task_done_error : Exn := OtherException "task_done() called too many times".

(** [str(e)], without the details some exceptions append. *)
Definition exn_str (e : Exn) : string :=
  match e with
  | InvalidBidDataException m _ _ | RepositoryException m | ScraperException m
  | ValidationError m | OtherException m => m
  | DuplicateBidException bid_id => "Duplicate bid notice: " +:+ bid_id
  end.

(** A worker takes a sentinel: [task_queue.task_done(); break]. *)
Fixpoint take_sentinels (n : nat) (p : Pipe) : Pipe :=
  match n with
  | O => p
  | S n' =>
      match task_done p with
      | Some p1 => take_sentinels n' p1
      | None => take_sentinels n' (worker_dies p)
      end
  end.

(** Putting [max_workers] sentinels, the workers making room when the
    queue is full. *)
Fixpoint put_sentinels (n : nat) (queued : nat) (p : Pipe) : option Pipe :=
  match n with
  | O => Some p
  | S n' =>
      let p1 := if queue_full p queued then workers_take 1 p else p in
      if queue_full p1 queued then None
      else put_sentinels n' (S queued)
             (mkPipe (world p1) (queue p1) (unfinished p1 + 1) (alive p1) (crashed p1)
                (items_collected p1) (tracked_page p1) (page_items p1) (waits p1))
  end.

(** The [finally] clause after the producer loop and the end of the
    method: sentinels, [gather], [mark_completed]. *)
Definition shut_down (p : Pipe) : PipelineResult :=
  match put_sentinels (max_workers cfg) 0 p with
  | None => Blocked (world p)
  | Some p1 =>
      let p2 := workers_take (length (queue p1)) p1 in
      let p3 := take_sentinels (alive p2) p2 in
      if crashed p3 then Failed task_done_error (world p3)
      else Completed (sm_mark_completed (world p3))
  end.

(** [PageNavigator.produce_tasks] driven by the loop that queues its
    tasks; [fuel] bounds the number of list pages visited. *)
Fixpoint produce_tasks (fuel : nat) (page start_page start_index : Z) (p : Pipe)
  : PipelineResult :=
  match fuel with
  | O => StillCrawling (world p)
  | S fuel' =>
      if page_limit_passed (max_pages cfg) page then shut_down p
      else
        let w1 := sm_update_progress (world p) (Some page) None None in
        let '(r, w2) := crawler_retry call_scrape_list w1 in
        let p1 := producer_waits (set_world p w2) in
        match r with
        | Retry.RetryFailed err =>
            shut_down (set_world p1 (sm_record_error (world p1) (RetryError_str err) None))
        | Retry.Propagated e => Failed e (world p1)
        | Retry.Returned bid_list =>
            match items bid_list with
            | [] => shut_down p1
            | _ :: _ =>
                let w3 :=
                  sm_update_progress (world p1) None None (Some (list_total_pages bid_list)) in
                let idx_start := if page =? start_page then start_index else 0 in
                let tasks := enumerate_from idx_start (slice_from (items bid_list) idx_start) in
                match enqueue_page page tasks (set_world p1 w3) with
                | PutBlocked p2 => Blocked (world p2)
                | LimitReached p2 => shut_down p2
                | AllQueued p2 =>
                    let p3 := set_world p2 (sm_complete_page (world p2) page) in
                    if negb (has_next bid_list) then shut_down p3
                    else
                      let '(moved, w4) := call_go_to_next_page (world p3) in
                      let p4 := producer_waits (set_world p3 w4) in
                      if negb moved then shut_down p4
                      else produce_tasks fuel' (page + 1) start_page start_index
                             (producer_waits p4)
                end
            end
        end
  end.

(** [_execute_crawl_pipeline], from the resume point on. *)
Definition _execute_crawl_pipeline (fuel : nat) (w : World) : PipelineResult :=
  let '(start_page, start_index, w1) := get_resume_point w in
  produce_tasks fuel start_page start_page start_index
    (mkPipe w1 [] 0 (max_workers cfg) false 0 start_page 0 0).

Definition result_world (r : PipelineResult) : World :=
  match r with
  | Completed w | Failed _ w | Blocked w | StillCrawling w => w
  end.

(** The part of [run] after [initialize]: the pipeline, the handler of an
    exception, and [json_storage.close()] of the [finally] clause. *)
Definition crawl (fuel : nat) (w : World) : PipelineResult :=
  let r := _execute_crawl_pipeline fuel w in
  let close_repository (w0 : World) :=
    set_repository w0 (snd (close (repository w0))) in
  match r with
  | Completed w1 => Completed (close_repository w1)
  | Failed e w1 =>
      Failed e (close_repository (snd (sm_save (sm_record_error w1 (exn_str e) None))))
  | Blocked w1 => Blocked w1
  | StillCrawling w1 => StillCrawling w1
  end.

(** [run]: [initialize], then the rest; [None] when [initialize] does not
    return. *)
Definition run (load_fuel fuel : nat) (resume : bool) (w : World) : option PipelineResult :=
  match StateManagerModel.initialize (parse_state env) load_fuel (manager w) (disk w)
          (config_run_id cfg) resume
          (now env (clock_reads w)) (now env (S (clock_reads w))) with
  | InitStillLoading => None
  | Resumed sm d => Some (crawl fuel (set_disk (set_manager w sm) d))
  | Fresh sm d =>
      Some (crawl fuel
              (mkWorld sm d (repository w) (S (S (clock_reads w))) (list_calls w)
                 (next_calls w) (detail_calls w)))
  end.

End WithEnv.

(** The state a run ends with: [state_manager.state]. *)
Definition final_state (w : World) : option CrawlState := _state (manager w).

(** The items of the repository's output file. *)
Definition written_items (w : World) : list Elem := _load_single_raw (repository w).

(** A small site for concrete runs: one list page with one notice that
    has no detail link, and no further page. *)
Definition lone_notice : BidNotice :=
  mkBidNotice "20240115-001" "sample" GOODS OPEN None None None None
    (Some (mkDecimal false 100000000 0)) None None "2024-01-15T09:00:00".

Definition one_page_env : Env :=
  mkEnv (fun _ => "2024-01-15T10:00:00") (fun t => t)
    (fun _ => Return (mkBidNoticeList [lone_notice] 1 1 1 false))
    (fun _ => false)
    (fun _ _ _ => Raise (ScraperException "unreachable"))
    (fun _ => true) (fun _ => 0%Q) toy_parse toy_dump (fun _ => 0%nat).

Definition zero_limits : CrawlerConfig :=
  mkConfig "run" "https://www.g2b.go.kr" (Some 0) (Some 0) 3 2%Q 10 3 50.

(** A crawler just constructed on empty directories, and the same
    crawler right after [initialize]. *)
Definition new_world : World :=
  mkWorld
    (mkStateManager crawl_state_path (["data"], "crawl_state.backup.json") None)
    (mkDisk ∅ [])
    (JsonStorage_init "bid_notices_run.json" false false ∅ [])
    0 0 0 [].

Definition fresh_world : World :=
  mkWorld
    (mkStateManager crawl_state_path (["data"], "crawl_state.backup.json")
       (Some (CrawlState_new "run" true "2024-01-15T10:00:00" "2024-01-15T10:00:00")))
    (mkDisk ∅ [])
    (JsonStorage_init "bid_notices_run.json" false false ∅ [])
    2 0 0 [].

(** The parts of the world outside the checkpoint and the clock. *)
Definition outside (w : World) : JsonStorage * Disk * list (string * BidNotice) * nat * nat :=
  (repository w, disk w, detail_calls w, list_calls w, next_calls w).

(** The ids the checkpoint holds as collected (none before a state
    exists). *)
Definition collected (w : World) : gset string :=
  match _state (manager w) with
  | Some st => collected_ids st
  | None => ∅
  end.

(** What a detail crawl leaves alone: the repository, the disk and the
    collected ids. *)
Definition untouched (w : World) : JsonStorage * Disk * gset string :=
  (repository w, disk w, collected w).

(** The count of unfinished tasks has fallen behind: a worker has died of
    a [task_done] too many, or fewer tasks are counted as unfinished
    than are waiting in the queue ([queued] sentinels included). *)
Definition overcounted (cfg : CrawlerConfig) (p : Pipe) (queued : nat) : Prop :=
  crashed p = true \/
  (alive p = max_workers cfg /\ 0 <= unfinished p /\
   unfinished p < Z.of_nat (length (queue p) + queued)).

(** The producer loop has been left: the run completed, failed, or is
    left waiting on the queue. *)
Definition ended (r : PipelineResult) : Prop :=
  match r with
  | StillCrawling _ => False
  | _ => True
  end.

(** A pipe in which one task was taken from an empty queue after the
    limit of one item was reached. *)
Definition one_item_limit : CrawlerConfig := set_limits zero_limits None (Some 1).

Definition limit_reached_pipe : Pipe := mkPipe fresh_world [] 1 3 false 1 1 1 0.


End CrawlerModel.

(** * Properties *)

Module RetryFacts.
Import Retry.

Section RetryAsyncFacts.
Context {E T W : Type}.
Variable func : W -> Outcome E T * W.
Variable max_retries : Z.
Variable base_delay max_delay : Q.
Variable exponential_backoff jitter : bool.
Variable retry_exceptions : E -> bool.
Variable on_retry : option (Z -> E -> W -> W).
Variable random : Z -> Q.

Local Abbreviation retry_loop :=
  (retry_loop func max_retries base_delay max_delay exponential_backoff jitter
     retry_exceptions on_retry random).
Local Abbreviation retry_async :=
  (retry_async func max_retries base_delay max_delay exponential_backoff jitter
     retry_exceptions on_retry random).
Local Abbreviation after_failures := (after_failures func retry_exceptions on_retry).
Local Abbreviation compute_delay :=
  (compute_delay base_delay max_delay exponential_backoff jitter random).
Local Abbreviation on_retry_events := (on_retry_events on_retry).
Local Abbreviation call_on_retry := (call_on_retry on_retry).
Local Abbreviation all_attempts_fail :=
  (all_attempts_fail func max_retries retry_exceptions on_retry).

Lemma invocations_cons_call (tr : list (Event E)) :
  invocations (EvCall :: tr) = 1 + invocations tr.
Proof. unfold invocations. cbn [List.filter is_call length]. lia. Qed.

Lemma invocations_app (tr1 tr2 : list (Event E)) :
  invocations (tr1 ++ tr2) = invocations tr1 + invocations tr2.
Proof. unfold invocations. rewrite List.filter_app, length_app. lia. Qed.

Lemma invocations_on_retry_events k e : invocations (on_retry_events k e) = 0.
Proof. unfold on_retry_events. destruct on_retry; reflexivity. Qed.

Lemma invocations_cons_sleep d (tr : list (Event E)) :
  invocations (EvSleep d :: tr) = invocations tr.
Proof. reflexivity. Qed.

(** A prefix of [n] retryable failures that stays below the last attempt
    is replayed by the loop, which then continues from the world it
    leads to with [n] more invocations on record. *)
Lemma retry_loop_after_failures (n : nat) :
  forall (k : Z) (w : W) (last : option E) (P : W -> Prop) (rest : nat),
    after_failures n k w P ->
    k + Z.of_nat n <= max_retries ->
    exists wn lastn trn,
      P wn /\ invocations trn = Z.of_nat n /\
      retry_loop (n + rest) k last w =
        (let '(r, wf, tr) := retry_loop rest (k + Z.of_nat n) lastn wn in
         (r, wf, trn ++ tr)).
Proof.
  induction n as [|n IH]; intros k w last P rest Hfail Hle.
  - exists w, last, []. cbn in *. rewrite Z.add_0_r.
    repeat split; [exact Hfail|]. now destruct (retry_loop rest k last w) as [[? ?] ?].
  - cbn in Hfail. destruct Hfail as (e & w1 & Hf & Hre & Hrest).
    destruct (IH (k + 1) (call_on_retry k e w1) (Some e) P rest Hrest ltac:(lia))
      as (wn & lastn & trn & HP & Hinv & Hloop).
    exists wn, lastn, (EvCall :: on_retry_events k e ++ EvSleep (compute_delay k) :: trn).
    split; [exact HP|]. split.
    + rewrite invocations_cons_call, invocations_app, invocations_on_retry_events,
        invocations_cons_sleep, Hinv. lia.
    + cbn [Nat.add retry_loop]. rewrite Hf, Hre.
      assert ((k =? max_retries) = false) as -> by (apply Z.eqb_neq; lia).
      rewrite Hloop. replace (k + 1 + Z.of_nat n) with (k + Z.of_nat (S n)) by lia.
      destruct (retry_loop rest (k + Z.of_nat (S n)) lastn wn) as [[r wf] tr].
      f_equal. cbn. f_equal. rewrite <- app_assoc. reflexivity.
Qed.


End RetryAsyncFacts.


Section RetryAsyncRuns.
Context {E T W : Type}.
Variable func : W -> Outcome E T * W.
Variable max_retries : Z.
Variable base_delay max_delay : Q.
Variable exponential_backoff jitter : bool.
Variable retry_exceptions : E -> bool.
Variable on_retry : option (Z -> E -> W -> W).
Variable random : Z -> Q.

Local Abbreviation retry_loop :=
  (retry_loop func max_retries base_delay max_delay exponential_backoff jitter
     retry_exceptions on_retry random).
Local Abbreviation retry_async :=
  (retry_async func max_retries base_delay max_delay exponential_backoff jitter
     retry_exceptions on_retry random).
Local Abbreviation after_failures := (after_failures func retry_exceptions on_retry).
Local Abbreviation compute_delay :=
  (compute_delay base_delay max_delay exponential_backoff jitter random).
Local Abbreviation on_retry_events := (on_retry_events on_retry).
Local Abbreviation call_on_retry := (call_on_retry on_retry).

Lemma sleeps_app (tr1 tr2 : list (Event E)) : sleeps (tr1 ++ tr2) = sleeps tr1 ++ sleeps tr2.
Proof. apply omap_app. Qed.

Lemma retry_callbacks_app (tr1 tr2 : list (Event E)) :
  retry_callbacks (tr1 ++ tr2) = retry_callbacks tr1 ++ retry_callbacks tr2.
Proof. apply omap_app. Qed.

Lemma sleeps_on_retry_events k e : sleeps (on_retry_events k e) = [].
Proof. unfold on_retry_events. destruct on_retry; reflexivity. Qed.

Lemma retry_callbacks_on_retry_events k e :
  retry_callbacks (on_retry_events k e) = match on_retry with Some _ => [k + 1] | None => [] end.
Proof. unfold on_retry_events. destruct on_retry; reflexivity. Qed.

(** The trace of [n] failed attempts that are followed by a further
    attempt: one call, one callback and one sleep each. *)
Lemma retry_loop_failures_trace (n : nat) :
  forall (k : Z) (w : W) (last : option E) (P : W -> Prop) (rest : nat),
    after_failures n k w P ->
    k + Z.of_nat n <= max_retries ->
    exists wn lastn trn,
      P wn /\ invocations trn = Z.of_nat n /\
      sleeps trn = compute_delay <$> seqZ k (Z.of_nat n) /\
      retry_callbacks trn = (match on_retry with Some _ => seqZ (k + 1) (Z.of_nat n) | None => [] end) /\
      retry_loop (n + rest) k last w =
        (let '(r, wf, tr) := retry_loop rest (k + Z.of_nat n) lastn wn in
         (r, wf, trn ++ tr)).
Proof.
  induction n as [|n IH]; intros k w last P rest Hfail Hle.
  - exists w, last, []. cbn in *. rewrite Z.add_0_r.
    repeat split; [exact Hfail|now destruct on_retry|].
    now destruct (retry_loop rest k last w) as [[? ?] ?].
  - cbn in Hfail. destruct Hfail as (e & w1 & Hf & Hre & Hrest).
    destruct (IH (k + 1) (call_on_retry k e w1) (Some e) P rest Hrest ltac:(lia))
      as (wn & lastn & trn & HP & Hinv & Hsl & Hcb & Hloop).
    exists wn, lastn, (EvCall :: on_retry_events k e ++ EvSleep (compute_delay k) :: trn).
    split; [exact HP|]. split; [|split; [|split]].
    + change (EvCall :: on_retry_events k e ++ EvSleep (compute_delay k) :: trn)
        with ([EvCall] ++ on_retry_events k e ++ [EvSleep (compute_delay k)] ++ trn).
      rewrite !invocations_app, invocations_on_retry_events, Hinv.
      unfold invocations. cbn. lia.
    + change (EvCall :: on_retry_events k e ++ EvSleep (compute_delay k) :: trn)
        with ([EvCall] ++ on_retry_events k e ++ [EvSleep (compute_delay k)] ++ trn).
      rewrite !sleeps_app, sleeps_on_retry_events, Hsl.
      rewrite (seqZ_cons k) by lia. cbn.
      replace (Z.pred (Z.of_nat (S n))) with (Z.of_nat n) by lia.
      replace (Z.succ k) with (k + 1) by lia. reflexivity.
    + change (EvCall :: on_retry_events k e ++ EvSleep (compute_delay k) :: trn)
        with ([EvCall] ++ on_retry_events k e ++ [EvSleep (compute_delay k)] ++ trn).
      rewrite !retry_callbacks_app, retry_callbacks_on_retry_events, Hcb.
      destruct on_retry; [|reflexivity]. cbn.
      rewrite (seqZ_cons (k + 1)) by lia.
      replace (Z.pred (Z.of_nat (S n))) with (Z.of_nat n) by lia.
      replace (Z.succ (k + 1)) with (k + 1 + 1) by lia. reflexivity.
    + cbn [Nat.add Retry.retry_loop]. rewrite Hf, Hre.
      assert ((k =? max_retries) = false) as -> by (apply Z.eqb_neq; lia).
      rewrite Hloop. replace (k + 1 + Z.of_nat n) with (k + Z.of_nat (S n)) by lia.
      destruct (retry_loop rest (k + Z.of_nat (S n)) lastn wn) as [[r wf] tr].
      f_equal. cbn. f_equal. rewrite <- app_assoc. reflexivity.
Qed.


Lemma retry_loop_outcomes (remaining : nat) :
  forall (k : Z) (last : option E) (w : W) r wf tr,
    (1 <= remaining)%nat -> k + Z.of_nat remaining = max_retries + 1 ->
    retry_loop remaining k last w = (r, wf, tr) ->
    1 <= invocations tr <= Z.of_nat remaining /\
    match r with
    | Returned v => exists w0, func w0 = (Return v, wf)
    | Propagated e => exists w0, func w0 = (Raise e, wf) /\ retry_exceptions e = false
    | RetryFailed err =>
        message err = MaxRetriesExceeded max_retries /\
        attempts err = max_retries + 1 /\
        invocations tr = Z.of_nat remaining /\
        exists e w0, last_exception err = Some e /\ func w0 = (Raise e, wf) /\
                     retry_exceptions e = true
    end.
Proof.
  induction remaining as [|n IH]; intros k last w r wf tr Hpos Hsum; [lia|].
  cbn [Retry.retry_loop]. destruct (func w) as [[v|e] w1] eqn:Hf.
  - intros [= <- <- <-]. split; [unfold invocations; cbn; lia|]. eauto.
  - destruct (retry_exceptions e) eqn:Hre.
    + destruct (Z.eqb_spec k max_retries) as [->|Hne].
      * intros [= <- <- <-]. assert (n = 0%nat) as -> by lia.
        split; [unfold invocations; cbn; lia|]. cbn.
        repeat split. exists e, w. auto.
      * destruct (retry_loop n (k + 1) (Some e) (call_on_retry k e w1)) as [[r' wf'] tr'] eqn:Hl.
        intros [= <- <- <-].
        destruct (IH (k + 1) (Some e) (call_on_retry k e w1) r' wf' tr'
                    ltac:(lia) ltac:(lia) Hl) as [Hinv Hr].
        assert (invocations (EvCall :: on_retry_events k e ++ EvSleep (compute_delay k) :: tr')
                = 1 + invocations tr') as Hi.
        { change (EvCall :: on_retry_events k e ++ EvSleep (compute_delay k) :: tr')
            with ([EvCall] ++ on_retry_events k e ++ [EvSleep (compute_delay k)] ++ tr').
          rewrite !invocations_app, invocations_on_retry_events.
          unfold invocations. cbn. lia. }
        rewrite Hi. split; [lia|].
        destruct r' as [v|err|e']; [exact Hr| |exact Hr].
        destruct Hr as (Hm & Ha & Hn & Hex). repeat split; try assumption. lia.
    + intros [= <- <- <-]. split; [unfold invocations; cbn; lia|]. eauto.
Qed.


(** X3.  With a negative [max_retries]
    the range of the loop is empty: the operation is never invoked, and
    the raise after the loop is reached, with
    [attempts = max_retries + 1] and no [last_exception]. *)
Theorem retry_async_negative_max_retries :
  max_retries < 0 ->
  forall w : W,
    retry_async w =
      (RetryFailed (mkRetryError UnexpectedLoopExit (max_retries + 1) None), w, []).
Proof.
  intros Hneg w. unfold Retry.retry_async.
  replace (Z.to_nat (max_retries + 1)) with 0%nat by lia. reflexivity.
Qed.

(** X4.  The waiting time, with the numbers taken as
    exact rationals: for non-negative [base_delay] and [max_delay] and a
    random value in [[0, 1)] it is never negative; with exponential
    backoff it is at most [max_delay], or one and a half times that with
    jitter; without exponential backoff [max_delay] is not applied at all
    and the bound is [base_delay]; and without jitter it never decreases
    from one attempt to a later one. *)
Theorem compute_delay_capped :
  forall attempt : Z,
    (0 <= base_delay)%Q -> (0 <= max_delay)%Q ->
    (0 <= random attempt)%Q -> (random attempt < 1)%Q ->
    (0 <= compute_delay attempt)%Q /\
    (exponential_backoff = true ->
     (compute_delay attempt <= (if jitter then (3 # 2) * max_delay else max_delay))%Q) /\
    (exponential_backoff = false ->
     (compute_delay attempt <= (if jitter then (3 # 2) * base_delay else base_delay))%Q) /\
    (jitter = false ->
     forall later : Z, attempt <= later -> (compute_delay attempt <= compute_delay later)%Q).
Proof.
  intros attempt Hb Hm Hr0 Hr1. unfold Retry.compute_delay.
  set (delay := if exponential_backoff then _ else _).
  assert (0 <= delay)%Q as Hd0.
  { subst delay. destruct exponential_backoff; [|exact Hb].
    apply Q.min_glb; [|exact Hm]. apply Qmult_le_0_compat; [exact Hb|].
    apply Qpower_0_le. discriminate. }
  assert (forall bound, (delay <= bound)%Q ->
            ((if jitter then delay * ((1 # 2) + random attempt) else delay) <=
             (if jitter then (3 # 2) * bound else bound))%Q) as Hcap.
  { intros bound Hle. destruct jitter; [|exact Hle].
    apply Qle_trans with ((3 # 2) * delay)%Q.
    - rewrite (Qmult_comm delay). apply Qmult_le_compat_r; [|exact Hd0].
      apply Qlt_le_weak in Hr1.
      apply Qle_trans with ((1 # 2) + 1)%Q; [apply Qplus_le_r, Hr1|discriminate].
    - rewrite !(Qmult_comm (3 # 2)). apply Qmult_le_compat_r; [exact Hle|discriminate]. }
  split.
  - destruct jitter; [|exact Hd0]. apply Qmult_le_0_compat; [exact Hd0|].
    apply Qle_trans with (1 # 2)%Q; [discriminate|].
    rewrite <- (Qplus_0_r (1 # 2)) at 1. apply Qplus_le_r, Hr0.
  - split; [|split]; try (intros Heb; apply Hcap; subst delay; rewrite Heb).
    + apply Q.le_min_r.
    + apply Qle_refl.
    + intros -> later Hlater. subst delay. destruct exponential_backoff; [|apply Qle_refl].
      apply Q.min_le_compat_r. rewrite !(Qmult_comm base_delay).
      apply Qmult_le_compat_r; [|exact Hb]. apply Qpower_le_compat_l; [exact Hlater|discriminate].
Qed.

End RetryAsyncRuns.



Lemma retry_async_negative_max_retries_witness :
  Retry.retry_async (always_raises true) (-1) 1%Q 60%Q true true id None (fun _ => 0%Q) 0%nat =
    (RetryFailed (mkRetryError UnexpectedLoopExit (-1 + 1) None), 0%nat, []).
Proof.
  apply (retry_async_negative_max_retries (always_raises true) (-1) 1%Q 60%Q true true id None
           (fun _ => 0%Q)).
  lia.
Defined.

Section RetryContextFacts.
Context {E : Type}.

Lemma handle_errors_below_limit (errors : list (E * Q)) :
  forall ctx : RetryContext E,
    ctx_attempt ctx + Z.of_nat (length errors) <= ctx_max_retries ctx ->
    exists delays ctx',
      handle_errors ctx errors = (Return delays, ctx') /\
      length delays = length errors /\
      ctx_attempt ctx' = ctx_attempt ctx + Z.of_nat (length errors) /\
      ctx_max_retries ctx' = ctx_max_retries ctx.
Proof.
  induction errors as [|[e rnd] rest IH]; intros ctx Hle.
  - exists [], ctx. cbn. repeat split. lia.
  - cbn [length] in Hle. cbn [handle_errors]. unfold handle_error.
    destruct (Z.ltb_spec (ctx_max_retries ctx) (ctx_attempt ctx + 1)) as [Hlt|_]; [lia|].
    set (ctx1 := mkRetryContext _ _ _ _ _ _).
    destruct (IH ctx1 ltac:(cbn; lia)) as (delays & ctx' & -> & Hlen & Hatt & Hmax).
    eexists _, ctx'. split; [reflexivity|]. cbn [length]. rewrite Hlen, Hatt, Hmax. cbn.
    repeat split. lia.
Qed.


End RetryContextFacts.


Lemma compute_delay_capped_witness :
  (0 <= Retry.compute_delay 2%Q 60%Q true true (fun _ => 1 # 4) 7)%Q /\
  (Retry.compute_delay 2%Q 60%Q true true (fun _ => 1 # 4) 7 <= (3 # 2) * 60)%Q.
Proof.
  destruct (compute_delay_capped 2%Q 60%Q true true (fun _ => (1 # 4)%Q) 7)
    as (H0 & Hcap & _); try discriminate; try reflexivity.
  split; [exact H0|]. apply Hcap. reflexivity.
Defined.


End RetryFacts.

Module CrawlStateFacts.
Import CrawlStateModel.

Lemma counts_ids_new rid running now1 now2 :
  counts_ids (CrawlState_new rid running now1 now2).
Proof. unfold counts_ids. cbn. rewrite size_empty. reflexivity. Qed.

Lemma counts_ids_step st op : counts_ids st -> counts_ids (apply_operation st op).
Proof.
  unfold counts_ids. intros H. destruct op; cbn; try exact H.
  - unfold mark_collected. case_bool_decide as Hin; cbn; [exact H|].
    rewrite size_union by set_solver. rewrite size_singleton. lia.
  - unfold record_error. destruct (dict_truthy item_info); cbn; exact H.
Qed.

Lemma counts_ids_operations ops : forall st,
  counts_ids st -> counts_ids (apply_operations st ops).
Proof.
  unfold apply_operations. induction ops as [|op ops IH]; intros st H; cbn.
  - exact H.
  - apply IH, counts_ids_step, H.
Qed.

(** C2.  After any sequence of operations on a fresh [CrawlState] the
    counter [total_collected] equals the number of collected ids (the
    sequence is arbitrary, so this holds after every step); marking an id
    that is already collected returns [False], adds one to
    [skipped_duplicates] and changes neither the id set nor
    [total_collected]. *)
Theorem total_collected_counts_collected_ids :
  forall rid running now1 now2 (ops : list Operation),
    let st := apply_operations (CrawlState_new rid running now1 now2) ops in
    total_collected (statistics st) = Z.of_nat (size (collected_ids st)) /\
    (forall bid_id now,
       bid_id ∈ collected_ids st ->
       fst (mark_collected st bid_id now) = false /\
       skipped_duplicates (statistics (snd (mark_collected st bid_id now))) =
         skipped_duplicates (statistics st) + 1 /\
       collected_ids (snd (mark_collected st bid_id now)) = collected_ids st /\
       total_collected (statistics (snd (mark_collected st bid_id now))) =
         total_collected (statistics st)).
Proof.
  intros rid running now1 now2 ops st. split.
  - apply counts_ids_operations, counts_ids_new.
  - intros bid_id now Hin. unfold mark_collected.
    rewrite bool_decide_eq_true_2 by exact Hin. cbn. auto.
Qed.

(** The duplicate branch of C2 on a concrete run: the id ["A"] is marked
    twice. *)
Lemma total_collected_counts_collected_ids_witness :
  let st := apply_operations (CrawlState_new "run" true "t0" "t0") [MarkCollected "A" "t1"] in
  fst (mark_collected st "A" "t2") = false /\
  skipped_duplicates (statistics (snd (mark_collected st "A" "t2"))) =
    skipped_duplicates (statistics st) + 1 /\
  collected_ids (snd (mark_collected st "A" "t2")) = collected_ids st /\
  total_collected (statistics (snd (mark_collected st "A" "t2"))) =
    total_collected (statistics st).
Proof.
  apply (proj2 (total_collected_counts_collected_ids "run" true "t0" "t0" [MarkCollected "A" "t1"])).
  vm_compute. reflexivity.
Defined.

(** Equality of two finite sets built from unions and singletons, by
    membership. *)
Ltac set_ext :=
  apply set_eq; intros ?;
  rewrite ?elem_of_union, ?elem_of_singleton, ?elem_of_empty;
  try tauto.

Lemma count_calls_cons kind op ops :
  count_calls kind (op :: ops) = (if kind op then 1 else 0) + count_calls kind ops.
Proof. unfold count_calls. cbn [List.filter]. destruct (kind op); cbn [length]; lia. Qed.

Lemma counters_step st op :
  let st' := apply_operation st op in
  total_collected (statistics st') + skipped_duplicates (statistics st') =
    total_collected (statistics st) + skipped_duplicates (statistics st) +
    (if is_mark_collected op then 1 else 0) /\
  errors (statistics st') = errors (statistics st) + (if is_record_error op then 1 else 0) /\
  retries (statistics st') = retries (statistics st) + (if is_record_retry op then 1 else 0) /\
  Z.of_nat (length (failed_items st')) =
    Z.of_nat (length (failed_items st)) + (if names_item op then 1 else 0) /\
  list_collected (statistics st') = list_collected (statistics st) /\
  detail_collected (statistics st') = detail_collected (statistics st).
Proof.
  destruct op; cbn.
  - unfold mark_collected. case_bool_decide; cbn; repeat split; lia.
  - unfold record_error. destruct (dict_truthy item_info); cbn; rewrite ?length_app; cbn;
      repeat split; lia.
  - repeat split; lia.
  - repeat split; lia.
  - repeat split; lia.
  - repeat split; lia.
Qed.

Lemma counters_operations ops : forall st,
  let st' := apply_operations st ops in
  total_collected (statistics st') + skipped_duplicates (statistics st') =
    total_collected (statistics st) + skipped_duplicates (statistics st) +
    count_calls is_mark_collected ops /\
  errors (statistics st') = errors (statistics st) + count_calls is_record_error ops /\
  retries (statistics st') = retries (statistics st) + count_calls is_record_retry ops /\
  Z.of_nat (length (failed_items st')) =
    Z.of_nat (length (failed_items st)) + count_calls names_item ops /\
  list_collected (statistics st') = list_collected (statistics st) /\
  detail_collected (statistics st') = detail_collected (statistics st).
Proof.
  unfold apply_operations. induction ops as [|op ops IH]; intros st; cbn [fold_left].
  - unfold count_calls. cbn. repeat split; lia.
  - destruct (IH (apply_operation st op)) as (H1 & H2 & H3 & H4 & H5 & H6).
    destruct (counters_step st op) as (S1 & S2 & S3 & S4 & S5 & S6).
    rewrite !count_calls_cons. cbn zeta in *. repeat split; lia.
Qed.

(** X6.  After any sequence of operations on a
    fresh [CrawlState] the counters count the calls: every
    [mark_collected] call added one to exactly one of [total_collected]
    and [skipped_duplicates], [errors] is the number of [record_error]
    calls, [retries] the number of [record_retry] calls, and
    [failed_items] holds one entry for each [record_error] call that
    passed a non-empty [item_info] (a call with [None] or an empty
    dictionary is counted but leaves no entry); no operation touches
    [list_collected] or [detail_collected]. *)
Theorem counters_count_the_calls :
  forall rid running now1 now2 (ops : list Operation),
    let st := apply_operations (CrawlState_new rid running now1 now2) ops in
    total_collected (statistics st) + skipped_duplicates (statistics st) =
      count_calls is_mark_collected ops /\
    errors (statistics st) = count_calls is_record_error ops /\
    retries (statistics st) = count_calls is_record_retry ops /\
    Z.of_nat (length (failed_items st)) = count_calls names_item ops /\
    list_collected (statistics st) = 0 /\
    detail_collected (statistics st) = 0.
Proof.
  intros rid running now1 now2 ops st.
  destruct (counters_operations ops (CrawlState_new rid running now1 now2))
    as (H1 & H2 & H3 & H4 & H5 & H6).
  cbn in *. subst st. repeat split; lia.
Qed.

Lemma marked_ids_cons op ops :
  marked_ids (op :: ops) =
    match op with MarkCollected bid_id _ => {[bid_id]} ∪ marked_ids ops | _ => marked_ids ops end.
Proof. destruct op; reflexivity. Qed.

Lemma collected_ids_operations ops : forall st,
  collected_ids (apply_operations st ops) = collected_ids st ∪ marked_ids ops.
Proof.
  unfold apply_operations. induction ops as [|op ops IH]; intros st; cbn [fold_left].
  - unfold marked_ids. cbn. set_ext.
  - rewrite IH, marked_ids_cons. destruct op; cbn; try reflexivity.
    + unfold mark_collected. case_bool_decide as Hin; cbn; set_ext.
      intuition (subst; auto).
    + unfold record_error. destruct (dict_truthy item_info); reflexivity.
Qed.

(** X7.  After any sequence of operations
    on a fresh [CrawlState], [collected_ids] is exactly the set of ids
    that were passed to [mark_collected]: [is_collected] answers [True]
    for the ids that were marked and for no other, and no later
    operation makes it answer [False] again. *)
Theorem collected_ids_are_the_marked_ids :
  forall rid running now1 now2 (ops : list Operation) (bid_id : string),
    let st := apply_operations (CrawlState_new rid running now1 now2) ops in
    collected_ids st = marked_ids ops /\
    (is_collected st bid_id = true <-> exists now, MarkCollected bid_id now ∈ ops) /\
    (forall more, is_collected st bid_id = true ->
                  is_collected (apply_operations st more) bid_id = true).
Proof.
  intros rid running now1 now2 ops bid_id st.
  assert (collected_ids st = marked_ids ops) as Hids.
  { subst st. rewrite collected_ids_operations. cbn. set_ext. }
  split; [exact Hids|]. unfold is_collected. split.
  - rewrite bool_decide_eq_true, Hids. unfold marked_ids.
    rewrite elem_of_list_to_set, list_elem_of_omap. split.
    + intros (op & Hin & Hop). destruct op; try discriminate.
      injection Hop as ->. eauto.
    + intros (now & Hin). exists (MarkCollected bid_id now). auto.
  - intros more. rewrite !bool_decide_eq_true, collected_ids_operations, elem_of_union. auto.
Qed.

Lemma flags_operations ops : forall st,
  let st' := apply_operations st ops in
  is_completed st' = is_completed st || existsb is_mark_completed ops /\
  is_running st' = is_running st && negb (existsb is_mark_completed ops) /\
  run_id st' = run_id st /\ started_at st' = started_at st.
Proof.
  unfold apply_operations. induction ops as [|op ops IH]; intros st; cbn [fold_left existsb].
  - cbn. rewrite orb_false_r, andb_true_r. auto.
  - destruct (IH (apply_operation st op)) as (H1 & H2 & H3 & H4). cbn zeta.
    rewrite H1, H2, H3, H4. destruct op; cbn;
      try (unfold mark_collected; case_bool_decide; cbn);
      try (unfold record_error; destruct (dict_truthy item_info); cbn);
      repeat split; try reflexivity;
      destruct (is_completed st), (is_running st), (existsb is_mark_completed ops); reflexivity.
Qed.

(** X8.  [mark_completed] is the only operation that
    changes the two flags: after a sequence of operations on a fresh
    state, [is_completed] tells whether [mark_completed] was among them,
    and [is_running] is its initial value unless [mark_completed] was;
    [run_id] and [started_at] never change; and a completed state stays
    completed and not running under every further operation. *)
Theorem completion_flags :
  forall rid running now1 now2 (ops : list Operation),
    let st := apply_operations (CrawlState_new rid running now1 now2) ops in
    is_completed st = existsb is_mark_completed ops /\
    is_running st = running && negb (existsb is_mark_completed ops) /\
    run_id st = rid /\ started_at st = now1 /\
    (forall more, is_completed st = true ->
       is_completed (apply_operations st more) = true /\
       is_running (apply_operations st more) = false).
Proof.
  intros rid running now1 now2 ops st.
  destruct (flags_operations ops (CrawlState_new rid running now1 now2)) as (H1 & H2 & H3 & H4).
  cbn in H1, H2, H3, H4. fold st in H1, H2, H3, H4.
  split; [exact H1|]. split; [exact H2|]. split; [exact H3|]. split; [exact H4|].
  intros more Hdone. destruct (flags_operations more st) as (M1 & M2 & _). cbn zeta in M1, M2.
  rewrite M1, M2, H2, Hdone. rewrite H1 in Hdone. rewrite Hdone. cbn.
  split; [reflexivity|now rewrite andb_false_r].
Qed.


End CrawlStateFacts.

Module PyDecimalFacts.
Import PyDecimal.

Example str_examples :
  str (mkDecimal false 0 0) = "0" /\
  str (mkDecimal false 100000000 0) = "100000000" /\
  str (mkDecimal true 15 (-1)) = "-1.5" /\
  str (mkDecimal false 0 (-2)) = "0.00" /\
  str (mkDecimal false 1 3) = "1E+3" /\
  str (mkDecimal false 0 (-7)) = "0E-7" /\
  str (mkDecimal false 123 (-8)) = "0.00000123" /\
  str (mkDecimal false 123 (-9)) = "1.23E-7" /\
  str (mkDecimal false 12345 2) = "1.2345E+6".
Proof. vm_compute. repeat split. Qed.

Example of_str_examples :
  of_str "0" = Finite (mkDecimal false 0 0) /\
  of_str " 1_000.50 " = Finite (mkDecimal false 100050 (-2)) /\
  of_str "-1.5" = Finite (mkDecimal true 15 (-1)) /\
  of_str "1E+3" = Finite (mkDecimal false 1 3) /\
  of_str "0E-7" = Finite (mkDecimal false 0 (-7)) /\
  of_str ".5" = Finite (mkDecimal false 5 (-1)) /\
  of_str "5." = Finite (mkDecimal false 5 0) /\
  of_str "." = Invalid /\
  of_str "abc" = Invalid /\
  of_str "1e" = Invalid /\
  of_str "-Infinity" = Special /\
  of_str "NaN" = Special /\
  of_str "" = Invalid.
Proof. vm_compute. repeat split. Qed.

(** ** Reading back what [str] printed *)

Lemma is_digit_plain c : is_digit c = true -> plain c.
Proof.
  unfold is_digit, plain, is_space. intros H.
  apply andb_true_iff in H as [H1 H2].
  apply Nat.leb_le in H1, H2. split.
  - repeat (apply orb_false_iff; split); try apply andb_false_iff.
    + right. apply Nat.leb_gt. lia.
    + apply Nat.eqb_neq. lia.
    + right. apply Nat.leb_gt. lia.
  - apply Ascii.eqb_neq. intros ->.
    change (nat_of_ascii "_") with 95%nat in H2. lia.
Qed.

Lemma lstrip_plain l : Forall plain l -> lstrip l = l.
Proof. destruct 1 as [|c l [Hc _] _]; cbn; [reflexivity|]. now rewrite Hc. Qed.

Lemma strip_plain l : Forall plain l -> strip l = l.
Proof.
  intros H. unfold strip. rewrite (lstrip_plain l H).
  rewrite lstrip_plain by (apply Forall_rev, H). apply rev_involutive.
Qed.

Lemma remove_underscores_plain l : Forall plain l -> remove_underscores l = l.
Proof.
  unfold remove_underscores.
  induction 1 as [|c l [_ Hc] _ IH]; cbn; [reflexivity|]. rewrite Hc. cbn. now rewrite IH.
Qed.

Lemma digits_of_uint_all (u : Decimal.uint) :
  Forall (fun c => is_digit c = true)
    (String.list_ascii_of_string (NilEmpty.string_of_uint u)).
Proof. induction u; cbn; constructor; auto. Qed.

Lemma digits_all n : Forall (fun c => is_digit c = true) (digits n).
Proof. apply digits_of_uint_all. Qed.

Lemma digits_nonempty n : digits n <> [].
Proof.
  unfold digits. destruct n as [|p]; cbn; [discriminate|].
  pose proof (Unsigned.to_uint_nonnil p) as Hn.
  destruct (Pos.to_uint p); [contradiction|..]; discriminate.
Qed.

Lemma zeros_all n : Forall (fun c => is_digit c = true) (zeros n).
Proof. unfold zeros. apply Forall_replicate. reflexivity. Qed.

Lemma digits_plain l : Forall (fun c => is_digit c = true) l -> Forall plain l.
Proof. intros H. eapply Forall_impl; [exact H|exact is_digit_plain]. Qed.

Lemma span_digits_app ds rest :
  Forall (fun c => is_digit c = true) ds -> stops rest ->
  span_digits (ds ++ rest) = (ds, rest).
Proof.
  induction 1 as [|c ds Hc _ IH]; intros Hrest; cbn.
  - destruct rest as [|c r]; cbn in *; [reflexivity|now rewrite Hrest].
  - rewrite Hc, (IH Hrest). reflexivity.
Qed.

Lemma span_digits_all ds :
  Forall (fun c => is_digit c = true) ds -> span_digits ds = (ds, []).
Proof. intros H. rewrite <- (app_nil_r ds) at 1. now apply span_digits_app. Qed.

Lemma number_of_digits_digits n : number_of_digits (digits n) = n.
Proof.
  unfold number_of_digits, digits.
  rewrite String.string_of_list_ascii_of_string, NilEmpty.usu.
  apply DecimalN.Unsigned.of_to.
Qed.

Lemma N_of_uint_D0 u : N.of_uint (Decimal.D0 u) = N.of_uint u.
Proof. reflexivity. Qed.

Lemma number_of_digits_zero_cons l :
  number_of_digits ("0"%char :: l) = number_of_digits l.
Proof.
  unfold number_of_digits. cbn [String.string_of_list_ascii NilEmpty.uint_of_string].
  destruct (NilEmpty.uint_of_string (String.string_of_list_ascii l)); reflexivity.
Qed.

Lemma number_of_digits_zeros k l :
  number_of_digits (zeros k ++ l) = number_of_digits l.
Proof.
  induction k as [|k IH]; [reflexivity|].
  change (zeros (S k) ++ l) with ("0"%char :: (zeros k ++ l)).
  now rewrite number_of_digits_zero_cons.
Qed.

Lemma length_zeros k : length (zeros k) = k.
Proof. apply length_replicate. Qed.

Lemma parse_exponent_signed z :
  parse_exponent ("E"%char :: format_signed z) = Some z.
Proof.
  unfold format_signed, parse_exponent.
  change (Ascii.eqb (lower "E") "e") with true. cbv iota.
  pose proof (digits_nonempty (Z.abs_N z)) as Hne.
  pose proof (number_of_digits_digits (Z.abs_N z)) as Hnum.
  pose proof (span_digits_all _ (digits_all (Z.abs_N z))) as Hspan.
  destruct (Z.ltb_spec z 0) as [Hneg|Hpos]; cbn [parse_sign].
  - rewrite Ascii.eqb_refl, Hspan.
    destruct (digits (Z.abs_N z)) as [|c r]; [contradiction|].
    rewrite Hnum. f_equal. lia.
  - change (Ascii.eqb "+" "-") with false. rewrite Ascii.eqb_refl, Hspan.
    destruct (digits (Z.abs_N z)) as [|c r]; [contradiction|].
    rewrite Hnum. f_equal. lia.
Qed.

Lemma exponent_tail_parse tail e : exponent_tail tail e -> parse_exponent tail = Some e.
Proof.
  intros [[-> ->] | (z & -> & ->)]; [reflexivity | apply parse_exponent_signed].
Qed.

Lemma exponent_tail_stops tail e : exponent_tail tail e -> stops tail.
Proof. intros [[-> _] | (z & -> & _)]; reflexivity. Qed.

Lemma exponent_tail_no_dot tail e c r :
  exponent_tail tail e -> tail = c :: r -> Ascii.eqb c "." = false.
Proof. intros [[-> _] | (z & -> & _)]; [discriminate | intros [= <- _]; reflexivity]. Qed.

Lemma parse_sign_number neg c l :
  is_digit c = true -> parse_sign (sign_chars neg ++ c :: l) = (neg, c :: l).
Proof.
  intros Hc. destruct neg; cbn; [reflexivity|].
  destruct (Ascii.eqb_spec c "-") as [->|_]; [discriminate|].
  destruct (Ascii.eqb_spec c "+") as [->|_]; [discriminate|]. reflexivity.
Qed.

Lemma parse_chars_plain_number neg c ip tail e :
  Forall (fun x => is_digit x = true) (c :: ip) ->
  exponent_tail tail e ->
  parse_chars (sign_chars neg ++ (c :: ip) ++ tail) =
    Finite (mkDecimal neg (number_of_digits (c :: ip)) e).
Proof.
  intros Hip Htail. unfold parse_chars.
  pose proof (Forall_inv Hip) as Hc. cbn beta in Hc.
  change ((c :: ip) ++ tail) with (c :: (ip ++ tail)).
  rewrite (parse_sign_number neg c _ Hc).
  change (c :: (ip ++ tail)) with ((c :: ip) ++ tail).
  rewrite (span_digits_app _ _ Hip (exponent_tail_stops _ _ Htail)).
  destruct tail as [|t r] eqn:Ht.
  - rewrite app_nil_r. cbn [app]. rewrite (exponent_tail_parse _ _ Htail).
    cbn [length]. now rewrite Z.sub_0_r.
  - rewrite (exponent_tail_no_dot _ _ _ _ Htail eq_refl). rewrite app_nil_r. cbn [app].
    rewrite (exponent_tail_parse _ _ Htail). cbn [length]. now rewrite Z.sub_0_r.
Qed.

Lemma parse_chars_fraction neg c ip fp tail e :
  Forall (fun x => is_digit x = true) (c :: ip) ->
  Forall (fun x => is_digit x = true) fp ->
  exponent_tail tail e ->
  parse_chars (sign_chars neg ++ (c :: ip) ++ ("."%char :: fp) ++ tail) =
    Finite (mkDecimal neg (number_of_digits ((c :: ip) ++ fp)) (e - Z.of_nat (length fp))).
Proof.
  intros Hip Hfp Htail. unfold parse_chars.
  pose proof (Forall_inv Hip) as Hc. cbn beta in Hc.
  change ((c :: ip) ++ ("."%char :: fp) ++ tail)
    with (c :: (ip ++ ("."%char :: fp) ++ tail)).
  rewrite (parse_sign_number neg c _ Hc).
  change (c :: (ip ++ ("."%char :: fp) ++ tail))
    with ((c :: ip) ++ ("."%char :: (fp ++ tail))).
  rewrite (span_digits_app _ _ Hip) by reflexivity.
  rewrite Ascii.eqb_refl.
  rewrite (span_digits_app _ _ Hfp (exponent_tail_stops _ _ Htail)).
  cbn [app]. rewrite (exponent_tail_parse _ _ Htail). reflexivity.
Qed.

Lemma sign_chars_plain neg : Forall plain (sign_chars neg).
Proof. destruct neg; repeat constructor. Qed.

Lemma format_signed_plain z : Forall plain (format_signed z).
Proof.
  unfold format_signed. constructor.
  - destruct (z <? 0); split; reflexivity.
  - apply digits_plain, digits_all.
Qed.

Lemma exponent_tail_plain tail e : exponent_tail tail e -> Forall plain tail.
Proof.
  intros [[-> _] | (z & -> & _)]; [constructor|].
  constructor; [split; reflexivity | apply format_signed_plain].
Qed.

(** Parsing text that needs no stripping. *)
Lemma of_str_plain l :
  Forall plain l -> of_str (String.string_of_list_ascii l) = parse_chars l.
Proof.
  intros H. unfold of_str. rewrite String.list_ascii_of_string_of_list_ascii.
  now rewrite (strip_plain l H), (remove_underscores_plain l H).
Qed.

(** [Decimal(str(d))] is [d] again, component by component. *)
Theorem of_str_str (d : Decimal) : of_str (str d) = Finite d.
Proof.
  destruct d as [neg c ex]. unfold str, str_chars.
  cbn [sign coefficient exponent].
  pose proof (digits_all c) as Hall. pose proof (digits_nonempty c) as Hne.
  pose proof (number_of_digits_digits c) as Hnum.
  set (ds := digits c) in *. set (len := Z.of_nat (length ds)).
  assert (1 <= len) as Hlen by (subst len; destruct ds; [contradiction|cbn; lia]).
  set (leftdigits := ex + len).
  set (dotplace := if (ex <=? 0) && (-6 <? leftdigits) then leftdigits else 1).
  fold (sign_chars neg).
  assert ((dotplace = leftdigits /\ ex <= 0 /\ -6 < leftdigits) \/
          (dotplace = 1 /\ (0 < ex \/ leftdigits <= -6))) as Hdot.
  { subst dotplace. destruct (Z.leb_spec ex 0); destruct (Z.ltb_spec (-6) leftdigits);
      cbn [andb]; lia. }
  clearbody dotplace.
  assert (exponent_tail
            (if leftdigits =? dotplace then []
             else "E"%char :: format_signed (leftdigits - dotplace))
            (leftdigits - dotplace)) as Htail.
  { destruct (Z.eqb_spec leftdigits dotplace) as [Heq|Hneq].
    - left. split; [reflexivity|lia].
    - right. eexists. split; reflexivity. }
  set (tail := if leftdigits =? dotplace then [] else _) in *.
  destruct (Z.leb_spec dotplace 0) as [Hd0|Hd0].
  - (* 0.000ddd *)
    rewrite of_str_plain.
    2:{ apply Forall_app; split; [apply sign_chars_plain|].
        apply Forall_app; split; [repeat constructor|].
        apply Forall_app; split; [|exact (exponent_tail_plain _ _ Htail)].
        constructor; [split; reflexivity|].
        apply Forall_app; split; apply digits_plain; [apply zeros_all|exact Hall]. }
    rewrite (parse_chars_fraction neg "0" [] _ tail _ ltac:(repeat constructor)
               ltac:(apply Forall_app; split; [apply zeros_all|exact Hall]) Htail).
    cbn [app]. rewrite number_of_digits_zero_cons, number_of_digits_zeros, Hnum.
    rewrite length_app, length_zeros. f_equal. f_equal.
    subst leftdigits len. lia.
  - destruct (Z.leb_spec len dotplace) as [Hd1|Hd1].
    + (* ddd000 *)
      assert (dotplace = len) as Hdp by (subst leftdigits; lia).
      cbv beta iota. rewrite Hdp, Z.sub_diag.
      change (zeros (Z.to_nat 0)) with (@nil ascii). rewrite app_nil_r. cbn [app].
      rewrite of_str_plain.
      2:{ apply Forall_app; split; [apply sign_chars_plain|].
          apply Forall_app; split;
            [apply digits_plain, Hall|exact (exponent_tail_plain _ _ Htail)]. }
      destruct ds as [|c0 r0] eqn:Hds; [contradiction|].
      rewrite (parse_chars_plain_number neg c0 r0 tail _ Hall Htail).
      rewrite Hnum. f_equal. f_equal. subst leftdigits. lia.
    + (* d.ddd *)
      rewrite of_str_plain.
      2:{ apply Forall_app; split; [apply sign_chars_plain|].
          apply Forall_app; split; [apply digits_plain, Forall_take, Hall|].
          apply Forall_app; split; [|exact (exponent_tail_plain _ _ Htail)].
          constructor; [split; reflexivity|apply digits_plain, Forall_drop, Hall]. }
      destruct (take (Z.to_nat dotplace) ds) as [|c0 r0] eqn:Htake.
      { apply (f_equal length) in Htake. rewrite length_take in Htake.
        cbn in Htake. subst len. lia. }
      assert (Forall (fun x => is_digit x = true) (c0 :: r0)) as Hip
        by (rewrite <- Htake; apply Forall_take, Hall).
      rewrite (parse_chars_fraction neg c0 r0 _ tail _ Hip
                 ltac:(apply Forall_drop, Hall) Htail).
      rewrite <- Htake, take_drop, Hnum, length_drop. f_equal. f_equal.
      subst leftdigits len. lia.
Qed.

Lemma str_int_decimal z : str_int z = str (mkDecimal (z <? 0) (Z.abs_N z) 0).
Proof.
  unfold str_int, str, str_chars. cbn [sign coefficient exponent]. f_equal.
  pose proof (digits_nonempty (Z.abs_N z)) as Hne.
  set (ds := digits (Z.abs_N z)) in *. set (len := Z.of_nat (length ds)).
  assert (1 <= len) as Hlen by (subst len; destruct ds; [contradiction|cbn; lia]).
  rewrite Z.add_0_l.
  replace ((0 <=? 0) && (-6 <? len)) with true
    by (symmetry; apply andb_true_iff; split; [reflexivity|apply Z.ltb_lt; lia]).
  replace (len <=? 0) with false by (symmetry; apply Z.leb_gt; lia).
  rewrite Z.leb_refl, Z.eqb_refl, Z.sub_diag.
  change (zeros (Z.to_nat 0)) with (@nil ascii). now rewrite !app_nil_r.
Qed.

(** [Decimal(str(z))] for an [int] is exact. *)
Lemma of_str_str_int z : of_str (str_int z) = Finite (mkDecimal (z <? 0) (Z.abs_N z) 0).
Proof. rewrite str_int_decimal. apply of_str_str. Qed.

End PyDecimalFacts.

Module BidFacts.
Import PyDecimal BidModel.

(** The code's [valid_transitions] dictionary and the table of the
    specification allow the same pairs. *)
Lemma valid_transitions_table (old new : BidStatus) :
  new ∈ valid_transitions old <-> (old, new) ∈ spec_transition_table.
Proof.
  assert (bool_decide (new ∈ valid_transitions old) =
          bool_decide ((old, new) ∈ spec_transition_table)) as Hb
    by (destruct old, new; vm_compute; reflexivity).
  rewrite <- (bool_decide_eq_true (new ∈ valid_transitions old)), Hb.
  apply bool_decide_eq_true.
Qed.

(** C6.  [transition_to] raises [InvalidBidDataException] exactly for the
    pairs outside the table; for a pair of the table it returns a new
    object whose status is the requested one and whose other fields are
    those of the original, and every object of the store, the original
    included, is what it was. *)
Theorem transition_to_follows_table :
  forall (h : Store) (self : Ref) (b : BidNotice) (new_status : BidStatus),
    h !! self = Some b ->
    ((exists msg fld val,
        transition_to h self new_status =
          Some (Raise (InvalidBidDataException msg fld val))) <->
     (status b, new_status) ∉ spec_transition_table) /\
    ((status b, new_status) ∈ spec_transition_table ->
     exists r h',
       transition_to h self new_status = Some (Return (r, h')) /\
       h' !! r = Some (with_status b new_status) /\
       status (with_status b new_status) = new_status /\
       r <> self /\
       (forall r0 b0, h !! r0 = Some b0 -> h' !! r0 = Some b0)).
Proof.
  intros h self b new_status Hself. unfold transition_to. rewrite Hself. cbn.
  split.
  - case_bool_decide as Hin; rewrite valid_transitions_table in Hin.
    + split; [intros (? & ? & ? & [=]) | intros Hn; contradiction].
    + split; [intros _; exact Hin | intros _; eauto].
  - intros Hin. rewrite bool_decide_eq_true_2 by (apply valid_transitions_table, Hin).
    unfold alloc. eexists _, _. split; [reflexivity|].
    pose proof (lookup_lt_Some _ _ _ Hself) as Hlt. repeat split.
    + rewrite lookup_app_r by lia. now rewrite Nat.sub_diag.
    + lia.
    + intros r0 b0 H0. rewrite lookup_app_l; [exact H0|].
      apply (lookup_lt_Some _ _ _ H0).
Qed.

Lemma transition_to_follows_table_witness :
  exists r h',
    transition_to [sample_notice] 0%nat CLOSED = Some (Return (r, h')) /\
    h' !! r = Some (with_status sample_notice CLOSED) /\
    status (with_status sample_notice CLOSED) = CLOSED /\
    r <> 0%nat /\
    (forall r0 b0, [sample_notice] !! r0 = Some b0 -> h' !! r0 = Some b0).
Proof.
  apply (proj2 (transition_to_follows_table [sample_notice] 0%nat sample_notice CLOSED
                  eq_refl)).
  apply valid_transitions_table. vm_compute. left.
Defined.

(** What the price validator does with each kind of argument. *)
Lemma convert_to_decimal_exact v :
  exact_price v = true ->
  convert_to_decimal v = Return (option_map Finite (price_value v)).
Proof.
  destruct v; try discriminate; intros _; cbn; try reflexivity.
  rewrite PyDecimalFacts.of_str_str_int. reflexivity.
Qed.

Lemma convert_to_decimal_cases v :
  (price_unreadable v /\
   convert_to_decimal v =
     Raise (InvalidBidDataException ("Invalid price value: " +:+ price_text v)
              (Some "price") (Some (price_text v)))) \/
  (~ price_unreadable v /\ exists p, convert_to_decimal v = Return p).
Proof.
  destruct v; cbn; try (right; split; [tauto|eauto]; fail);
    match goal with |- context [of_str ?t] => destruct (of_str t) eqn:Hp end;
    try (left; split; [reflexivity|reflexivity]);
    right; (split; [discriminate|eauto]).
Qed.




Example get_price_display_examples :
  get_price_display (priced (mkDecimal false 120000000 0)) = "1억 2,000만원" /\
  get_price_display (priced (mkDecimal false 300000000 0)) = "3억원" /\
  get_price_display (priced (mkDecimal false 12345678 0)) = "1,234만원" /\
  get_price_display (priced (mkDecimal false 999999 (-2))) = "9,999원" /\
  get_price_display (priced (mkDecimal true 1234567 0)) = "-1,234,567원" /\
  get_price_display (priced (mkDecimal false 5 9)) = "50억원" /\
  get_price_display (priced (mkDecimal false 123456789012345 0)) = "1234567억 8,901만원" /\
  get_price_display (priced (mkDecimal false 0 0)) = "0원".
Proof. vm_compute. repeat split. Qed.

(** X9.  From 10,000 won on,
    [get_price_display] shows the price in units of 만 (10,000 won) and
    drops the rest: two notices whose estimated prices have the same
    whole number of 만 are displayed alike, whatever the remaining won
    and the digits after the decimal point. *)
Theorem price_display_drops_what_is_below_man :
  forall (b1 b2 : BidNotice) (d1 d2 : Decimal),
    estimated_price b1 = Some d1 -> estimated_price b2 = Some d2 ->
    10000 <= to_int d1 ->
    to_int d1 / 10000 = to_int d2 / 10000 ->
    get_price_display b1 = get_price_display b2.
Proof.
  intros b1 b2 d1 d2 H1 H2 Hbig Hsame. unfold get_price_display. rewrite H1, H2. cbn zeta.
  set (p1 := to_int d1) in *. set (p2 := to_int d2) in *.
  assert (forall p, (100000000 <=? p) = (10000 <=? p / 10000)) as Heok.
  { intros p. destruct (Z.leb_spec 100000000 p), (Z.leb_spec 10000 (p / 10000));
      try reflexivity; exfalso.
    - assert (10000 <= p / 10000) by (apply Z.div_le_lower_bound; lia). lia.
    - assert (p / 10000 < 10000) by (apply Z.div_lt_upper_bound; lia). lia. }
  assert (forall p, p / 100000000 = p / 10000 / 10000) as Hdiv.
  { intros p. rewrite Z.div_div by lia. reflexivity. }
  assert (forall p, p mod 100000000 / 10000 = (p / 10000) mod 10000) as Hmod.
  { intros p. change 100000000 with (10000 * 10000).
    rewrite Z.rem_mul_r by lia.
    rewrite (Z.mul_comm 10000 ((p / 10000) mod 10000)), Z.div_add by lia.
    rewrite (Z.div_small (p mod 10000)) by (apply Z.mod_pos_bound; lia). lia. }
  assert (10000 <= p2) as Hbig2.
  { destruct (Z.le_gt_cases 10000 p2) as [|Hlt]; [assumption|exfalso].
    assert (p2 / 10000 < 1) by (apply Z.div_lt_upper_bound; lia).
    assert (1 <= p1 / 10000) by (apply Z.div_le_lower_bound; lia). lia. }
  rewrite (Heok p1), (Heok p2), !Hdiv, !Hmod, <- Hsame.
  destruct (10000 <=? p1 / 10000); [reflexivity|].
  rewrite (proj2 (Z.leb_le 10000 p1) Hbig), (proj2 (Z.leb_le 10000 p2) Hbig2).
  reflexivity.
Qed.

Lemma price_display_drops_what_is_below_man_witness :
  get_price_display (priced (mkDecimal false 120000000 0)) =
  get_price_display (priced (mkDecimal false 1200099999 (-1))).
Proof.
  apply (price_display_drops_what_is_below_man _ _ (mkDecimal false 120000000 0)
           (mkDecimal false 1200099999 (-1))); try reflexivity.
  vm_compute. discriminate.
Defined.

Lemma BidNotice_new_status args now b :
  BidNotice_new args now = Return b -> status b = default UNKNOWN (arg_status args).
Proof.
  unfold BidNotice_new.
  destruct (convert_to_decimal (arg_estimated_price args)) as [ep|]; [|discriminate].
  destruct (convert_to_decimal (arg_base_price args)) as [bp|]; [|discriminate].
  destruct (required "bid_notice_id" (arg_bid_notice_id args)),
    (required "title" (arg_title args)),
    (validate_decimal_field "estimated_price" ep),
    (validate_decimal_field "base_price" bp); try discriminate.
  intros [= <-]. reflexivity.
Qed.

(** X10.  A notice constructed without a
    [status] argument has the default status [UNKNOWN], which has no
    entry in the table of [transition_to]: every transition of such a
    notice, to whatever status, raises [InvalidBidDataException]. *)
Theorem default_status_admits_no_transition :
  forall (args : BidNoticeArgs) (now : datetime) (b : BidNotice)
         (h : Store) (self : Ref) (new_status : BidStatus),
    BidNotice_new args now = Return b ->
    arg_status args = None ->
    h !! self = Some b ->
    status b = UNKNOWN /\
    transition_to h self new_status =
      Some (Raise (InvalidBidDataException
                     ("Invalid status transition: 알수없음 -> " +:+ BidStatus_value new_status)
                     (Some "status") (Some (BidStatus_value new_status)))).
Proof.
  intros args now b h self new_status Hnew Hdef Hself.
  pose proof (BidNotice_new_status _ _ _ Hnew) as Hst. rewrite Hdef in Hst. cbn in Hst.
  split; [exact Hst|]. unfold transition_to. rewrite Hself. cbn. rewrite Hst. cbn.
  reflexivity.
Qed.

Lemma default_status_admits_no_transition_witness :
  transition_to [mkBidNotice "" "t" OTHER UNKNOWN None None None None
                   (Some (mkDecimal true 5 0)) (Some (mkDecimal true 15 (-1))) None
                   "2024-01-15T09:00:00"] 0%nat OPEN =
    Some (Raise (InvalidBidDataException
                   ("Invalid status transition: 알수없음 -> " +:+ BidStatus_value OPEN)
                   (Some "status") (Some (BidStatus_value OPEN)))).
Proof.
  apply (proj2 (default_status_admits_no_transition lax_args "2024-01-15T09:00:00" _
                  [_] 0%nat OPEN ltac:(vm_compute; reflexivity) eq_refl eq_refl)).
Defined.


End BidFacts.

Module JsonStorageFacts.
Import PyDecimal BidModel JsonStorageModel.

Lemma next_io_view st : view (snd (next_io st)) = view st.
Proof. unfold next_io. destruct (io_script st); reflexivity. Qed.

Lemma flush_view st : view (snd (flush st)) = view st.
Proof.
  unfold flush. destruct (_buffer st); [reflexivity|].
  destruct (existing_ids (_load_raw st)); [|reflexivity].
  pose proof (next_io_view st) as Hio.
  destruct (next_io st) as [[] st1]; cbn in *; exact Hio.
Qed.

Lemma cache_tracks_view st st' : view st' = view st -> cache_tracks st -> cache_tracks st'.
Proof. unfold view, cache_tracks. intros [= -> -> -> _ _ _] H. exact H. Qed.

Lemma cache_tracks_init fname individual strict dir io :
  cache_tracks (JsonStorage_init fname individual strict dir io).
Proof. intros bid_id. cbn. rewrite elem_of_nil. tauto. Qed.

Lemma cache_tracks_stored st bid_id :
  cache_tracks st ->
  cache_tracks (set_id_cache (note_taken st bid_id) ({[bid_id]} ∪ _id_cache st)).
Proof.
  intros H x. cbn. rewrite elem_of_union, elem_of_singleton, elem_of_app, (H x).
  rewrite list_elem_of_singleton. tauto.
Qed.

(** What a call of [save] can do to the deciding fields, with its result. *)
Lemma save_cases st bid :
  (fst (save st bid) = Return false /\ item_id bid ∈ _id_cache st /\
   raise_on_duplicate st = false /\ snd (save st bid) = st) \/
  (fst (save st bid) = Raise (DuplicateBidException (item_id bid)) /\
   item_id bid ∈ _id_cache st /\ raise_on_duplicate st = true /\ snd (save st bid) = st) \/
  ((item_id bid ∉ _id_cache st) /\
   (exists msg, fst (save st bid) = Raise (RepositoryException msg)) /\
   individual_files st = true /\ view (snd (save st bid)) = view st) \/
  ((item_id bid ∉ _id_cache st) /\
   (fst (save st bid) = Return true \/
    (individual_files st = false /\
     exists msg, fst (save st bid) = Raise (RepositoryException msg))) /\
   exists st1, view st1 = view st /\
     view (snd (save st bid)) =
       view (set_id_cache (note_taken st1 (item_id bid)) ({[item_id bid]} ∪ _id_cache st1))).
Proof.
  unfold save, exists_. case_bool_decide as Hin.
  - destruct (raise_on_duplicate st) eqn:Hs; [right; left | left]; cbn; auto.
  - destruct (individual_files st) eqn:Hind.
    + unfold _save_individual. pose proof (next_io_view st) as Hio.
      destruct (next_io st) as [[] st1]; cbn in Hio |- *.
      * right; right; right. split; [exact Hin|]. split; [left; reflexivity|].
        exists st1. split; [exact Hio|].
        destruct (has_slash (item_id bid)); reflexivity.
      * right; right; left. repeat split; eauto.
      * right; right; left. repeat split; eauto.
        destruct (has_slash (item_id bid)); exact Hio.
    + right; right; right. split; [exact Hin|].
      set (st2 := set_id_cache _ _).
      pose proof (flush_view st2) as Hfl.
      assert (view st2 =
              view (set_id_cache (note_taken st (item_id bid))
                      ({[item_id bid]} ∪ _id_cache st))) as Hst2 by reflexivity.
      destruct (10 <=? length (_buffer st2))%nat.
      * destruct (flush st2) as [[b|e] st3] eqn:Hf; cbn in Hfl |- *.
        -- split; [left; reflexivity|]. exists st. split; [reflexivity|]. congruence.
        -- split.
           ++ right. split; [reflexivity|].
              unfold flush in Hf. destruct (_buffer st2); [discriminate|].
              destruct (existing_ids (_load_raw st2)); [|simplify_eq; eauto].
              destruct (next_io st2) as [[] ?]; simplify_eq; eauto.
           ++ exists st. split; [reflexivity|]. congruence.
      * cbn. split; [left; reflexivity|]. exists st. split; [reflexivity|exact Hst2].
Qed.

Lemma cache_tracks_save st bid : cache_tracks st -> cache_tracks (snd (save st bid)).
Proof.
  intros H. destruct (save_cases st bid)
    as [(_ & _ & _ & ->) | [(_ & _ & _ & ->) | [(_ & _ & _ & Hv) | (_ & _ & st1 & Hv1 & Hv)]]];
    try exact H.
  - exact (cache_tracks_view _ _ Hv H).
  - apply (cache_tracks_view _ _ Hv). apply cache_tracks_stored.
    exact (cache_tracks_view _ _ Hv1 H).
Qed.

Lemma cache_tracks_save_batch bids : forall st count,
  cache_tracks st -> cache_tracks (snd (save_batch_loop st bids count)).
Proof.
  induction bids as [|bid rest IH]; intros st count H; cbn; [exact H|].
  pose proof (cache_tracks_save st bid H) as Hs.
  destruct (save st bid) as [[[]|[]] st1]; cbn in Hs |- *; auto.
Qed.

Lemma cache_tracks_call st c : cache_tracks st -> cache_tracks (after_call st c).
Proof.
  intros H. destruct c; cbn.
  - apply cache_tracks_save, H.
  - apply cache_tracks_save_batch, H.
  - exact H.
  - exact (cache_tracks_view _ _ (flush_view st) H).
  - unfold close. pose proof (flush_view st) as Hv.
    destruct (flush st) as [[] st1]; exact (cache_tracks_view _ _ Hv H).
Qed.

Lemma cache_tracks_calls cs : forall st,
  cache_tracks st -> cache_tracks (after_calls st cs).
Proof.
  unfold after_calls. induction cs as [|c cs IH]; intros st H; cbn; [exact H|].
  apply IH, cache_tracks_call, H.
Qed.

Lemma settings_view st st' : view st' = view st -> settings st' = settings st.
Proof. unfold view, settings. intros [= _ -> _ -> -> ->]. reflexivity. Qed.

Lemma settings_save st bid : settings (snd (save st bid)) = settings st.
Proof.
  destruct (save_cases st bid)
    as [(_ & _ & _ & ->) | [(_ & _ & _ & ->) | [(_ & _ & _ & Hv) | (_ & _ & st1 & Hv1 & Hv)]]];
    try reflexivity.
  - exact (settings_view _ _ Hv).
  - rewrite (settings_view _ _ Hv). exact (settings_view _ _ Hv1).
Qed.

Lemma settings_save_batch bids : forall st count,
  settings (snd (save_batch_loop st bids count)) = settings st.
Proof.
  induction bids as [|bid rest IH]; intros st count; cbn; [reflexivity|].
  pose proof (settings_save st bid) as Hs.
  destruct (save st bid) as [[[]|[]] st1]; cbn in Hs |- *; rewrite ?IH; exact Hs.
Qed.

Lemma settings_call st c : settings (after_call st c) = settings st.
Proof.
  destruct c; cbn.
  - apply settings_save.
  - apply settings_save_batch.
  - reflexivity.
  - exact (settings_view _ _ (flush_view st)).
  - unfold close. pose proof (flush_view st) as Hv.
    destruct (flush st) as [[] st1]; exact (settings_view _ _ Hv).
Qed.

Lemma settings_calls cs : forall st, settings (after_calls st cs) = settings st.
Proof.
  unfold after_calls. induction cs as [|c cs IH]; intros st; cbn; [reflexivity|].
  rewrite IH. apply settings_call.
Qed.



(** ** Decimal fields on their way to and from JSON *)

Lemma model_dump_estimated_price i :
  model_dump i !! "estimated_price" =
    Some (of_option VDecimal (estimated_price (item_notice i))).
Proof. destruct i; vm_compute; reflexivity. Qed.

Lemma model_dump_base_price i :
  model_dump i !! "base_price" = Some (of_option VDecimal (base_price (item_notice i))).
Proof. destruct i; vm_compute; reflexivity. Qed.

Lemma stored_decimal (v : option Decimal) :
  json_value (to_dict_value (of_option VDecimal v)) =
    match v with Some d => JStr (str d) | None => JNull end.
Proof. destruct v; reflexivity. Qed.

Lemma _from_dict_decimal_stored name (v : option Decimal) :
  _from_dict_decimal name
    (Some (match v with Some d => JStr (str d) | None => JNull end)) = Return v.
Proof.
  destruct v as [d|]; [|reflexivity]. unfold _from_dict_decimal, json_text.
  cbn [fmap option_fmap option_map]. rewrite PyDecimalFacts.of_str_str. reflexivity.
Qed.

(** The repository path keeps every decimal, zero included: the stored
    dictionary holds the text [str(d)] and [_from_dict] reads [d] back. *)
Theorem repository_decimal_round_trip (i : Item) :
  _from_dict_decimal "estimated_price" (json_dict (_to_dict i) !! "estimated_price") =
    Return (estimated_price (item_notice i)) /\
  _from_dict_decimal "base_price" (json_dict (_to_dict i) !! "base_price") =
    Return (base_price (item_notice i)).
Proof.
  unfold json_dict, _to_dict. rewrite !lookup_fmap.
  rewrite model_dump_estimated_price, model_dump_base_price. cbn [fmap option_fmap option_map].
  rewrite !stored_decimal. split; apply _from_dict_decimal_stored.
Qed.

(** C4 at its failing input.  The JSON-mode serializer of the model maps a
    present decimal whose value is zero to [None] (JSON [null]), so the
    value does not come back; a non-zero decimal is written as [str(d)]
    and read back unchanged, and so is every decimal, zero included, on
    the repository path. *)
Theorem serialize_decimal_loses_zero :
  serialize_decimal (Some zero) = None /\
  (forall d, coefficient d = 0%N -> serialize_decimal (Some d) = None) /\
  (forall d, coefficient d <> 0%N ->
     exists text, serialize_decimal (Some d) = Some text /\ of_str text = Finite d) /\
  (forall d, _from_dict_decimal "estimated_price"
               (Some (json_value (to_dict_value (VDecimal d)))) = Return (Some d)).
Proof.
  split; [reflexivity|]. split; [|split].
  - intros d Hd. unfold serialize_decimal, truthy. now rewrite Hd.
  - intros d Hd. unfold serialize_decimal, truthy.
    rewrite (proj2 (N.eqb_neq _ _) Hd). eexists. split; [reflexivity|].
    apply PyDecimalFacts.of_str_str.
  - intros d. exact (_from_dict_decimal_stored "estimated_price" (Some d)).
Qed.

Lemma serialize_decimal_loses_zero_witness :
  serialize_decimal (Some (mkDecimal false 0 (-2))) = None /\
  exists text,
    serialize_decimal (Some (mkDecimal false 100000000 0)) = Some text /\
    of_str text = Finite (mkDecimal false 100000000 0).
Proof.
  pose proof serialize_decimal_loses_zero as (_ & Hzero & Hnonzero & _).
  split; [apply Hzero; reflexivity | apply Hnonzero; discriminate].
Defined.

Lemma to_dict_id i : _to_dict i !! "bid_notice_id" = Some (VStr (item_id i)).
Proof. destruct i; vm_compute; reflexivity. Qed.

Lemma buffered_id_to_dict i : buffered_id (_to_dict i) = JStr (item_id i).
Proof. unfold buffered_id. rewrite to_dict_id. reflexivity. Qed.

Lemma existing_id_json_dict d v :
  existing_id (EDict (json_dict d)) = Some v -> buffered_id d = v.
Proof.
  unfold existing_id, buffered_id, json_dict. rewrite lookup_fmap.
  destruct (d !! "bid_notice_id") as [p|]; cbn; [|congruence].
  destruct (json_value p); congruence.
Qed.

Lemma existing_id_stored_form i : existing_id (stored_form i) = Some (JStr (item_id i)).
Proof.
  unfold stored_form, existing_id, json_dict. rewrite lookup_fmap, to_dict_id. reflexivity.
Qed.

Lemma existing_ids_elem l ids v :
  existing_ids l = Some ids -> v ∈ ids -> exists e, e ∈ l /\ existing_id e = Some v.
Proof.
  unfold existing_ids. rewrite mapM_Some. intros H. induction H as [|e y l k He _ IH].
  - intros Hin. apply elem_of_nil in Hin. contradiction.
  - rewrite elem_of_cons. intros [->|Hin].
    + exists e. split; [left|exact He].
    + destruct (IH Hin) as (e' & He' & Hv). exists e'. split; [right; exact He'|exact Hv].
Qed.

Lemma existing_ids_has l ids e v :
  existing_ids l = Some ids -> e ∈ l -> existing_id e = Some v -> v ∈ ids.
Proof.
  unfold existing_ids. rewrite mapM_Some. intros H. induction H as [|e0 y l k He _ IH].
  - intros Hin. apply elem_of_nil in Hin. contradiction.
  - rewrite elem_of_cons. intros [->|Hin] Hv.
    + rewrite He in Hv. injection Hv as ->. left.
    + right. exact (IH Hin Hv).
Qed.

Lemma existing_ids_app l1 l2 ids :
  existing_ids (l1 ++ l2) = Some ids ->
  exists ids1 ids2, existing_ids l1 = Some ids1 /\ existing_ids l2 = Some ids2 /\
                    ids = ids1 ++ ids2.
Proof.
  unfold existing_ids. rewrite mapM_Some. intros H.
  apply Forall2_app_inv_l in H as (k1 & k2 & H1 & H2 & ->).
  exists k1, k2. rewrite !mapM_Some. auto.
Qed.

(** What [flush] does when its write succeeds. *)
Lemma flush_quiet st :
  quiet st ->
  (_buffer st = [] /\ flush st = (Return true, st)) \/
  (file_ids st = None /\ exists msg, flush st = (Raise (RepositoryException msg), st)) \/
  (exists ids,
     file_ids st = Some ids /\
     flush st =
       (Return true,
        set_buffer
          (set_directory st
             (<[filename st :=
                  FileArray
                    (_load_single_raw st ++
                     ((fun d => EDict (json_dict d)) <$>
                      List.filter (fun d => negb (bool_decide (buffered_id d ∈ ids)))
                        (_buffer st)))]> (directory st))) [])).
Proof.
  intros [Hind Hio]. unfold flush, file_ids, _load_raw. rewrite Hind.
  destruct (_buffer st) as [|d0 rest]; [left; auto|right].
  destruct (existing_ids (_load_single_raw st)) as [ids|]; [right|left; eauto].
  exists ids. split; [reflexivity|]. unfold next_io. rewrite Hio. reflexivity.
Qed.

Lemma load_single_raw_written st all b :
  _load_single_raw
    (set_buffer (set_directory st (<[filename st := FileArray all]> (directory st))) b) = all.
Proof. unfold _load_single_raw. cbn. rewrite lookup_insert_eq. reflexivity. Qed.

Lemma quiet_flush st : quiet st -> quiet (snd (flush st)).
Proof.
  intros Hq. destruct (flush_quiet st Hq) as [[_ ->] | [(_ & msg & ->) | (ids & _ & ->)]];
    exact Hq.
Qed.

Lemma quiet_accept st bid : quiet st -> quiet (accept st bid).
Proof. intros [Hind Hio]. split; assumption. Qed.

(** [save] in a quiet repository: a known id changes nothing; a new item
    is accepted, and the buffer flushed when it holds ten items. *)
Lemma save_quiet st bid :
  quiet st ->
  (item_id bid ∈ _id_cache st /\ snd (save st bid) = st /\
   fst (save st bid) <> Return true) \/
  ((item_id bid ∉ _id_cache st) /\
   ((save st bid = (Return true, accept st bid)) \/
    (snd (save st bid) = snd (flush (accept st bid)) /\
     (fst (save st bid) = Return true <-> exists b, fst (flush (accept st bid)) = Return b)))).
Proof.
  intros [Hind Hio]. unfold save, exists_. case_bool_decide as Hin.
  - left. split; [exact Hin|]. destruct (raise_on_duplicate st); cbn; split; congruence.
  - right. split; [exact Hin|]. rewrite Hind. fold (accept st bid).
    destruct (10 <=? length (_buffer (accept st bid)))%nat; [right|left; reflexivity].
    destruct (flush (accept st bid)) as [[b|e] st3]; cbn; split; try reflexivity.
    + split; eauto.
    + split; [discriminate|intros [b [=]]].
Qed.

Lemma known_init x fname strict dir :
  x <> "" -> known (JsonStorage_init fname false strict dir []) x.
Proof.
  intros x_not_empty. split; [|intros d Hd; apply elem_of_nil in Hd; contradiction].
  unfold file_ids. cbn. intros ids Hids Hin. unfold _load_id_cache, _load_raw. cbn.
  change (_load_single_raw (mkJsonStorage fname false strict [] ∅ dir [] ∅ []))
    with (_load_single_raw (JsonStorage_init fname false strict dir [])).
  set (l := _load_single_raw _) in *.
  assert (existsb is_id_error (cache_entry <$> l) = false) as ->.
  { apply not_true_iff_false. intros Hex. apply existsb_exists in Hex as (en & Hen & Herr).
    apply list_elem_of_In, list_elem_of_fmap in Hen as (e & -> & He).
    assert (is_Some (existing_id e)) as [v Hv].
    { unfold existing_ids in Hids. assert (is_Some (mapM existing_id l)) as Hs by eauto.
      rewrite mapM_is_Some, Forall_forall in Hs. exact (Hs e He). }
    destruct e as [d|]; [|discriminate]. cbn in Hv, Herr.
    destruct (d !! "bid_notice_id") as [[|b|z|s|[|a r]]|]; try discriminate.
    - destruct b; discriminate.
    - destruct (z =? 0); discriminate.
    - destruct (String.eqb s ""); discriminate. }
  destruct (existing_ids_elem _ _ _ Hids Hin) as (e & He & Hv).
  unfold id_strings. rewrite elem_of_list_to_set, list_elem_of_omap.
  exists (cache_entry e). split; [apply list_elem_of_fmap; eauto|].
  destruct e as [d|]; [|discriminate]. cbn in Hv |- *.
  destruct (d !! "bid_notice_id") as [[|b|z|s|a]|]; try discriminate.
  injection Hv as ->. rewrite (proj2 (String.eqb_neq x "") x_not_empty). reflexivity.
Qed.

Lemma known_accept st bid x : known st x -> known (accept st bid) x.
Proof.
  intros [Hfile Hbuf]. split.
  - intros ids Hids Hin. cbn. apply elem_of_union_r. exact (Hfile ids Hids Hin).
  - intros d Hd Hx. cbn in Hd |- *. apply elem_of_app in Hd as [Hd|Hd].
    + apply elem_of_union_r. exact (Hbuf d Hd Hx).
    + apply list_elem_of_singleton in Hd as ->. rewrite buffered_id_to_dict in Hx.
      injection Hx as ->. apply elem_of_union_l, elem_of_singleton. reflexivity.
Qed.

Lemma known_flush st x : quiet st -> known st x -> known (snd (flush st)) x.
Proof.
  intros Hq Hk. destruct (flush_quiet st Hq) as [[_ ->] | [(_ & msg & ->) | (ids & Hids & ->)]];
    try exact Hk.
  destruct Hk as [Hfile Hbuf]. cbn [snd]. split.
  - unfold file_ids. rewrite load_single_raw_written. cbn.
    intros ids' Hids' Hin.
    apply existing_ids_app in Hids' as (ids1 & ids2 & H1 & H2 & ->).
    apply elem_of_app in Hin as [Hin|Hin]; [exact (Hfile ids1 H1 Hin)|].
    destruct (existing_ids_elem _ _ _ H2 Hin) as (e & He & Hv).
    apply list_elem_of_fmap in He as (d & -> & Hd).
    apply list_elem_of_In, filter_In in Hd as [Hd _]. apply list_elem_of_In in Hd.
    exact (Hbuf d Hd (existing_id_json_dict _ _ Hv)).
  - intros d Hd. apply elem_of_nil in Hd. contradiction.
Qed.

Lemma known_save st bid x :
  x <> "" -> quiet st -> known st x -> known (snd (save st bid)) x.
Proof.
  intros Hx Hq Hk.
  destruct (save_quiet st bid Hq) as [(_ & -> & _) | (_ & [-> | (-> & _)])].
  - exact Hk.
  - exact (known_accept st bid x Hk).
  - exact (known_flush _ x (quiet_accept st bid Hq) (known_accept st bid x Hk)).
Qed.

Lemma quiet_save st bid : quiet st -> quiet (snd (save st bid)).
Proof.
  intros Hq.
  destruct (save_quiet st bid Hq) as [(_ & -> & _) | (_ & [-> | (-> & _)])].
  - exact Hq.
  - exact (quiet_accept st bid Hq).
  - exact (quiet_flush _ (quiet_accept st bid Hq)).
Qed.

Lemma kept_flush st i :
  quiet st -> kept st i ->
  kept (snd (flush st)) i /\
  (forall b, fst (flush st) = Return b -> stored_form i ∈ _load_single_raw (snd (flush st))).
Proof.
  intros Hq [Hc Hk].
  destruct (flush_quiet st Hq) as [[Hb ->] | [(_ & msg & ->) | (ids & Hids & ->)]]; cbn [fst snd].
  - split; [split; assumption|]. intros _ _. destruct Hk as [[Hin _]|Hs]; [|exact Hs].
    rewrite Hb in Hin. apply elem_of_nil in Hin. contradiction.
  - split; [split; assumption|discriminate].
  - assert (stored_form i ∈
              _load_single_raw st ++
              ((fun d => EDict (json_dict d)) <$>
               List.filter (fun d => negb (bool_decide (buffered_id d ∈ ids))) (_buffer st)))
      as Hin.
    { apply elem_of_app. destruct Hk as [[Hin Hnew]|Hs]; [right|left; exact Hs].
      apply list_elem_of_fmap. exists (_to_dict i). split; [reflexivity|].
      apply list_elem_of_In, filter_In. split; [apply list_elem_of_In, Hin|].
      rewrite buffered_id_to_dict. apply negb_true_iff, bool_decide_eq_false_2.
      exact (Hnew ids Hids). }
    rewrite load_single_raw_written. split; [|intros _ _; exact Hin].
    split; [exact Hc|]. right. rewrite load_single_raw_written. exact Hin.
Qed.

Lemma kept_accept st i bid :
  kept st i -> kept (accept st bid) i.
Proof.
  intros [Hc Hk]. split; [cbn; apply elem_of_union_r, Hc|].
  destruct Hk as [[Hin Hnew]|Hs]; [left|right; exact Hs].
  split; [cbn; apply elem_of_app; left; exact Hin|exact Hnew].
Qed.

Lemma kept_save st i bid : quiet st -> kept st i -> kept (snd (save st bid)) i.
Proof.
  intros Hq Hk.
  destruct (save_quiet st bid Hq) as [(_ & -> & _) | (_ & [-> | (-> & _)])].
  - exact Hk.
  - exact (kept_accept st i bid Hk).
  - exact (proj1 (kept_flush _ i (quiet_accept st bid Hq) (kept_accept st i bid Hk))).
Qed.

Lemma kept_saved st i :
  item_id i <> "" -> quiet st -> known st (item_id i) ->
  fst (save st i) = Return true -> kept (snd (save st i)) i.
Proof.
  intros Hx Hq [Hfile _] Hr.
  assert (item_id i ∉ _id_cache st -> kept (accept st i) i) as Hacc.
  { intros Hnew. split; [cbn; apply elem_of_union_l, elem_of_singleton; reflexivity|].
    left. split; [cbn; apply elem_of_app; right; apply list_elem_of_singleton; reflexivity|].
    intros ids Hids Hin. exact (Hnew (Hfile ids Hids Hin)). }
  destruct (save_quiet st i Hq) as [(_ & _ & Hne) | (Hnew & [-> | (-> & _)])].
  - contradiction.
  - exact (Hacc Hnew).
  - exact (proj1 (kept_flush _ i (quiet_accept st i Hq) (Hacc Hnew))).
Qed.

Lemma durable_save_batch bids : forall st count,
  quiet st -> quiet (snd (save_batch_loop st bids count)) /\
  (forall x, x <> "" -> known st x -> known (snd (save_batch_loop st bids count)) x) /\
  (forall i, kept st i -> kept (snd (save_batch_loop st bids count)) i).
Proof.
  induction bids as [|bid rest IH]; intros st count Hq; cbn [save_batch_loop].
  - split; [exact Hq|]. split; auto.
  - pose proof (quiet_save st bid Hq) as Hq1.
    pose proof (fun x Hx => known_save st bid x Hx Hq) as Hk1.
    pose proof (fun i => kept_save st i bid Hq) as Hp1.
    destruct (save st bid) as [[[]|[]] st1]; cbn [fst snd] in *;
      try (split; [exact Hq1|split; [exact Hk1|exact Hp1]]).
    + destruct (IH st1 (count + 1) Hq1) as (IQ & IK & IP).
      split; [exact IQ|]. split; [intros x Hx Hk; exact (IK x Hx (Hk1 x Hx Hk))|].
      intros i Hk. exact (IP i (Hp1 i Hk)).
    + destruct (IH st1 count Hq1) as (IQ & IK & IP).
      split; [exact IQ|]. split; [intros x Hx Hk; exact (IK x Hx (Hk1 x Hx Hk))|].
      intros i Hk. exact (IP i (Hp1 i Hk)).
    + destruct (IH st1 count Hq1) as (IQ & IK & IP).
      split; [exact IQ|]. split; [intros x Hx Hk; exact (IK x Hx (Hk1 x Hx Hk))|].
      intros i Hk. exact (IP i (Hp1 i Hk)).
Qed.

Lemma durable_call st c :
  quiet st -> quiet (after_call st c) /\
  (forall x, x <> "" -> known st x -> known (after_call st c) x) /\
  (forall i, kept st i -> kept (after_call st c) i).
Proof.
  intros Hq. destruct c; cbn [after_call].
  - split; [exact (quiet_save st bid Hq)|]. split.
    + intros x Hx. apply known_save; assumption.
    + intros i. apply kept_save, Hq.
  - apply durable_save_batch, Hq.
  - split; [exact Hq|]. split; auto.
  - split; [exact (quiet_flush st Hq)|]. split.
    + intros x Hx. apply known_flush; assumption.
    + intros i Hk. apply kept_flush; assumption.
  - unfold close. pose proof (quiet_flush st Hq) as Hq1.
    pose proof (fun x => known_flush st x Hq) as Hk1.
    pose proof (fun i Hk => proj1 (kept_flush st i Hq Hk)) as Hp1.
    destruct (flush st) as [[] st1]; cbn [snd] in *;
      (split; [exact Hq1|split; [intros x _; exact (Hk1 x)|exact Hp1]]).
Qed.

Lemma durable_calls cs : forall st,
  quiet st -> quiet (after_calls st cs) /\
  (forall x, x <> "" -> known st x -> known (after_calls st cs) x) /\
  (forall i, kept st i -> kept (after_calls st cs) i).
Proof.
  unfold after_calls. induction cs as [|c cs IH]; intros st Hq; cbn [fold_left].
  - split; [exact Hq|]. split; auto.
  - destruct (durable_call st c Hq) as (Q1 & K1 & P1).
    destruct (IH (after_call st c) Q1) as (Q2 & K2 & P2).
    split; [exact Q2|]. split; [intros x Hx Hk; exact (K2 x Hx (K1 x Hx Hk))|].
    intros i Hk. exact (P2 i (P1 i Hk)).
Qed.

(** X11.  A single-file repository whose
    writes succeed, opened on any directory: when [save] returned [True]
    for an item with a non-empty id, then after any further calls, once
    [close] returns, the output file holds that item, as [_to_dict]
    rendered it, and the buffer is empty. *)
Theorem accepted_item_is_written_by_close :
  forall fname strict dir (before after : list Call) (bid : Item),
    let st := after_calls (JsonStorage_init fname false strict dir []) before in
    let st' := after_calls (snd (save st bid)) after in
    item_id bid <> "" ->
    fst (save st bid) = Return true ->
    fst (close st') = Return tt ->
    stored_form bid ∈ _load_single_raw (snd (close st')) /\
    _buffer (snd (close st')) = [].
Proof.
  intros fname strict dir before after bid st st' Hx Hsave Hclose.
  assert (quiet (JsonStorage_init fname false strict dir [])) as Hq0 by (split; reflexivity).
  destruct (durable_calls before _ Hq0) as (Hq & Hk & _). fold st in Hq, Hk.
  specialize (Hk (item_id bid) Hx (known_init _ fname strict dir Hx)).
  pose proof (kept_saved st bid Hx Hq Hk Hsave) as Hkept.
  destruct (durable_calls after _ (quiet_save st bid Hq)) as (Hq' & _ & Hp). fold st' in Hq', Hp.
  specialize (Hp bid Hkept).
  destruct (kept_flush st' bid Hq' Hp) as [_ Hwritten]. unfold close in *.
  destruct (flush_quiet st' Hq') as [[Hb Hf] | [(_ & msg & Hf) | (ids & _ & Hf)]];
    rewrite Hf in *; cbn [fst snd] in *; try discriminate.
  - split; [exact (Hwritten true eq_refl)|exact Hb].
  - split; [exact (Hwritten true eq_refl)|reflexivity].
Qed.

Lemma accepted_item_is_written_by_close_witness :
  stored_form (NoticeItem sample_notice) ∈
    _load_single_raw
      (snd (close (snd (save (JsonStorage_init "bid_notices.json" false false ∅ [])
                          (NoticeItem sample_notice))))) /\
  _buffer (snd (close (snd (save (JsonStorage_init "bid_notices.json" false false ∅ [])
                              (NoticeItem sample_notice))))) = [].
Proof.
  apply (accepted_item_is_written_by_close "bid_notices.json" false ∅ [] []
           (NoticeItem sample_notice)).
  - discriminate.
  - vm_compute. reflexivity.
  - vm_compute. reflexivity.
Defined.

(** ** Counting *)

Lemma save_result st bid :
  match fst (save st bid) with
  | Return true =>
      (item_id bid ∉ _id_cache st) /\
      _id_cache (snd (save st bid)) = {[item_id bid]} ∪ _id_cache st
  | Return false => snd (save st bid) = st
  | Raise (DuplicateBidException _) => snd (save st bid) = st
  | Raise (RepositoryException _) => True
  | Raise _ => False
  end.
Proof.
  destruct (save_cases st bid)
    as [(-> & _ & _ & Hs) | [(-> & _ & _ & Hs) |
        [(_ & (msg & ->) & _) | (Hnew & Hr & st1 & Hv1 & Hv)]]]; try exact Hs; try exact I.
  destruct Hr as [-> | (_ & msg & ->)]; [|exact I].
  split; [exact Hnew|]. unfold view in Hv, Hv1.
  injection Hv as -> _ _ _ _ _. injection Hv1 as Hc _ _ _ _ _. cbn. now rewrite Hc.
Qed.

Lemma save_batch_loop_counts bids : forall st count,
  match fst (save_batch_loop st bids count) with
  | Return n =>
      count <= n <= count + Z.of_nat (length bids) /\
      Z.of_nat (size (_id_cache (snd (save_batch_loop st bids count)))) =
        Z.of_nat (size (_id_cache st)) + (n - count)
  | Raise (RepositoryException _) => True
  | Raise _ => False
  end.
Proof.
  induction bids as [|bid rest IH]; intros st count; cbn [save_batch_loop length].
  - cbn. lia.
  - pose proof (save_result st bid) as Hs.
    destruct (save st bid) as [[[]|[]] st1]; cbn [fst snd] in Hs |- *; try exact Hs.
    + destruct Hs as [Hnew Hc]. specialize (IH st1 (count + 1)).
      destruct (fst (save_batch_loop st1 rest (count + 1))) as [n|e]; [|exact IH].
      destruct IH as [Hn Hsize]. split; [lia|]. rewrite Hsize, Hc.
      rewrite size_union by (apply disjoint_singleton_l; exact Hnew).
      rewrite size_singleton. lia.
    + subst st1. specialize (IH st count).
      destruct (fst (save_batch_loop st rest count)) as [n|e]; [|exact IH].
      destruct IH as [Hn Hsize]. split; lia.
    + subst st1. specialize (IH st count).
      destruct (fst (save_batch_loop st rest count)) as [n|e]; [|exact IH].
      destruct IH as [Hn Hsize]. split; lia.
Qed.

(** X12.  [save_batch] never raises
    [DuplicateBidException], also when the repository raises on
    duplicates: it raises [RepositoryException] or returns a count
    between 0 and the number of items given, and that count is the
    number of ids the call added to the id cache. *)
Theorem save_batch_counts_new_ids :
  forall (st : JsonStorage) (bids : list Item),
    match fst (save_batch st bids) with
    | Return n =>
        0 <= n <= Z.of_nat (length bids) /\
        Z.of_nat (size (_id_cache (snd (save_batch st bids)))) =
          Z.of_nat (size (_id_cache st)) + n
    | Raise (RepositoryException _) => True
    | Raise _ => False
    end.
Proof.
  intros st bids. unfold save_batch. pose proof (save_batch_loop_counts bids st 0) as H.
  destruct (fst (save_batch_loop st bids 0)) as [n|e]; [|exact H].
  destruct H as [Hn Hsize]. split; lia.
Qed.

(** X13.  In single-file mode, whenever [save]
    returns [True] fewer than ten items are left in the buffer, whatever
    the buffer held before: the tenth item triggers [flush], and a
    [flush] that fails makes [save] raise. *)
Theorem save_true_leaves_short_buffer :
  forall (st : JsonStorage) (bid : Item),
    individual_files st = false ->
    fst (save st bid) = Return true ->
    (length (_buffer (snd (save st bid))) < 10)%nat.
Proof.
  intros st bid Hind. unfold save. destruct (exists_ st (item_id bid)).
  { destruct (raise_on_duplicate st); discriminate. }
  rewrite Hind. set (st2 := set_id_cache _ _).
  destruct (Nat.leb_spec 10 (length (_buffer st2))) as [Hfull|Hshort]; [|intros _; exact Hshort].
  unfold flush. destruct (_buffer st2) as [|d0 rest] eqn:Hb; [cbn in Hfull; lia|].
  destruct (existing_ids (_load_raw st2)); [|discriminate].
  destruct (next_io st2) as [[] st3]; try discriminate. intros _. cbn. lia.
Qed.

Lemma save_true_leaves_short_buffer_witness :
  (length (_buffer (snd (save (JsonStorage_init "bid_notices.json" false false ∅ [])
                           (NoticeItem sample_notice)))) < 10)%nat.
Proof.
  apply save_true_leaves_short_buffer; vm_compute; reflexivity.
Defined.

(** X14.  In individual-files mode a [save]
    that returns [True] has written the file [<id>.json] with the item
    as [_to_dict] renders it; unless the id holds a slash or
    [<id>.json] is the name of the single output file, the item is
    among the data [_load_individual_raw] reads back; and nothing is
    buffered. *)
Theorem individual_save_writes_at_once :
  forall (st : JsonStorage) (bid : Item),
    individual_files st = true ->
    has_slash (item_id bid) = false ->
    item_id bid +:+ ".json" <> filename st ->
    fst (save st bid) = Return true ->
    directory (snd (save st bid)) !! (item_id bid +:+ ".json") =
      Some (FileOther (stored_form bid)) /\
    stored_form bid ∈ _load_individual_raw (snd (save st bid)) /\
    _buffer (snd (save st bid)) = _buffer st.
Proof.
  intros st bid Hind Hslash Hname. unfold save. destruct (exists_ st (item_id bid)).
  { destruct (raise_on_duplicate st); discriminate. }
  rewrite Hind. unfold _save_individual. rewrite Hslash.
  assert (filename (snd (next_io st)) = filename st /\ _buffer (snd (next_io st)) = _buffer st)
    as [Hfn Hbuf] by (unfold next_io; destruct (io_script st); split; reflexivity).
  destruct (next_io st) as [[] st1]; try discriminate. cbn [fst snd] in *. intros _.
  assert (<[item_id bid +:+ ".json" := FileOther (stored_form bid)]> (directory st1) !!
            (item_id bid +:+ ".json") = Some (FileOther (stored_form bid))) as Hlook
    by apply lookup_insert_eq.
  split; [exact Hlook|]. split; [|exact Hbuf].
  unfold _load_individual_raw. cbn [directory filename set_id_cache note_taken set_directory].
  apply list_elem_of_fmap. exists (item_id bid +:+ ".json", FileOther (stored_form bid)).
  split; [reflexivity|]. apply list_elem_of_In, filter_In. split.
  - apply list_elem_of_In, elem_of_map_to_list. exact Hlook.
  - cbn. rewrite Hfn. apply negb_true_iff, String.eqb_neq. exact Hname.
Qed.

Lemma individual_save_writes_at_once_witness :
  directory (snd (save (JsonStorage_init "bid_notices.json" true false ∅ [])
                    (NoticeItem sample_notice))) !! "20240115-001.json" =
    Some (FileOther (stored_form (NoticeItem sample_notice))) /\
  stored_form (NoticeItem sample_notice) ∈
    _load_individual_raw (snd (save (JsonStorage_init "bid_notices.json" true false ∅ [])
                                 (NoticeItem sample_notice))) /\
  _buffer (snd (save (JsonStorage_init "bid_notices.json" true false ∅ [])
                  (NoticeItem sample_notice))) = [].
Proof.
  apply (individual_save_writes_at_once (JsonStorage_init "bid_notices.json" true false ∅ [])
           (NoticeItem sample_notice)); try reflexivity.
  discriminate.
Defined.

Lemma cache_grows_save st bid : _id_cache st ⊆ _id_cache (snd (save st bid)).
Proof.
  destruct (save_cases st bid)
    as [(_ & _ & _ & ->) | [(_ & _ & _ & ->) |
        [(_ & _ & _ & Hv) | (_ & _ & st1 & Hv1 & Hv)]]]; try reflexivity.
  - unfold view in Hv. injection Hv as -> _ _ _ _ _. reflexivity.
  - unfold view in Hv, Hv1. injection Hv as -> _ _ _ _ _. injection Hv1 as -> _ _ _ _ _.
    cbn. apply union_subseteq_r.
Qed.

Lemma cache_grows_save_batch bids : forall st count,
  _id_cache st ⊆ _id_cache (snd (save_batch_loop st bids count)).
Proof.
  induction bids as [|bid rest IH]; intros st count; cbn [save_batch_loop]; [reflexivity|].
  pose proof (cache_grows_save st bid) as Hs.
  destruct (save st bid) as [[[]|[]] st1]; cbn [snd] in Hs |- *; try exact Hs;
    (etrans; [exact Hs|apply IH]).
Qed.

Lemma cache_grows_call st c : _id_cache st ⊆ _id_cache (after_call st c).
Proof.
  destruct c; cbn [after_call].
  - apply cache_grows_save.
  - apply cache_grows_save_batch.
  - reflexivity.
  - pose proof (flush_view st) as Hv. unfold view in Hv.
    injection Hv as -> _ _ _ _ _. reflexivity.
  - unfold close. pose proof (flush_view st) as Hv. unfold view in Hv.
    injection Hv as Hc _ _ _ _ _. destruct (flush st) as [[] st1]; cbn in *; now rewrite Hc.
Qed.

Lemma cache_grows_calls cs : forall st, _id_cache st ⊆ _id_cache (after_calls st cs).
Proof.
  unfold after_calls. induction cs as [|c cs IH]; intros st; cbn [fold_left]; [reflexivity|].
  etrans; [apply cache_grows_call|apply IH].
Qed.

(** X15.  The id cache only grows: once [exists]
    answers [True] for an id it does so after any further calls, and
    every later [save] of an item with that id changes nothing and
    returns [False], or raises [DuplicateBidException] when the
    repository was opened with [raise_on_duplicate]. *)
Theorem known_id_is_never_forgotten :
  forall (st : JsonStorage) (cs : list Call) (bid : Item),
    exists_ st (item_id bid) = true ->
    exists_ (after_calls st cs) (item_id bid) = true /\
    snd (save (after_calls st cs) bid) = after_calls st cs /\
    fst (save (after_calls st cs) bid) =
      (if raise_on_duplicate st then Raise (DuplicateBidException (item_id bid))
       else Return false).
Proof.
  intros st cs bid Hex. unfold exists_ in *. apply bool_decide_eq_true in Hex.
  pose proof (cache_grows_calls cs st (item_id bid) Hex) as Hin.
  assert (raise_on_duplicate (after_calls st cs) = raise_on_duplicate st) as Hstrict.
  { pose proof (settings_calls cs st) as Hs. unfold settings in Hs.
    injection Hs as _ Hr _ _. exact Hr. }
  split; [apply bool_decide_eq_true_2, Hin|].
  unfold save, exists_. rewrite (bool_decide_eq_true_2 _ Hin), Hstrict.
  destruct (raise_on_duplicate st); split; reflexivity.
Qed.

Lemma known_id_is_never_forgotten_witness :
  let st := snd (save (JsonStorage_init "bid_notices.json" false false ∅ [])
                   (NoticeItem sample_notice)) in
  exists_ (after_calls st [CallFlush; CallClose]) (item_id (NoticeItem sample_notice)) = true /\
  snd (save (after_calls st [CallFlush; CallClose]) (NoticeItem sample_notice)) =
    after_calls st [CallFlush; CallClose] /\
  fst (save (after_calls st [CallFlush; CallClose]) (NoticeItem sample_notice)) =
    (if raise_on_duplicate st then Raise (DuplicateBidException (item_id (NoticeItem sample_notice)))
     else Return false).
Proof.
  intros st.
  apply (known_id_is_never_forgotten st [CallFlush; CallClose] (NoticeItem sample_notice)).
  vm_compute. reflexivity.
Defined.


(** A property of quiet repositories that [flush] and the taking in of
    a new item keep is kept by every sequence of calls. *)
Section KeptByCalls.
Variable P : JsonStorage -> Prop.
Hypothesis P_accept :
  forall st bid, quiet st -> item_id bid ∉ _id_cache st -> P st -> P (accept st bid).
Hypothesis P_flush : forall st, quiet st -> P st -> P (snd (flush st)).

Lemma kept_by_save st bid : quiet st -> P st -> P (snd (save st bid)).
Proof.
  intros Hq HP.
  destruct (save_quiet st bid Hq) as [(_ & -> & _) | (Hnew & [-> | (-> & _)])].
  - exact HP.
  - exact (P_accept st bid Hq Hnew HP).
  - exact (P_flush _ (quiet_accept st bid Hq) (P_accept st bid Hq Hnew HP)).
Qed.

Lemma kept_by_save_batch bids : forall st count,
  quiet st -> P st -> P (snd (save_batch_loop st bids count)).
Proof.
  induction bids as [|bid rest IH]; intros st count Hq HP; cbn [save_batch_loop]; [exact HP|].
  pose proof (quiet_save st bid Hq) as Hq1. pose proof (kept_by_save st bid Hq HP) as HP1.
  destruct (save st bid) as [[[]|[]] st1]; cbn [snd] in *; auto.
Qed.

Lemma kept_by_call st c : quiet st -> P st -> P (after_call st c).
Proof.
  intros Hq HP. destruct c; cbn [after_call].
  - exact (kept_by_save st bid Hq HP).
  - exact (kept_by_save_batch bids st 0 Hq HP).
  - exact HP.
  - exact (P_flush st Hq HP).
  - unfold close. pose proof (P_flush st Hq HP) as H. destruct (flush st) as [[] st1]; exact H.
Qed.

Lemma kept_by_calls cs : forall st, quiet st -> P st -> P (after_calls st cs).
Proof.
  unfold after_calls. induction cs as [|c cs IH]; intros st Hq HP; cbn [fold_left]; [exact HP|].
  apply IH; [exact (proj1 (durable_call st c Hq))|exact (kept_by_call st c Hq HP)].
Qed.

End KeptByCalls.

Lemma buffered_matches_to_dict x i : buffered_matches x (_to_dict i) = String.eqb (item_id i) x.
Proof. unfold buffered_matches. now rewrite to_dict_id. Qed.

Lemma stored_matches_to_dict x i :
  stored_matches x (json_dict (_to_dict i)) = String.eqb (item_id i) x.
Proof. unfold stored_matches, json_dict. now rewrite lookup_fmap, to_dict_id. Qed.

Lemma stored_matches_id x d :
  stored_matches x d = true -> existing_id (EDict d) = Some (JStr x).
Proof.
  unfold stored_matches, existing_id.
  destruct (d !! "bid_notice_id") as [[| | |s|]|]; try discriminate.
  intros H. apply String.eqb_eq in H as ->. reflexivity.
Qed.

(** The search passes over stored data that does not hold the id. *)
Lemma find_stored_passes x l ids rest :
  existing_ids l = Some ids -> JStr x ∉ ids ->
  find_stored (l ++ rest) x = find_stored rest x.
Proof.
  intros Hids Hnot. induction l as [|e l IH] in ids, Hids, Hnot |- *; [reflexivity|].
  change (e :: l) with ([e] ++ l) in Hids.
  apply existing_ids_app in Hids as (ids1 & ids2 & H1 & H2 & ->).
  destruct e as [d|]; [|discriminate]. cbn [app find_stored].
  destruct (stored_matches x d) eqn:Hm.
  - exfalso. apply Hnot. apply stored_matches_id in Hm.
    apply elem_of_app. left.
    exact (existing_ids_has [EDict d] ids1 (EDict d) (JStr x) H1 ltac:(left) Hm).
  - apply (IH ids2 H2). intros Hin. apply Hnot, elem_of_app. right. exact Hin.
Qed.

Lemma find_stored_found x l d rest :
  find_stored l x = Return (Some d) -> find_stored (l ++ rest) x = Return (Some d).
Proof.
  induction l as [|[d0|] l IH]; cbn [app find_stored]; try discriminate.
  destruct (stored_matches x d0); [auto|exact IH].
Qed.

(** The first rendered item of the buffer with the id is the first
    stored object with the id among those [flush] writes. *)
Lemma find_stored_written x i (keep : gmap string PyValue -> bool) buffer :
  (forall d, d ∈ buffer -> exists i0, d = _to_dict i0) ->
  List.find (buffered_matches x) buffer = Some (_to_dict i) ->
  keep (_to_dict i) = true ->
  find_stored ((fun d => EDict (json_dict d)) <$> List.filter keep buffer) x =
    Return (Some (json_dict (_to_dict i))).
Proof.
  intros Hall Hfind Hkeep. induction buffer as [|d r IH]; [discriminate|].
  cbn [List.find List.filter] in *.
  destruct (Hall d ltac:(left)) as [i0 ->].
  assert (forall d0, d0 ∈ r -> exists i1, d0 = _to_dict i1) as Hr
    by (intros d0 H0; apply Hall; right; exact H0).
  rewrite buffered_matches_to_dict in Hfind.
  destruct (String.eqb (item_id i0) x) eqn:Hm.
  - injection Hfind as Hfind. rewrite Hfind, Hkeep. cbn [fmap list_fmap find_stored].
    rewrite <- Hfind, stored_matches_to_dict, Hm. reflexivity.
  - destruct (keep (_to_dict i0)); [|exact (IH Hr Hfind)].
    cbn [fmap list_fmap find_stored]. rewrite stored_matches_to_dict, Hm. exact (IH Hr Hfind).
Qed.

Lemma find_app_none {A} (f : A -> bool) l1 l2 :
  List.find f l1 = None -> List.find f (l1 ++ l2) = List.find f l2.
Proof. induction l1 as [|a l1 IH]; cbn; [reflexivity|]. destruct (f a); [discriminate|exact IH]. Qed.

Lemma find_app_some {A} (f : A -> bool) l1 l2 a :
  List.find f l1 = Some a -> List.find f (l1 ++ l2) = Some a.
Proof. induction l1 as [|b l1 IH]; cbn; [discriminate|]. destruct (f b); [auto|exact IH]. Qed.

Section Findable.
Variable i : Item.
Hypothesis id_not_empty : item_id i <> "".

Lemma findable_flush st :
  quiet st -> known st (item_id i) /\ findable i st ->
  known (snd (flush st)) (item_id i) /\ findable i (snd (flush st)).
Proof.
  intros Hq [Hk (Hc & Hb & Hl)]. split; [exact (known_flush st (item_id i) Hq Hk)|].
  destruct (flush_quiet st Hq) as [[_ ->] | [(_ & msg & ->) | (ids & Hids & ->)]];
    try (split; [exact Hc|split; [exact Hb|exact Hl]]).
  cbn [snd]. split; [exact Hc|]. split.
  { intros d Hd. apply elem_of_nil in Hd. contradiction. }
  right. split; [reflexivity|]. rewrite load_single_raw_written.
  destruct Hl as [[Hfind Hnew] | [_ Hstored]].
  - rewrite (find_stored_passes (item_id i) _ ids _ Hids (Hnew ids Hids)).
    apply find_stored_written; [exact Hb|exact Hfind|].
    rewrite buffered_id_to_dict. apply negb_true_iff, bool_decide_eq_false_2.
    exact (Hnew ids Hids).
  - apply find_stored_found, Hstored.
Qed.

Lemma findable_accept st bid :
  quiet st -> item_id bid ∉ _id_cache st ->
  known st (item_id i) /\ findable i st ->
  known (accept st bid) (item_id i) /\ findable i (accept st bid).
Proof.
  intros Hq Hnew [Hk (Hc & Hb & Hl)]. split; [exact (known_accept st bid (item_id i) Hk)|].
  split; [cbn; apply elem_of_union_r, Hc|]. split.
  { intros d Hd. cbn in Hd. apply elem_of_app in Hd as [Hd|Hd]; [exact (Hb d Hd)|].
    apply list_elem_of_singleton in Hd as ->. eauto. }
  assert (buffered_matches (item_id i) (_to_dict bid) = false) as Hother.
  { rewrite buffered_matches_to_dict. apply String.eqb_neq. intros E.
    apply Hnew. rewrite E. exact Hc. }
  destruct Hl as [[Hfind Hfile] | [Hnone Hstored]]; [left|right]; cbn.
  - split; [exact (find_app_some _ _ _ _ Hfind)|exact Hfile].
  - split; [|exact Hstored]. rewrite (find_app_none _ _ _ Hnone). cbn.
    now rewrite Hother.
Qed.

Lemma findable_saved st :
  quiet st -> known st (item_id i) -> buffer_rendered st ->
  fst (save st i) = Return true ->
  known (snd (save st i)) (item_id i) /\ findable i (snd (save st i)).
Proof.
  intros Hq Hk Hb Hr.
  assert (item_id i ∉ _id_cache st ->
          known (accept st i) (item_id i) /\ findable i (accept st i)) as Hacc.
  { intros Hnew. split; [exact (known_accept st i (item_id i) Hk)|].
    split; [cbn; apply elem_of_union_l, elem_of_singleton; reflexivity|]. split.
    { intros d Hd. cbn in Hd. apply elem_of_app in Hd as [Hd|Hd]; [exact (Hb d Hd)|].
      apply list_elem_of_singleton in Hd as ->. eauto. }
    left. cbn. split; [|intros ids Hids Hin; exact (Hnew (proj1 Hk ids Hids Hin))].
    rewrite find_app_none.
    - cbn. rewrite buffered_matches_to_dict. now rewrite String.eqb_refl.
    - destruct (List.find (buffered_matches (item_id i)) (_buffer st)) as [d|] eqn:Hfind;
        [|reflexivity].
      exfalso. apply find_some in Hfind as [Hin Hm].
      apply list_elem_of_In in Hin. destruct (Hb d Hin) as [i0 ->].
      rewrite buffered_matches_to_dict in Hm. apply String.eqb_eq in Hm.
      apply Hnew. apply (proj2 Hk (_to_dict i0) Hin). rewrite buffered_id_to_dict.
      now rewrite Hm. }
  destruct (save_quiet st i Hq) as [(_ & _ & Hne) | (Hnew & [-> | (-> & _)])].
  - contradiction.
  - exact (Hacc Hnew).
  - exact (findable_flush _ (quiet_accept st i Hq) (Hacc Hnew)).
Qed.

End Findable.

Lemma buffer_rendered_calls cs : forall st,
  quiet st -> buffer_rendered st -> buffer_rendered (after_calls st cs).
Proof.
  apply (kept_by_calls buffer_rendered).
  - intros st bid _ _ Hb d Hd. cbn in Hd. apply elem_of_app in Hd as [Hd|Hd]; [exact (Hb d Hd)|].
    apply list_elem_of_singleton in Hd as ->. eauto.
  - intros st Hq Hb.
    destruct (flush_quiet st Hq) as [[_ ->] | [(_ & msg & ->) | (ids & Hids & ->)]];
      try exact Hb.
    intros d Hd. apply elem_of_nil in Hd. contradiction.
Qed.

(** X16.  A single-file repository whose
    writes succeed, opened on any directory: when [save] returned [True]
    for an item with a non-empty id, then after any further calls the
    search of [find_by_id] for that id ends at this item, and at no
    other with the same id: at its dictionary in the buffer as long as
    it is not flushed, and at its object in the file afterwards. *)
Theorem find_by_id_finds_the_saved_item :
  forall fname strict dir (before after : list Call) (bid : Item),
    let st := after_calls (JsonStorage_init fname false strict dir []) before in
    let st' := after_calls (snd (save st bid)) after in
    item_id bid <> "" ->
    fst (save st bid) = Return true ->
    find_by_id_item st' (item_id bid) = Return (FoundBuffered (_to_dict bid)) \/
    find_by_id_item st' (item_id bid) = Return (FoundStored (json_dict (_to_dict bid))).
Proof.
  intros fname strict dir before after bid st st' Hx Hsave.
  assert (quiet (JsonStorage_init fname false strict dir [])) as Hq0 by (split; reflexivity).
  destruct (durable_calls before _ Hq0) as (Hq & Hk & _). fold st in Hq, Hk.
  specialize (Hk (item_id bid) Hx (known_init _ fname strict dir Hx)).
  assert (buffer_rendered st) as Hb.
  { apply buffer_rendered_calls; [exact Hq0|].
    intros d Hd. apply elem_of_nil in Hd. contradiction. }
  pose proof (findable_saved bid st Hq Hk Hb Hsave) as Hf.
  pose proof (quiet_save st bid Hq) as Hq1.
  assert (known st' (item_id bid) /\ findable bid st') as [_ (_ & _ & Hl)].
  { apply (kept_by_calls (fun s => known s (item_id bid) /\ findable bid s)); try assumption.
    - intros s b. apply findable_accept.
    - intros s. apply findable_flush. }
  assert (quiet st') as [Hind _] by exact (proj1 (durable_calls after _ Hq1)).
  unfold find_by_id_item, _load_raw. rewrite Hind.
  destruct Hl as [[-> _] | [-> ->]]; auto.
Qed.

Lemma find_by_id_finds_the_saved_item_witness :
  let st' := after_calls (snd (save (JsonStorage_init "bid_notices.json" false false ∅ [])
                                 (NoticeItem sample_notice))) [CallFlush] in
  find_by_id_item st' (item_id (NoticeItem sample_notice)) =
    Return (FoundBuffered (_to_dict (NoticeItem sample_notice))) \/
  find_by_id_item st' (item_id (NoticeItem sample_notice)) =
    Return (FoundStored (json_dict (_to_dict (NoticeItem sample_notice)))).
Proof.
  apply (find_by_id_finds_the_saved_item "bid_notices.json" false ∅ [] [CallFlush]
           (NoticeItem sample_notice)).
  - discriminate.
  - vm_compute. reflexivity.
Defined.


End JsonStorageFacts.

Module StateManagerFacts.
Import CrawlStateModel StateManagerModel.

Example with_suffix_examples :
  with_suffix (["data"], "crawl_state.json") ".backup.json" =
    Some (["data"], "crawl_state.backup.json") /\
  with_suffix ([], "state") ".backup.json" = Some ([], "state.backup.json") /\
  with_suffix ([], ".hidden") ".backup.json" = Some ([], ".hidden.backup.json") /\
  with_suffix ([], "a.tar.gz") ".backup.json" = Some ([], "a.tar.backup.json") /\
  with_suffix ([], "trailing.") ".backup.json" = Some ([], "trailing..backup.json") /\
  with_suffix ([], "") ".backup.json" = None.
Proof. vm_compute. repeat split. Qed.

(** [rfind_dot_from] returns the position of the last dot. *)
Lemma rfind_dot_from_spec l : forall i0 found,
  (rfind_dot_from l i0 found = found /\ Forall no_dot l) \/
  (exists k, rfind_dot_from l i0 found = Some (i0 + k)%nat /\
             l !! k = Some "."%char /\ Forall no_dot (drop (S k) l)).
Proof.
  induction l as [|c l IH]; intros i0 found; cbn [rfind_dot_from].
  - left. split; [reflexivity|constructor].
  - destruct (IH (S i0) (if Ascii.eqb c "." then Some i0 else found))
      as [[Hr Hnd] | (k & Hr & Hk & Hnd)].
    + destruct (Ascii.eqb_spec c ".") as [->|Hne].
      * right. exists 0%nat. rewrite Hr, Nat.add_0_r. repeat split. exact Hnd.
      * left. split; [exact Hr|]. constructor; [|exact Hnd].
        unfold no_dot. now apply Ascii.eqb_neq.
    + right. exists (S k). rewrite Hr. split; [f_equal; lia|]. split; assumption.
Qed.

(** The suffix of a name holds one dot, at its start. *)
Lemma suffix_chars_shape l :
  suffix_chars l = [] \/
  exists i rest, suffix_chars l = "."%char :: rest /\ Forall no_dot rest /\
                 l = take i l ++ "."%char :: rest /\ (i < length l)%nat.
Proof.
  unfold suffix_chars, rfind_dot.
  destruct (rfind_dot_from_spec l 0 None) as [[-> _] | (k & -> & Hk & Hnd)]; [now left|].
  cbn [Nat.add].
  destruct ((0 <? k)%nat && (k <? length l - 1)%nat); [|now left].
  right. exists k, (drop (S k) l).
  pose proof (lookup_lt_Some _ _ _ Hk) as Hlt.
  assert (drop k l = "."%char :: drop (S k) l) as Hd
    by (apply drop_S, Hk).
  repeat split; try assumption. rewrite <- Hd. symmetry. apply take_drop.
Qed.

(** The backup path is never the state file itself. *)
Lemma with_suffix_backup_differs (p q : Path) :
  with_suffix p ".backup.json" = Some q -> q <> p.
Proof.
  unfold with_suffix. cbn [existsb String.list_ascii_of_string Ascii.eqb orb negb andb
                             starts_with_dot String.eqb].
  change (existsb _ _) with false. cbv iota.
  change (negb (String.eqb ".backup.json" "") && negb (Ascii.eqb "." ".") ||
          String.eqb ".backup.json" ".") with false. cbv iota.
  destruct (String.eqb p.2 ""); [discriminate|].
  intros [= <-] Heq. destruct p as [dir name]. cbn in Heq.
  injection Heq as Heq. apply (f_equal String.list_ascii_of_string) in Heq.
  rewrite String.list_ascii_of_string_of_list_ascii in Heq.
  set (l := String.list_ascii_of_string name) in *.
  set (sfx := String.list_ascii_of_string ".backup.json") in *.
  destruct (suffix_chars_shape l) as [Hs | (i & rest & Hs & Hnd & Hl & Hi)]; rewrite Hs in Heq.
  - cbn [length] in Heq. rewrite Nat.sub_0_r, firstn_all in Heq.
    apply (f_equal length) in Heq. rewrite length_app in Heq. cbn in Heq. lia.
  - assert (length l - length ("."%char :: rest) = i)%nat as Hk.
    { apply (f_equal length) in Hl.
      rewrite length_app, length_take in Hl. cbn [length] in Hl |- *. lia. }
    rewrite Hk in Heq. rewrite Hl in Heq at 2.
    apply app_inv_head in Heq. subst sfx. cbn in Heq.
    injection Heq as <-. repeat (apply Forall_cons_1 in Hnd as [? Hnd]; try discriminate).
Qed.

Lemma state_manager_paths_differ file sm :
  StateManager_init file = Some sm -> backup_file sm <> state_file sm.
Proof.
  unfold StateManager_init. destruct (with_suffix file ".backup.json") as [q|] eqn:Hq;
    [|discriminate].
  cbn. intros [= <-]. cbn. exact (with_suffix_backup_differs _ _ Hq).
Qed.

Section LoadFacts.
Variable parse_state : string -> option CrawlState.

Local Abbreviation load := (load parse_state).

Lemma store_succeeds d target text :
  all_succeed d ->
  exists d1, store d target text = (true, d1) /\
             files d1 = <[target := text]> (files d) /\ all_succeed d1.
Proof.
  unfold all_succeed, store, next_step. intros H.
  destruct (steps d) as [|o rest] eqn:Hs.
  - eexists. split; [reflexivity|]. cbn. rewrite Hs. split; [reflexivity|constructor].
  - apply Forall_cons_1 in H as [-> Hrest].
    eexists. split; [reflexivity|]. cbn. split; [reflexivity|exact Hrest].
Qed.

(** A readable state file is returned as it is. *)
Lemma load_primary sm d text st fuel :
  files d !! state_file sm = Some text -> parse_state text = Some st ->
  load (S fuel) sm d = (Loaded (Some st), d).
Proof. intros Hf Hp. cbn. now rewrite Hf, Hp. Qed.

(** An unreadable state file with a readable backup: the backup is copied
    over the state file and its state is returned by the nested call. *)
Lemma load_backup sm d text backup_text st fuel :
  backup_file sm <> state_file sm ->
  files d !! state_file sm = Some text -> parse_state text = None ->
  files d !! backup_file sm = Some backup_text -> parse_state backup_text = Some st ->
  all_succeed d ->
  exists d1, load (S (S fuel)) sm d = (Loaded (Some st), d1) /\
             files d1 = <[state_file sm := backup_text]> (files d).
Proof.
  intros Hne Hf Hp Hb Hbp Hio. cbn [StateManagerModel.load]. rewrite Hf, Hp, Hb.
  destruct (store_succeeds d (state_file sm) backup_text Hio) as (d1 & -> & Hd1 & _).
  exists d1. split; [|exact Hd1].
  rewrite Hd1, lookup_insert_eq, Hbp. reflexivity.
Qed.


End LoadFacts.


Lemma mkdir_files d : files (snd (mkdir d)) = files d.
Proof. unfold mkdir, next_step. destruct (steps d) as [|[] ?]; reflexivity. Qed.

Lemma store_true d target text d1 :
  store d target text = (true, d1) -> files d1 = <[target := text]> (files d).
Proof.
  unfold store, next_step. destruct (steps d) as [|[|[]] ?]; intros [= <-]; reflexivity.
Qed.

Lemma store_false_elsewhere d target text d1 other :
  store d target text = (false, d1) -> other <> target ->
  files d1 !! other = files d !! other.
Proof.
  unfold store, next_step. destruct (steps d) as [|[|[]] ?]; intros [= <-] Hne;
    cbn [files]; [apply lookup_insert_ne; congruence | reflexivity].
Qed.

(** C9, as the code has it.  With a state to save and a state file on
    disk, a successful [save] leaves the previous text of the state file
    at [state_file.with_suffix(".backup.json")] and the new text at the
    state file; and when the copy fails nothing is written to the state
    file. *)
Theorem save_backs_up_then_writes :
  forall (dump_state : CrawlState -> string) (file : Path) (sm0 : StateManager)
         (st : CrawlState) (d : Disk) (old : string),
    StateManager_init file = Some sm0 ->
    files d !! file = Some old ->
    let sm := set_state sm0 (Some st) in
    with_suffix file ".backup.json" = Some (backup_file sm) /\
    (fst (save dump_state sm d) = true ->
     files (snd (save dump_state sm d)) !! backup_file sm = Some old /\
     files (snd (save dump_state sm d)) !! file = Some (dump_state st)) /\
    (forall remains rest,
       steps d = StepOk :: StepFails remains :: rest ->
       fst (save dump_state sm d) = false /\
       files (snd (save dump_state sm d)) !! file = Some old).
Proof.
  intros dump_state file sm0 st d old Hinit Hold sm.
  pose proof (state_manager_paths_differ _ _ Hinit) as Hne.
  unfold StateManager_init in Hinit.
  destruct (with_suffix file ".backup.json") as [backup|] eqn:Hws; [|discriminate].
  cbn in Hinit. injection Hinit as <-. cbn [backup_file state_file] in Hne. subst sm.
  split; [reflexivity|]. unfold save. cbn [_state set_state state_file backup_file].
  split.
  - pose proof (mkdir_files d) as Hmk.
    destruct (mkdir d) as [[] d1]; cbn [fst snd] in *; [|discriminate].
    rewrite Hmk, Hold.
    destruct (store d1 backup old) as [[] d2] eqn:Hcopy; cbn [fst snd]; [|discriminate].
    apply store_true in Hcopy.
    destruct (store d2 file (dump_state st)) as [[] d3] eqn:Hwrite; cbn [fst snd];
      [|discriminate].
    apply store_true in Hwrite. intros _. rewrite Hwrite, Hcopy, Hmk. split.
    + rewrite lookup_insert_ne by (intros E; apply Hne; symmetry; exact E).
      apply lookup_insert_eq.
    + apply lookup_insert_eq.
  - intros remains rest Hs. unfold mkdir, next_step. rewrite Hs. cbn [files steps].
    rewrite Hold.
    destruct (store (mkDisk (files d) (StepFails remains :: rest)) backup old)
      as [copied d2] eqn:Hcopy.
    assert (copied = false) as ->
      by (unfold store, next_step in Hcopy; cbn in Hcopy; destruct remains;
          injection Hcopy as <- _; reflexivity).
    cbn [fst snd]. split; [reflexivity|].
    rewrite (store_false_elsewhere _ _ _ _ file Hcopy)
      by (intros E; apply Hne; symmetry; exact E).
    exact Hold.
Qed.

(** With the default state file, the previous text is not found at
    [crawl_state.json.backup] after a successful [save]: it is at
    [crawl_state.backup.json]. *)
Lemma save_backup_is_not_name_plus_backup :
  fst (save toy_dump toy_manager one_state_file) = true /\
  files (snd (save toy_dump toy_manager one_state_file)) !! spec_backup_path crawl_state_path
    = None /\
  files (snd (save toy_dump toy_manager one_state_file)) !!
    (["data"], "crawl_state.backup.json") = Some "old".
Proof. vm_compute. repeat split. Qed.

Lemma save_backs_up_then_writes_witness :
  files (snd (save toy_dump toy_manager one_state_file)) !! backup_file toy_manager
    = Some "old" /\
  files (snd (save toy_dump toy_manager one_state_file)) !! crawl_state_path = Some "ok".
Proof.
  apply (proj1 (proj2 (save_backs_up_then_writes toy_dump crawl_state_path
                         (set_state toy_manager None) toy_state one_state_file "old"
                         eq_refl eq_refl))).
  reflexivity.
Defined.

Section PersistenceFacts.
Variable parse_state : string -> option CrawlState.
Variable dump_state : CrawlState -> string.

Local Abbreviation load := (load parse_state).
Local Abbreviation save := (save dump_state).
Local Abbreviation initialize := (initialize parse_state).

(** X17.  When the file format reads back the state it
    wrote, a [load] after a successful [save] returns the saved state,
    and leaves the disk as it is. *)
Theorem save_then_load :
  forall (sm : StateManager) (d : Disk) (st : CrawlState) (fuel : nat),
    _state sm = Some st ->
    parse_state (dump_state st) = Some st ->
    fst (save sm d) = true ->
    load (S fuel) sm (snd (save sm d)) = (Loaded (Some st), snd (save sm d)).
Proof.
  intros sm d st fuel Hst Hparse Hok. unfold StateManagerModel.save in *. rewrite Hst in *.
  destruct (mkdir d) as [[] d1]; [|discriminate].
  destruct (match files d1 !! state_file sm with
            | Some old => store d1 (backup_file sm) old
            | None => (true, d1)
            end) as [[] d2]; [|discriminate].
  destruct (store d2 (state_file sm) (dump_state st)) as [[] d3] eqn:Hw; [|discriminate].
  cbn [snd]. apply store_true in Hw.
  cbn [StateManagerModel.load]. rewrite Hw, lookup_insert_eq, Hparse. reflexivity.
Qed.

Lemma store_settled d target text ok d1 :
  store d target text = (ok, d1) ->
  (ok = true /\ files d1 = <[target := text]> (files d)) \/
  (ok = false /\ files d1 = files d) \/
  (ok = false /\ exists partial, files d1 = <[target := partial]> (files d) /\
                                 In (StepFails (Some partial)) (steps d)).
Proof.
  unfold store, next_step.
  destruct (steps d) as [|[|[partial|]] rest] eqn:Hs; intros [= <- <-]; cbn.
  - left. auto.
  - left. auto.
  - right. right. split; [reflexivity|]. exists partial. split; [reflexivity|]. left. reflexivity.
  - right. left. auto.
Qed.

Lemma store_steps d target text : exists o, steps d = o ++ steps (snd (store d target text)).
Proof.
  unfold store, next_step. destruct (steps d) as [|[|[partial|]] rest] eqn:Hs; cbn.
  - exists []. now rewrite Hs.
  - exists [StepOk]. reflexivity.
  - exists [StepFails (Some partial)]. reflexivity.
  - exists [StepFails None]. reflexivity.
Qed.

Lemma mkdir_steps d : exists o, steps d = o ++ steps (snd (mkdir d)).
Proof.
  unfold mkdir, next_step. destruct (steps d) as [|[|r] rest] eqn:Hs; cbn.
  - exists []. now rewrite Hs.
  - exists [StepOk]. reflexivity.
  - exists [StepFails r]. reflexivity.
Qed.

(** Reading back right after the failures are over: a readable state
    file is returned, and an unreadable one is replaced by a readable
    backup. *)
Lemma load_settled_primary sm fs text st fuel :
  fs !! state_file sm = Some text -> parse_state text = Some st ->
  fst (load (S fuel) sm (mkDisk fs [])) = Loaded (Some st).
Proof. intros Hf Hp. cbn. now rewrite Hf, Hp. Qed.

Lemma load_settled_backup sm fs text backup_text st fuel :
  fs !! state_file sm = Some text -> parse_state text = None ->
  fs !! backup_file sm = Some backup_text -> parse_state backup_text = Some st ->
  fst (load (S (S fuel)) sm (mkDisk fs [])) = Loaded (Some st).
Proof.
  intros Hf Hp Hb Hbp. cbn. rewrite Hf, Hp, Hb. cbn. now rewrite lookup_insert_eq, Hbp.
Qed.

(** X18.  A [save] over a readable state
    file never loses the checkpoint, at whatever action it fails
    (creating the directory, copying the backup, writing the state
    file), provided a write that breaks off leaves unreadable text:
    once the failures are over, [load] returns the new state if [save]
    returned [True] and the previous state otherwise, restoring it from
    the backup when the state file was left broken. *)
Theorem save_keeps_a_readable_checkpoint :
  forall (sm : StateManager) (d : Disk) (st_new st_old : CrawlState) (old : string)
         (fuel : nat),
    backup_file sm <> state_file sm ->
    _state sm = Some st_new ->
    files d !! state_file sm = Some old ->
    parse_state old = Some st_old ->
    parse_state (dump_state st_new) = Some st_new ->
    Forall (breaks_unreadably parse_state) (steps d) ->
    fst (load (S (S fuel)) sm (settled (snd (save sm d)))) =
      Loaded (Some (if fst (save sm d) then st_new else st_old)).
Proof.
  intros sm d st_new st_old old fuel Hne Hst Hold Hpold Hpnew Hbreaks.
  unfold StateManagerModel.save, settled. rewrite Hst.
  pose proof (mkdir_files d) as Hmk.
  destruct (mkdir_steps d) as [o1 Ho1].
  destruct (mkdir d) as [[] d1]; cbn [fst snd] in *.
  2:{ apply load_settled_primary with (text := old); [rewrite Hmk; exact Hold|exact Hpold]. }
  rewrite Hmk, Hold.
  assert (Forall (breaks_unreadably parse_state) (steps d1)) as Hb1.
  { rewrite Ho1 in Hbreaks. apply Forall_app in Hbreaks. apply Hbreaks. }
  destruct (store_steps d1 (backup_file sm) old) as [o2 Ho2].
  destruct (store d1 (backup_file sm) old) as [copied d2] eqn:Hcopy. cbn [snd] in Ho2.
  assert (files d2 !! state_file sm = Some old) as Hold2.
  { destruct (store_settled _ _ _ _ _ Hcopy)
      as [[_ ->] | [[_ ->] | [_ (partial & -> & _)]]];
      rewrite ?lookup_insert_ne by exact Hne; rewrite Hmk; exact Hold. }
  destruct copied; cbn [fst snd].
  2:{ apply load_settled_primary with (text := old); assumption. }
  assert (files d2 !! backup_file sm = Some old) as Hbak2.
  { destruct (store_settled _ _ _ _ _ Hcopy)
      as [[_ ->] | [[? _] | [? _]]]; try discriminate. apply lookup_insert_eq. }
  assert (Forall (breaks_unreadably parse_state) (steps d2)) as Hb2.
  { rewrite Ho2 in Hb1. apply Forall_app in Hb1. apply Hb1. }
  destruct (store d2 (state_file sm) (dump_state st_new)) as [written d3] eqn:Hwrite.
  cbn [fst snd].
  destruct (store_settled _ _ _ _ _ Hwrite)
    as [[-> Hf] | [[-> Hf] | [-> (partial & Hf & Hin)]]]; rewrite Hf.
  - apply load_settled_primary with (text := dump_state st_new);
      [apply lookup_insert_eq|exact Hpnew].
  - apply load_settled_primary with (text := old); assumption.
  - apply load_settled_backup with (text := partial) (backup_text := old).
    + apply lookup_insert_eq.
    + rewrite Forall_forall in Hb2. exact (Hb2 _ (proj2 (list_elem_of_In _ _) Hin)).
    + rewrite lookup_insert_ne by (intros E; apply Hne; symmetry; exact E). exact Hbak2.
    + exact Hpold.
Qed.


(** X20.  After a [cleanup] that returned, the manager
    has no state and the state file is gone, and so is the backup when
    [remove_backup] is set; a kept backup is not consulted: [load]
    returns [None] and [initialize] starts a new state, with or without
    [resume]. *)
Theorem cleanup_then_load :
  forall (sm sm' : StateManager) (d d' : Disk) (remove_backup : bool) (fuel : nat)
         (rid : string) (resume : bool) (now1 now2 : datetime),
    cleanup sm d remove_backup = (Some sm', d') ->
    _state sm' = None /\
    files d' !! state_file sm = None /\
    (remove_backup = true -> files d' !! backup_file sm = None) /\
    (remove_backup = false -> backup_file sm <> state_file sm ->
     files d' !! backup_file sm = files d !! backup_file sm) /\
    load (S fuel) sm' d' = (Loaded None, d') /\
    initialize (S fuel) sm' d' rid resume now1 now2 =
      Fresh (set_state sm' (Some (CrawlState_new rid true now1 now2))) d'.
Proof.
  intros sm sm' d d' remove_backup fuel rid resume now1 now2. unfold cleanup.
  assert (forall d0 target ok d1, unlink d0 target = (ok, d1) ->
            ok = true -> files d1 = delete target (files d0)) as Hunlink.
  { intros d0 target ok d1. unfold unlink, next_step.
    destruct (steps d0) as [|[|r] rest]; intros [= <- <-]; try discriminate; reflexivity. }
  destruct (match files d !! state_file sm with
            | Some _ => unlink d (state_file sm)
            | None => (true, d)
            end) as [removed d1] eqn:H1.
  destruct removed; [|discriminate].
  assert (files d1 !! state_file sm = None /\
          (backup_file sm <> state_file sm ->
           files d1 !! backup_file sm = files d !! backup_file sm)) as [Hgone Hkeep].
  { destruct (files d !! state_file sm) eqn:Hf.
    - rewrite (Hunlink _ _ _ _ H1 eq_refl). split; [apply lookup_delete_eq|].
      intros Hne. apply lookup_delete_ne. congruence.
    - injection H1 as <-. auto. }
  destruct (if remove_backup
            then match files d1 !! backup_file sm with
                 | Some _ => unlink d1 (backup_file sm)
                 | None => (true, d1)
                 end
            else (true, d1)) as [removed' d2] eqn:H2.
  destruct removed'; [|discriminate]. intros [= <- <-]. cbn [_state set_state state_file].
  assert (files d2 !! state_file sm = None /\
          (remove_backup = true -> files d2 !! backup_file sm = None) /\
          (remove_backup = false -> files d2 = files d1)) as (Hgone2 & Hback & Hsame).
  { destruct remove_backup.
    - destruct (files d1 !! backup_file sm) eqn:Hb.
      + rewrite (Hunlink _ _ _ _ H2 eq_refl). split; [|split; [|discriminate]].
        * destruct (decide (backup_file sm = state_file sm)) as [->|Hne];
            [apply lookup_delete_eq|].
          rewrite lookup_delete_ne by exact Hne. exact Hgone.
        * intros _. apply lookup_delete_eq.
      + injection H2 as <-. auto.
    - injection H2 as <-. split; [exact Hgone|]. split; [discriminate|reflexivity]. }
  split; [reflexivity|]. split; [exact Hgone2|]. split; [exact Hback|].
  split; [intros Hrb Hne; rewrite (Hsame Hrb); exact (Hkeep Hne)|].
  split.
  - cbn. rewrite Hgone2. reflexivity.
  - unfold StateManagerModel.initialize. cbn [state_file set_state]. rewrite Hgone2.
    rewrite bool_decide_eq_false_2 by (intros [? [=]]). now rewrite andb_false_r.
Qed.

End PersistenceFacts.

Lemma save_then_load_witness :
  load tagged_parse 1 second_run (snd (save tagged_dump second_run (first_run_on_disk []))) =
    (Loaded (Some (CrawlState_new "b" true "t0" "t0")),
     snd (save tagged_dump second_run (first_run_on_disk []))).
Proof.
  apply (save_then_load tagged_parse tagged_dump second_run (first_run_on_disk [])
           (CrawlState_new "b" true "t0" "t0") 0); reflexivity.
Defined.

Lemma save_keeps_a_readable_checkpoint_witness :
  fst (load tagged_parse 2 second_run
         (settled (snd (save tagged_dump second_run
                          (first_run_on_disk [StepOk; StepOk; StepFails (Some "run")]))))) =
    Loaded (Some (if fst (save tagged_dump second_run
                            (first_run_on_disk [StepOk; StepOk; StepFails (Some "run")]))
                  then CrawlState_new "b" true "t0" "t0"
                  else CrawlState_new "a" true "t0" "t0")).
Proof.
  apply (save_keeps_a_readable_checkpoint tagged_parse tagged_dump second_run
           (first_run_on_disk [StepOk; StepOk; StepFails (Some "run")])
           (CrawlState_new "b" true "t0" "t0") (CrawlState_new "a" true "t0" "t0") "run:a" 0);
    try reflexivity.
  - discriminate.
  - repeat constructor.
Defined.

Lemma cleanup_then_load_witness :
  _state (set_state second_run None) = None /\
  files (mkDisk ∅ []) !! state_file second_run = None /\
  (true = true -> files (mkDisk ∅ []) !! backup_file second_run = None) /\
  (true = false -> backup_file second_run <> state_file second_run ->
   files (mkDisk ∅ []) !! backup_file second_run =
     files (first_run_on_disk []) !! backup_file second_run) /\
  load tagged_parse 1 (set_state second_run None) (mkDisk ∅ []) = (Loaded None, mkDisk ∅ []) /\
  initialize tagged_parse 1 (set_state second_run None) (mkDisk ∅ []) "c" true "t1" "t2" =
    Fresh (set_state (set_state second_run None) (Some (CrawlState_new "c" true "t1" "t2")))
      (mkDisk ∅ []).
Proof.
  apply (cleanup_then_load tagged_parse second_run (set_state second_run None)
           (first_run_on_disk []) (mkDisk ∅ []) true 0 "c" true "t1" "t2").
  vm_compute. reflexivity.
Defined.


End StateManagerFacts.

Module CrawlerFacts.
Import PyDecimal BidModel CrawlStateModel StateManagerModel JsonStorageModel CrawlerModel.

(** ** What the state-manager calls leave alone *)

Section FrameFacts.
Variable env : Env.

Lemma read_clock_outside w : outside (snd (read_clock env w)) = outside w.
Proof. reflexivity. Qed.

Lemma read_clock_manager w : manager (snd (read_clock env w)) = manager w.
Proof. reflexivity. Qed.

Lemma current_state_outside w : outside (snd (current_state env w)) = outside w.
Proof. unfold current_state. destruct (_state (manager w)); reflexivity. Qed.

Lemma current_state_final w :
  final_state (snd (current_state env w)) = Some (fst (current_state env w)).
Proof.
  unfold current_state, final_state. destruct (_state (manager w)) eqn:H; [exact H|reflexivity].
Qed.

Lemma put_state_outside w st : outside (put_state w st) = outside w.
Proof. reflexivity. Qed.

Lemma sm_is_collected_outside w bid_id :
  outside (snd (sm_is_collected env w bid_id)) = outside w.
Proof.
  unfold sm_is_collected. pose proof (current_state_outside w) as H.
  destruct (current_state env w) as [st w1]. exact H.
Qed.

Lemma sm_update_progress_outside w page idx total :
  outside (sm_update_progress env w page idx total) = outside w.
Proof.
  unfold sm_update_progress. pose proof (current_state_outside w) as H.
  destruct (current_state env w) as [st w1]. exact H.
Qed.

Lemma sm_mark_collected_outside w bid_id :
  outside (snd (sm_mark_collected env w bid_id)) = outside w.
Proof.
  unfold sm_mark_collected. pose proof (current_state_outside w) as H.
  destruct (current_state env w) as [st w1]. cbn [read_clock].
  destruct (mark_collected st bid_id _) as [fresh st']. exact H.
Qed.

Lemma mark_collected_collects st bid_id t :
  bid_id ∈ collected_ids (snd (mark_collected st bid_id t)).
Proof.
  unfold mark_collected. case_bool_decide as Hin; cbn; [exact Hin|].
  apply elem_of_union_l, elem_of_singleton. reflexivity.
Qed.

Lemma sm_mark_collected_final w bid_id :
  exists st, final_state (snd (sm_mark_collected env w bid_id)) = Some st /\
             bid_id ∈ collected_ids st.
Proof.
  unfold sm_mark_collected. destruct (current_state env w) as [st w1]. cbn [read_clock].
  pose proof (mark_collected_collects st bid_id (now env (clock_reads w1))) as H.
  destruct (mark_collected st bid_id _) as [fresh st']. exists st'. split; [reflexivity|exact H].
Qed.

End FrameFacts.

(** After a call of [save] that returned, the id exists. *)
Lemma save_returned_exists st bid saved :
  fst (save st bid) = Return saved -> exists_ (snd (save st bid)) (item_id bid) = true.
Proof.
  intros Hr. unfold exists_. apply bool_decide_eq_true_2.
  destruct (JsonStorageFacts.save_cases st bid)
    as [(_ & Hin & _ & ->) | [(Hx & _) | [(_ & (msg & Hx) & _) | (_ & _ & st1 & _ & Hv)]]];
    try congruence.
  unfold view in Hv. injection Hv as -> _ _ _ _ _. cbn.
  apply elem_of_union_l, elem_of_singleton. reflexivity.
Qed.



(** ** The limits 0 *)

(** A pipeline that completed went through [mark_completed]. *)
Lemma sm_mark_completed_final env w :
  exists st, final_state (sm_mark_completed env w) = Some st /\
             is_completed st = true /\ is_running st = false.
Proof.
  unfold sm_mark_completed. destruct (current_state env w) as [st w1]. cbn [read_clock].
  unfold sm_save.
  destruct (StateManagerModel.save _ _ _) as [ok d]. cbn.
  eexists. split; [reflexivity|]. split; reflexivity.
Qed.

Lemma shut_down_completed env cfg p w :
  shut_down env cfg p = Completed w -> exists w0, w = sm_mark_completed env w0.
Proof.
  unfold shut_down. destruct (put_sentinels _ _ _ _); [|discriminate].
  destruct (crashed _); [discriminate|]. intros [= <-]. eauto.
Qed.

Lemma produce_tasks_completed env cfg fuel : forall page start_page start_index p w,
  produce_tasks env cfg fuel page start_page start_index p = Completed w ->
  exists w0, w = sm_mark_completed env w0.
Proof.
  induction fuel as [|fuel IH]; intros page start_page start_index p w; cbn [produce_tasks];
    [discriminate|].
  destruct (page_limit_passed _ _); [apply shut_down_completed|].
  destruct (crawler_retry _ _ _ _) as [[bid_list|err|e] w2];
    [|apply shut_down_completed|discriminate].
  destruct (items bid_list); [apply shut_down_completed|].
  destruct (enqueue_page _ _ _ _ _) as [p2|p2|p2];
    [|apply shut_down_completed|discriminate].
  destruct (negb (has_next bid_list)); [apply shut_down_completed|].
  destruct (call_go_to_next_page _ _) as [moved w4].
  destruct (negb moved); [apply shut_down_completed|apply IH].
Qed.

Lemma crawl_completed env cfg fuel w w' :
  crawl env cfg fuel w = Completed w' ->
  exists st, final_state w' = Some st /\ is_completed st = true /\ is_running st = false.
Proof.
  unfold crawl, _execute_crawl_pipeline. intros Hrun.
  destruct (get_resume_point env w) as [[start_page start_index] w1].
  destruct (produce_tasks _ _ _ _ _ _ _) as [w2|e w2|w2|w2] eqn:Hp; try discriminate.
  injection Hrun as <-.
  apply produce_tasks_completed in Hp as [w0 ->].
  destruct (sm_mark_completed_final env w0) as (st & Hst & Hc & Hr).
  exists st. split; [exact Hst|split; assumption].
Qed.

(** Two settings of the limits that answer every limit test alike give
    the same run. *)
Section SameLimits.
Variable env : Env.
Variable cfg : CrawlerConfig.
Variables plimit ilimit plimit' ilimit' : option Z.
Hypothesis same_page_test :
  forall page, page_limit_passed plimit page = page_limit_passed plimit' page.
Hypothesis same_item_test :
  forall n, item_limit_reached ilimit n = item_limit_reached ilimit' n.

Local Abbreviation cfg1 := (set_limits cfg plimit ilimit).
Local Abbreviation cfg2 := (set_limits cfg plimit' ilimit').

Lemma process_same task w : process env cfg1 task w = process env cfg2 task w.
Proof. reflexivity. Qed.

Lemma worker_handles_same task p :
  worker_handles env cfg1 task p = worker_handles env cfg2 task p.
Proof.
  unfold worker_handles. cbn [max_items save_interval set_limits].
  rewrite same_item_test. destruct (item_limit_reached ilimit' _); [reflexivity|].
  rewrite process_same. reflexivity.
Qed.

Lemma workers_take_same n : forall p, workers_take env cfg1 n p = workers_take env cfg2 n p.
Proof.
  induction n as [|n IH]; intros p; cbn [workers_take]; [reflexivity|].
  destruct (queue p); [reflexivity|]. destruct (alive p); [reflexivity|].
  rewrite worker_handles_same. apply IH.
Qed.

Lemma producer_waits_same p : producer_waits env cfg1 p = producer_waits env cfg2 p.
Proof. unfold producer_waits. now rewrite workers_take_same. Qed.

Lemma put_task_same task p : put_task env cfg1 task p = put_task env cfg2 task p.
Proof.
  unfold put_task. change (queue_full cfg1) with (queue_full cfg2).
  now rewrite workers_take_same.
Qed.

Lemma enqueue_page_same page tasks : forall p,
  enqueue_page env cfg1 page tasks p = enqueue_page env cfg2 page tasks p.
Proof.
  induction tasks as [|[idx b] rest IH]; intros p; cbn [enqueue_page]; [reflexivity|].
  cbn [max_items set_limits]. rewrite same_item_test.
  destruct (item_limit_reached ilimit' _); [reflexivity|].
  rewrite put_task_same. destruct (put_task env cfg2 _ p); [apply IH|reflexivity].
Qed.

Lemma put_sentinels_same n : forall queued p,
  put_sentinels env cfg1 n queued p = put_sentinels env cfg2 n queued p.
Proof.
  induction n as [|n IH]; intros queued p; cbn [put_sentinels]; [reflexivity|].
  change (queue_full cfg1) with (queue_full cfg2). rewrite workers_take_same.
  destruct (queue_full cfg2 _ queued); [reflexivity|apply IH].
Qed.

Lemma shut_down_same p : shut_down env cfg1 p = shut_down env cfg2 p.
Proof.
  unfold shut_down. cbn [max_workers set_limits]. rewrite put_sentinels_same.
  destruct (put_sentinels env cfg2 _ _ p); [|reflexivity].
  now rewrite workers_take_same.
Qed.

Lemma produce_tasks_same fuel : forall page start_page start_index p,
  produce_tasks env cfg1 fuel page start_page start_index p =
  produce_tasks env cfg2 fuel page start_page start_index p.
Proof.
  induction fuel as [|fuel IH]; intros page start_page start_index p;
    cbn [produce_tasks]; [reflexivity|].
  cbn [max_pages set_limits]. rewrite same_page_test.
  destruct (page_limit_passed plimit' page); [apply shut_down_same|].
  change (@crawler_retry env cfg1) with (@crawler_retry env cfg2).
  destruct (crawler_retry env cfg2 _ _) as [[bid_list|err|e] w2];
    rewrite ?producer_waits_same, ?shut_down_same; try reflexivity.
  destruct (items bid_list); [reflexivity|].
  rewrite enqueue_page_same.
  destruct (enqueue_page env cfg2 _ _ _) as [p2|p2|p2];
    rewrite ?shut_down_same; try reflexivity.
  destruct (negb (has_next bid_list)); [reflexivity|].
  destruct (call_go_to_next_page env _) as [moved w4].
  rewrite !producer_waits_same. destruct (negb moved); [apply shut_down_same|apply IH].
Qed.

Lemma run_same load_fuel fuel resume w :
  run env cfg1 load_fuel fuel resume w = run env cfg2 load_fuel fuel resume w.
Proof.
  unfold run, crawl, _execute_crawl_pipeline. cbn [config_run_id max_workers set_limits].
  destruct (StateManagerModel.initialize _ _ _ _ _ _ _ _) as [sm d|sm d|]; [| |reflexivity];
    destruct (get_resume_point env _) as [[start_page start_index] w1];
    now rewrite produce_tasks_same.
Qed.

End SameLimits.

(** The limit 0 and the unset limit answer every test alike. *)
Lemma page_limit_zero page : page_limit_passed (Some 0) page = page_limit_passed None page.
Proof. reflexivity. Qed.

Lemma item_limit_zero n : item_limit_reached (Some 0) n = item_limit_reached None n.
Proof. reflexivity. Qed.




Section CrawlFrame.
Variable env : Env.
Variable cfg : CrawlerConfig.

Lemma current_state_collected w :
  collected_ids (fst (current_state env w)) = collected w /\
  untouched (snd (current_state env w)) = untouched w.
Proof.
  unfold current_state, untouched, collected.
  destruct (_state (manager w)) eqn:Hs; cbn.
  - rewrite Hs. auto.
  - auto.
Qed.

Lemma sm_record_retry_untouched w : untouched (sm_record_retry env w) = untouched w.
Proof.
  unfold sm_record_retry. destruct (current_state_collected w) as [Hc Hu].
  destruct (current_state env w) as [st w1]. cbn [fst snd read_clock] in *.
  unfold untouched in *. injection Hu as Hr Hd _.
  unfold collected at 1. cbn. now rewrite Hr, Hd, Hc.
Qed.

Lemma sm_record_error_untouched w err item_info :
  untouched (sm_record_error env w err item_info) = untouched w.
Proof.
  unfold sm_record_error. destruct (current_state_collected w) as [Hc Hu].
  destruct (current_state env w) as [st w1]. cbn [fst snd read_clock] in *.
  unfold untouched in *. injection Hu as Hr Hd _.
  unfold record_error. destruct (dict_truthy item_info); unfold collected at 1; cbn;
    now rewrite Hr, Hd, Hc.
Qed.

Lemma sm_update_progress_untouched w page idx total :
  untouched (sm_update_progress env w page idx total) = untouched w.
Proof.
  unfold sm_update_progress. destruct (current_state_collected w) as [Hc Hu].
  destruct (current_state env w) as [st w1]. cbn [fst snd read_clock] in *.
  unfold untouched in *. injection Hu as Hr Hd _.
  unfold collected at 1. cbn. now rewrite Hr, Hd, Hc.
Qed.

Lemma sm_is_collected_spec w bid_id :
  fst (sm_is_collected env w bid_id) = bool_decide (bid_id ∈ collected w) /\
  untouched (snd (sm_is_collected env w bid_id)) = untouched w.
Proof.
  unfold sm_is_collected. destruct (current_state_collected w) as [Hc Hu].
  destruct (current_state env w) as [st w1]. cbn [fst snd] in *.
  unfold is_collected. now rewrite Hc.
Qed.

Lemma sm_mark_collected_spec w bid_id :
  collected (snd (sm_mark_collected env w bid_id)) = {[bid_id]} ∪ collected w /\
  repository (snd (sm_mark_collected env w bid_id)) = repository w /\
  disk (snd (sm_mark_collected env w bid_id)) = disk w.
Proof.
  unfold sm_mark_collected. destruct (current_state_collected w) as [Hc Hu].
  destruct (current_state env w) as [st w1]. cbn [fst snd read_clock] in *.
  unfold untouched in Hu. injection Hu as Hr Hd _.
  unfold mark_collected. case_bool_decide as Hin; unfold collected at 1; cbn;
    rewrite <- Hc; repeat split; auto.
  apply set_eq. intros y. rewrite elem_of_union, elem_of_singleton.
  split; [auto|intros [->|]; auto].
Qed.

(** A run of [retry_async] keeps what the operation and the callback
    keep. *)
Lemma retry_loop_keeps {E T W A : Type} (f : W -> A) (func : W -> Outcome E T * W)
    max_retries base_delay max_delay exponential_backoff jitter retry_exceptions
    (on_retry : option (Z -> E -> W -> W)) random :
  (forall w, f (snd (func w)) = f w) ->
  (forall a e w, f (Retry.call_on_retry on_retry a e w) = f w) ->
  forall remaining k last w,
    f (snd (fst (Retry.retry_loop func max_retries base_delay max_delay exponential_backoff
                   jitter retry_exceptions on_retry random remaining k last w))) = f w.
Proof.
  intros Hfunc Hcb. induction remaining as [|n IH]; intros k last w; cbn [Retry.retry_loop].
  - reflexivity.
  - pose proof (Hfunc w) as Hw. destruct (func w) as [[v|e] w1]; cbn [snd] in Hw; [exact Hw|].
    destruct (retry_exceptions e); [|exact Hw].
    destruct (k =? max_retries); [exact Hw|].
    specialize (IH (k + 1) (Some e) (Retry.call_on_retry on_retry k e w1)).
    destruct (Retry.retry_loop _ _ _ _ _ _ _ _ _ n _ _ _) as [[r w3] tr]. cbn [fst snd] in *.
    now rewrite IH, Hcb.
Qed.

Lemma crawler_retry_untouched {T} (func : World -> Outcome Exn T * World) w :
  (forall w0, untouched (snd (func w0)) = untouched w0) ->
  untouched (snd (crawler_retry env cfg func w)) = untouched w.
Proof.
  intros Hfunc. unfold crawler_retry, Retry.retry_async.
  pose proof (retry_loop_keeps untouched func (max_retries cfg) (retry_delay cfg) 60%Q true true
                (fun _ => true) (Some (fun _ _ w0 => sm_record_retry env w0)) (random env)
                Hfunc (fun _ _ w0 => sm_record_retry_untouched w0)
                (Z.to_nat (max_retries cfg + 1)) 0 None w) as H.
  destruct (Retry.retry_loop _ _ _ _ _ _ _ _ _ _ _ _ _) as [[r w1] tr]. exact H.
Qed.

Lemma _crawl_detail_untouched b w :
  untouched (snd (_crawl_detail env cfg b w)) = untouched w.
Proof.
  unfold _crawl_detail. destruct (negb (str_truthy (detail_url b))); [reflexivity|].
  set (url := if String.prefix "http" _ then _ else _).
  pose proof (crawler_retry_untouched (call_scrape_from_url env url b) w
                (fun w0 => eq_refl)) as H.
  destruct (crawler_retry env cfg _ w) as [[detail|err|e] w1]; cbn [snd] in H.
  - destruct (go_back env _); exact H.
  - cbn [read_clock snd]. rewrite <- H.
    exact (sm_record_error_untouched w1 _ _).
  - exact H.
Qed.

(** The record [_crawl_detail] returns is the scraper's answer for this
    notice or a partial record of the notice. *)
Lemma _crawl_detail_result b w d :
  fst (_crawl_detail env cfg b w) = Some d ->
  (exists n url, scrape_from_url env n url b = Return d) \/
  (exists t msg, d = partial_detail b t msg).
Proof.
  unfold _crawl_detail. destruct (negb (str_truthy (detail_url b))).
  { cbn. intros [= <-]. right. eauto. }
  set (url := if String.prefix "http" _ then _ else _).
  unfold crawler_retry, Retry.retry_async.
  destruct (Retry.retry_loop _ _ _ _ _ _ _ _ _ _ _ _ _) as [[r w1] tr] eqn:Hloop.
  destruct r as [detail|err|e]; cbn [fst].
  - destruct (go_back env _); [|discriminate]. intros [= <-]. left.
    destruct (Z.le_gt_cases 0 (max_retries cfg)) as [Hpos|Hneg].
    + destruct (RetryFacts.retry_loop_outcomes (call_scrape_from_url env url b)
                  (max_retries cfg) (retry_delay cfg) 60%Q true true (fun _ => true)
                  (Some (fun _ _ w0 => sm_record_retry env w0)) (random env)
                  (Z.to_nat (max_retries cfg + 1)) 0 None w (Retry.Returned detail) w1 tr
                  ltac:(lia) ltac:(lia) Hloop) as [_ (w0 & Hcall)].
      unfold call_scrape_from_url in Hcall. injection Hcall as Hcall _. eauto.
    + replace (Z.to_nat (max_retries cfg + 1)) with 0%nat in Hloop by lia. discriminate.
  - cbn [read_clock fst]. intros [= <-]. right. eauto.
  - discriminate.
Qed.

Lemma process_cases task w :
  let bid_id := bid_notice_id (task_notice task) in
  let res := process env cfg task w in
  (bid_id ∈ collected w /\ fst res = Return None /\ untouched (snd res) = untouched w /\
   detail_calls (snd res) = detail_calls w) \/
  ((bid_id ∉ collected w) /\
   exists w3,
     untouched w3 = untouched w /\
     match fst (_crawl_detail env cfg (task_notice task)
                  (sm_update_progress env (snd (sm_is_collected env w bid_id)) None
                     (Some (index task)) None)) with
     | None => fst res = Return None /\ snd res = w3
     | Some d =>
         match save (repository w) (DetailItem d) with
         | (Raise e, r) => fst res = Raise e /\ snd res = set_repository w3 r
         | (Return _, r) =>
             fst res = Return (Some d) /\
             snd res = snd (sm_mark_collected env (set_repository w3 r) bid_id)
         end
     end).
Proof.
  cbn zeta. unfold process.
  destruct (sm_is_collected_spec w (bid_notice_id (task_notice task))) as [Hc Hu1].
  pose proof (sm_is_collected_outside env w (bid_notice_id (task_notice task))) as Ho1.
  destruct (sm_is_collected env w (bid_notice_id (task_notice task))) as [coll w1].
  cbn [fst snd] in *. subst coll. case_bool_decide as Hin.
  - left. repeat split; try assumption. unfold outside in Ho1. now injection Ho1.
  - right. split; [exact Hin|].
    pose proof (sm_update_progress_untouched w1 None (Some (index task)) None) as Hu2.
    set (w2 := sm_update_progress env w1 None (Some (index task)) None) in *.
    pose proof (_crawl_detail_untouched (task_notice task) w2) as Hu3.
    destruct (_crawl_detail env cfg (task_notice task) w2) as [[d|] w3]; cbn [fst snd] in *.
    + exists w3. split; [congruence|].
      assert (repository w3 = repository w) as ->
        by (unfold untouched in *; congruence).
      destruct (save (repository w) (DetailItem d)) as [[saved|e] r]; [|auto].
      destruct (sm_mark_collected env (set_repository w3 r) _) as [fresh w4]. auto.
    + exists w3. split; [congruence|auto].
Qed.

End CrawlFrame.

(** X21.  What [process] leaves behind, by its result.  When
    it returns a record, the notice's id was not collected before and is
    collected now, the record's id exists in the repository, and the
    record is the scraper's answer for this notice or a partial record
    of the notice.  When it returns [None] (the id was collected already,
    or the detail crawl gave up), the repository, the disk and the
    collected ids are as before.  When it raises, the exception is the
    [DuplicateBidException] or [RepositoryException] of [save], and the
    id has not been marked collected. *)
Theorem process_outcomes :
  forall (env : Env) (cfg : CrawlerConfig) (task : CrawlTask) (w : World),
    let b := task_notice task in
    let res := process env cfg task w in
    match fst res with
    | Return (Some d) =>
        (bid_notice_id b ∉ collected w) /\
        collected (snd res) = {[bid_notice_id b]} ∪ collected w /\
        exists_ (repository (snd res)) (bid_notice_id (notice d)) = true /\
        ((exists n url, scrape_from_url env n url b = Return d) \/
         (exists t msg, d = partial_detail b t msg))
    | Return None => untouched (snd res) = untouched w
    | Raise e =>
        collected (snd res) = collected w /\
        ((exists x, e = DuplicateBidException x) \/ (exists msg, e = RepositoryException msg))
    end.
Proof.
  intros env cfg task w b res. subst b res.
  destruct (process_cases env cfg task w) as [(_ & -> & Hu & _) | (Hnew & w3 & Hu3 & Hres)];
    [exact Hu|].
  cbn zeta in Hres.
  pose proof (_crawl_detail_result env cfg (task_notice task)
                (sm_update_progress env
                   (snd (sm_is_collected env w (bid_notice_id (task_notice task)))) None
                   (Some (index task)) None)) as Horigin.
  destruct (fst (_crawl_detail env cfg (task_notice task) _)) as [d|].
  2:{ destruct Hres as [-> ->]. exact Hu3. }
  pose proof (save_returned_exists (repository w) (DetailItem d)) as Hex.
  pose proof (JsonStorageFacts.save_result (repository w) (DetailItem d)) as Hsave.
  unfold untouched in Hu3. injection Hu3 as Hr3 Hd3 Hc3.
  destruct (save (repository w) (DetailItem d)) as [[saved|e] r]; cbn [fst snd] in *;
    destruct Hres as [-> ->].
  - destruct (sm_mark_collected_spec env (set_repository w3 r)
                (bid_notice_id (task_notice task))) as (Hc & Hr & _).
    split; [exact Hnew|]. split; [rewrite Hc; unfold collected; cbn; fold (collected w3);
                                  now rewrite Hc3|].
    split; [rewrite Hr; exact (Hex saved eq_refl)|]. exact (Horigin d eq_refl).
  - split; [unfold collected; cbn; fold (collected w3); exact Hc3|].
    destruct e; try contradiction; eauto.
Qed.

(** X22.  Once [process] has returned
    a record for a task, processing any task whose notice has the same
    id returns [None] without a call of the detail scraper and without
    a change to the repository, the disk or the collected ids. *)
Theorem processed_task_is_not_processed_again :
  forall (env : Env) (cfg : CrawlerConfig) (task task' : CrawlTask) (w : World)
         (d : BidNoticeDetail),
    fst (process env cfg task w) = Return (Some d) ->
    bid_notice_id (task_notice task') = bid_notice_id (task_notice task) ->
    let w1 := snd (process env cfg task w) in
    fst (process env cfg task' w1) = Return None /\
    untouched (snd (process env cfg task' w1)) = untouched w1 /\
    detail_calls (snd (process env cfg task' w1)) = detail_calls w1.
Proof.
  intros env cfg task task' w d Hfirst Hsame w1.
  assert (bid_notice_id (task_notice task) ∈ collected w1) as Hin.
  { subst w1. destruct (process_cases env cfg task w)
      as [(_ & Hnone & _) | (_ & w3 & _ & Hres)]; [congruence|].
    cbn zeta in Hres. destruct (fst (_crawl_detail env cfg (task_notice task) _)) as [d0|].
    2:{ destruct Hres as [Hnone _]. congruence. }
    destruct (save (repository w) (DetailItem d0)) as [[saved|e] r];
      destruct Hres as [Hr ->]; [|congruence].
    destruct (sm_mark_collected_spec env (set_repository w3 r)
                (bid_notice_id (task_notice task))) as (-> & _).
    apply elem_of_union_l, elem_of_singleton. reflexivity. }
  destruct (process_cases env cfg task' w1) as [(_ & Hnone & Hu & Hcalls) | (Hnew & _)].
  - auto.
  - cbn zeta in Hnew. rewrite Hsame in Hnew. contradiction.
Qed.

Lemma processed_task_is_not_processed_again_witness :
  let w1 := snd (process one_page_env zero_limits (mkCrawlTask lone_notice 1 0) fresh_world) in
  fst (process one_page_env zero_limits (mkCrawlTask lone_notice 2 5) w1) = Return None /\
  untouched (snd (process one_page_env zero_limits (mkCrawlTask lone_notice 2 5) w1)) =
    untouched w1 /\
  detail_calls (snd (process one_page_env zero_limits (mkCrawlTask lone_notice 2 5) w1)) =
    detail_calls w1.
Proof.
  apply (processed_task_is_not_processed_again one_page_env zero_limits
           (mkCrawlTask lone_notice 1 0) (mkCrawlTask lone_notice 2 5) fresh_world
           (partial_detail lone_notice "2024-01-15T10:00:00" "No detail URL")).
  - vm_compute. reflexivity.
  - reflexivity.
Defined.

(** ** The tasks of a page *)

Lemma elem_of_enumerate_from (l : list BidNotice) : forall (start i : Z) (b : BidNotice),
  (i, b) ∈ enumerate_from start l <-> start <= i /\ l !! Z.to_nat (i - start) = Some b.
Proof.
  induction l as [|b0 l IH]; intros start i b; cbn [enumerate_from].
  - rewrite elem_of_nil. split; [contradiction|intros [_ [=]]].
  - rewrite elem_of_cons, IH. split.
    + intros [[= -> ->] | [Hle Hl]].
      * split; [lia|]. now rewrite Z.sub_diag.
      * split; [lia|]. replace (Z.to_nat (i - start)) with (S (Z.to_nat (i - (start + 1))))
          by lia. exact Hl.
    + intros [Hle Hl]. destruct (Z.eq_dec i start) as [->|Hne].
      * left. rewrite Z.sub_diag in Hl. change (Z.to_nat 0) with 0%nat in Hl.
        simpl in Hl. congruence.
      * right. split; [lia|].
        replace (Z.to_nat (i - start)) with (S (Z.to_nat (i - (start + 1)))) in Hl by lia.
        exact Hl.
Qed.

Lemma length_enumerate_from (l : list BidNotice) : forall start,
  length (enumerate_from start l) = length l.
Proof. induction l as [|b0 l IH]; intros start; cbn; [reflexivity|now rewrite IH]. Qed.

(** X23.  The tasks made for a page
    from the index [start >= 0] on: every notice at a position from
    [start] on gets one task, whose index is that position; the notices
    before [start] get none. *)
Theorem tasks_keep_their_position_on_the_page :
  forall (l : list BidNotice) (start i : Z) (b : BidNotice),
    0 <= start ->
    ((i, b) ∈ enumerate_from start (slice_from l start) <->
     start <= i /\ l !! Z.to_nat i = Some b) /\
    length (enumerate_from start (slice_from l start)) = (length l - Z.to_nat start)%nat.
Proof.
  intros l start i b Hstart. unfold slice_from.
  rewrite (proj2 (Z.ltb_ge start 0) Hstart). split.
  - rewrite elem_of_enumerate_from, lookup_drop.
    split; intros [Hle Hl]; (split; [exact Hle|]).
    + replace (Z.to_nat i) with (Z.to_nat start + Z.to_nat (i - start))%nat by lia. exact Hl.
    + replace (Z.to_nat i) with (Z.to_nat start + Z.to_nat (i - start))%nat in Hl by lia.
      exact Hl.
  - now rewrite length_enumerate_from, length_drop.
Qed.

Lemma tasks_keep_their_position_on_the_page_witness :
  ((1, sample_notice) ∈ enumerate_from 1 (slice_from [lone_notice; sample_notice] 1) <->
   1 <= 1 /\ [lone_notice; sample_notice] !! Z.to_nat 1 = Some sample_notice) /\
  length (enumerate_from 1 (slice_from [lone_notice; sample_notice] 1)) =
    (length [lone_notice; sample_notice] - Z.to_nat 1)%nat.
Proof.
  apply (tasks_keep_their_position_on_the_page [lone_notice; sample_notice] 1 1 sample_notice).
  lia.
Defined.

(** ** A task marked done twice *)

Section Overcount.
Variable env : Env.
Variable cfg : CrawlerConfig.
Hypothesis some_worker : (0 < max_workers cfg)%nat.

Lemma finally_task_done_overcounted p q :
  crashed p = true \/
  (alive p = max_workers cfg /\ 0 <= unfinished p /\
   unfinished p < Z.of_nat (length (queue p) + q) + 1) ->
  overcounted cfg (finally_task_done p) q.
Proof.
  unfold finally_task_done, task_done, overcounted.
  intros [Hc | (Ha & H0 & Hu)]; destruct (Z.leb_spec (unfinished p) 0); cbn; auto.
  right. repeat split; auto; lia.
Qed.

Lemma finally_task_done_world p w :
  finally_task_done (set_world p w) = set_world (finally_task_done p) w.
Proof. unfold finally_task_done, task_done. cbn. destruct (unfinished p <=? 0); reflexivity. Qed.

(** A worker that handles a task it took from the queue keeps the count
    behind. *)
Lemma worker_handles_overcounted task p q :
  crashed p = true \/
  (alive p = max_workers cfg /\ 0 <= unfinished p /\
   unfinished p < Z.of_nat (length (queue p) + q) + 1) ->
  overcounted cfg (worker_handles env cfg task p) q.
Proof.
  intros Hinv. unfold worker_handles.
  destruct (item_limit_reached (max_items cfg) (items_collected p)).
  - unfold task_done at 1. destruct (Z.leb_spec (unfinished p) 0).
    + apply finally_task_done_overcounted, Hinv.
    + apply finally_task_done_overcounted. cbn. destruct Hinv as [Hc | (Ha & H0 & Hu)]; auto.
      right. repeat split; auto; lia.
  - set (p1 := if page_num task =? tracked_page p then p else _).
    assert (crashed p1 = crashed p /\ alive p1 = alive p /\ unfinished p1 = unfinished p /\
            queue p1 = queue p) as (Hc1 & Ha1 & Hu1 & Hq1)
      by (subst p1; destruct (page_num task =? tracked_page p); cbn; auto).
    assert (forall w' ic pi, 
              overcounted cfg
                (finally_task_done
                   (mkPipe w' (queue p1) (unfinished p1) (alive p1) (crashed p1) ic
                      (tracked_page p1) pi (waits p1))) q) as Hleaf.
    { intros w' ic pi. apply finally_task_done_overcounted. cbn.
      rewrite Hc1, Ha1, Hu1, Hq1. exact Hinv. }
    destruct (process env cfg task (world p1)) as [[[d|]|e] w'].
    + cbn zeta. destruct (save_interval cfg =? 0); [apply Hleaf|].
      destruct (_ mod _ =? 0); [|apply Hleaf].
      cbn [world repository]. destruct (flush (repository w')) as [[b|e] r]; apply Hleaf.
    + apply (Hleaf w' (items_collected p1) (page_items p1)).
    + apply (Hleaf w' (items_collected p1) (page_items p1)).
Qed.

Lemma workers_take_overcounted n : forall p q,
  overcounted cfg p q -> overcounted cfg (workers_take env cfg n p) q.
Proof.
  induction n as [|n IH]; intros p q Hinv; cbn [workers_take]; [exact Hinv|].
  destruct (queue p) as [|task rest] eqn:Hq; [exact Hinv|].
  destruct (alive p) eqn:Ha; [exact Hinv|].
  apply IH, worker_handles_overcounted. cbn.
  destruct Hinv as [Hc | (Hw & H0 & Hu)]; [auto|right].
  rewrite Hq in Hu. cbn [length] in Hu. repeat split; try assumption; try congruence. lia.
Qed.

Lemma finally_task_done_queue p : queue (finally_task_done p) = queue p.
Proof. unfold finally_task_done, task_done. destruct (unfinished p <=? 0); reflexivity. Qed.

Lemma worker_handles_queue task p : queue (worker_handles env cfg task p) = queue p.
Proof.
  unfold worker_handles.
  destruct (item_limit_reached (max_items cfg) (items_collected p)).
  - unfold task_done at 1. destruct (unfinished p <=? 0); now rewrite finally_task_done_queue.
  - set (p1 := if page_num task =? tracked_page p then p else _).
    assert (queue p1 = queue p) as Hq1
      by (subst p1; destruct (page_num task =? tracked_page p); reflexivity).
    destruct (process env cfg task (world p1)) as [[[d|]|e] w'];
      try (rewrite finally_task_done_queue; exact Hq1).
    cbn zeta. destruct (save_interval cfg =? 0);
      [rewrite finally_task_done_queue; exact Hq1|].
    destruct (_ mod _ =? 0); [|rewrite finally_task_done_queue; exact Hq1].
    cbn [world repository]. destruct (flush (repository w')) as [[b|e] r];
      rewrite finally_task_done_queue; exact Hq1.
Qed.

(** Once the queue has been worked off, the live workers outnumber the
    tasks still counted. *)
Lemma workers_take_all n : forall p q,
  (length (queue p) <= n)%nat -> overcounted cfg p q ->
  crashed (workers_take env cfg n p) = true \/
  (0 <= unfinished (workers_take env cfg n p) /\
   unfinished (workers_take env cfg n p) < Z.of_nat q /\
   alive (workers_take env cfg n p) = max_workers cfg).
Proof.
  induction n as [|n IH]; intros p q Hlen Hinv; cbn [workers_take].
  - destruct Hinv as [Hc | (Hw & H0 & Hu)]; [auto|right].
    destruct (queue p); cbn in *; [auto with lia|lia].
  - destruct (queue p) as [|task rest] eqn:Hq.
    { destruct Hinv as [Hc | (Hw & H0 & Hu)]; [auto|right]. rewrite Hq in Hu. cbn in Hu. auto. }
    destruct (alive p) eqn:Ha.
    { destruct Hinv as [Hc | (Hw & _)]; [auto|lia]. }
    set (p0 := mkPipe _ rest _ _ _ _ _ _ _).
    assert (overcounted cfg (worker_handles env cfg task p0) q) as Hnext.
    { apply worker_handles_overcounted. subst p0. cbn.
      destruct Hinv as [Hc | (Hw & H0 & Hu)]; [auto|right].
      rewrite Hq in Hu. cbn [length] in Hu. repeat split; try assumption; try congruence. lia. }
    apply IH; [|exact Hnext]. rewrite worker_handles_queue. subst p0. cbn in *. lia.
Qed.

Lemma take_sentinels_crashed n : forall p,
  crashed p = true \/ (0 <= unfinished p /\ unfinished p < Z.of_nat n) ->
  crashed (take_sentinels n p) = true.
Proof.
  induction n as [|n IH]; intros p Hinv; cbn [take_sentinels].
  - destruct Hinv as [Hc | [H0 Hu]]; [exact Hc|lia].
  - unfold task_done. destruct (Z.leb_spec (unfinished p) 0); apply IH; cbn.
    + left. reflexivity.
    + destruct Hinv as [Hc | [H0 Hu]]; [auto|right; lia].
Qed.

Lemma put_sentinels_overcounted n : forall queued p p',
  overcounted cfg p queued ->
  put_sentinels env cfg n queued p = Some p' -> overcounted cfg p' (queued + n).
Proof.
  induction n as [|n IH]; intros queued p p' Hinv; cbn [put_sentinels].
  - intros [= <-]. now rewrite Nat.add_0_r.
  - set (p1 := if queue_full cfg p queued then workers_take env cfg 1 p else p).
    assert (overcounted cfg p1 queued) as H1
      by (subst p1; destruct (queue_full cfg p queued);
          [apply workers_take_overcounted|]; exact Hinv).
    destruct (queue_full cfg p1 queued); [discriminate|]. intros Hput.
    replace (queued + S n)%nat with (S queued + n)%nat by lia.
    eapply IH; [|exact Hput]. unfold overcounted in *. cbn.
    destruct H1 as [Hc | (Hw & H0 & Hu)]; [auto|right]. repeat split; auto; lia.
Qed.

Lemma shut_down_overcounted p w :
  overcounted cfg p 0 -> shut_down env cfg p <> Completed w.
Proof.
  intros Hinv. unfold shut_down.
  destruct (put_sentinels env cfg (max_workers cfg) 0 p) as [p1|] eqn:Hput; [|discriminate].
  apply (put_sentinels_overcounted _ _ _ _ Hinv) in Hput. cbn [Nat.add] in Hput.
  pose proof (workers_take_all (length (queue p1)) p1 (max_workers cfg) (le_n _) Hput) as Hall.
  set (p2 := workers_take env cfg (length (queue p1)) p1) in *.
  rewrite take_sentinels_crashed; [discriminate|].
  destruct Hall as [Hc | (H0 & Hu & Ha)]; [auto|right]. rewrite Ha. auto.
Qed.

Lemma producer_waits_overcounted p : overcounted cfg p 0 -> overcounted cfg (producer_waits env cfg p) 0.
Proof.
  intros Hinv. unfold producer_waits.
  exact (workers_take_overcounted (schedule env (waits p)) p 0 Hinv).
Qed.

Lemma put_task_overcounted task p p' :
  overcounted cfg p 0 -> put_task env cfg task p = Some p' -> overcounted cfg p' 0.
Proof.
  intros Hinv. unfold put_task.
  set (p1 := if queue_full cfg p 0 then workers_take env cfg 1 p else p).
  assert (overcounted cfg p1 0) as H1
    by (subst p1; destruct (queue_full cfg p 0); [apply workers_take_overcounted|]; exact Hinv).
  destruct (queue_full cfg p1 0); [discriminate|]. intros [= <-].
  unfold overcounted in *. cbn. destruct H1 as [Hc | (Hw & H0 & Hu)]; [auto|right].
  rewrite length_app. cbn. repeat split; auto; lia.
Qed.

Lemma enqueue_page_overcounted page tasks : forall p,
  overcounted cfg p 0 ->
  match enqueue_page env cfg page tasks p with
  | AllQueued p' | LimitReached p' | PutBlocked p' => overcounted cfg p' 0
  end.
Proof.
  induction tasks as [|[idx b] rest IH]; intros p Hinv; cbn [enqueue_page]; [exact Hinv|].
  destruct (item_limit_reached (max_items cfg) (items_collected p)); [exact Hinv|].
  destruct (put_task env cfg _ p) as [p1|] eqn:Hput; [|exact Hinv].
  apply IH. exact (put_task_overcounted _ _ _ Hinv Hput).
Qed.

Lemma produce_tasks_overcounted fuel : forall page start_page start_index p w,
  overcounted cfg p 0 ->
  produce_tasks env cfg fuel page start_page start_index p <> Completed w.
Proof.
  induction fuel as [|fuel IH]; intros page start_page start_index p w Hinv;
    cbn [produce_tasks]; [discriminate|].
  destruct (page_limit_passed _ _); [apply shut_down_overcounted, Hinv|].
  destruct (crawler_retry env cfg _ _) as [r w2].
  pose proof (producer_waits_overcounted (set_world p w2) Hinv) as H1.
  set (p1 := producer_waits env cfg (set_world p w2)) in *.
  destruct r as [bid_list|err|e]; [|apply shut_down_overcounted; exact H1|discriminate].
  destruct (items bid_list); [apply shut_down_overcounted, H1|].
  pose proof (enqueue_page_overcounted page
                (enumerate_from (if page =? start_page then start_index else 0)
                   (slice_from (b :: l) (if page =? start_page then start_index else 0)))
                (set_world p1 (sm_update_progress env (world p1) None None
                                 (Some (list_total_pages bid_list)))) H1) as H2.
  destruct (enqueue_page env cfg page _ _) as [p2|p2|p2];
    [|apply shut_down_overcounted, H2|discriminate].
  destruct (negb (has_next bid_list)); [apply shut_down_overcounted, H2|].
  destruct (call_go_to_next_page env _) as [moved w4].
  pose proof (producer_waits_overcounted
                (set_world (set_world p2 (sm_complete_page env (world p2) page)) w4) H2) as H4.
  destruct (negb moved); [apply shut_down_overcounted, H4|].
  apply IH, producer_waits_overcounted, H4.
Qed.

(** X24.  A worker that takes a task after
    [max_items] has been reached does not process it, and it marks the
    one task done twice: once in the branch of the limit and once more
    in the [finally] clause.  From then on fewer tasks count as
    unfinished than the workers still have to mark done, so one of them
    ends with the [ValueError] of [task_done] and the pipeline cannot
    complete: [mark_completed] is not reached. *)
Theorem task_done_twice_fails_the_run :
  forall (task : CrawlTask) (p : Pipe),
    item_limit_reached (max_items cfg) (items_collected p) = true ->
    alive p = max_workers cfg ->
    crashed p = false ->
    0 <= unfinished p <= Z.of_nat (length (queue p)) + 1 ->
    let p' := worker_handles env cfg task p in
    world p' = world p /\
    (crashed p' = true \/ unfinished p' = unfinished p - 2) /\
    (forall w, shut_down env cfg p' <> Completed w) /\
    (forall fuel page start_page start_index w,
       produce_tasks env cfg fuel page start_page start_index p' <> Completed w).
Proof.
  intros task p Hlimit Halive Hcrashed Hcount p'.
  assert (world p' = world p /\ (crashed p' = true \/ unfinished p' = unfinished p - 2) /\
          overcounted cfg p' 0) as (Hw & Hu & Hinv).
  { subst p'. unfold worker_handles. rewrite Hlimit.
    unfold finally_task_done, task_done, overcounted.
    destruct (unfinished p <=? 0) eqn:H0; [cbn; auto|].
    apply Z.leb_gt in H0. cbn.
    destruct (Z.leb_spec (unfinished p - 1) 0); cbn; [auto|].
    split; [reflexivity|]. split; [right; lia|]. right.
    rewrite Nat.add_0_r. repeat split; auto; lia. }
  split; [exact Hw|]. split; [exact Hu|]. split.
  - intros w. apply shut_down_overcounted, Hinv.
  - intros fuel page start_page start_index w. apply produce_tasks_overcounted, Hinv.
Qed.

End Overcount.

Lemma task_done_twice_fails_the_run_witness :
  let p' := worker_handles one_page_env one_item_limit (mkCrawlTask lone_notice 1 1)
              limit_reached_pipe in
  world p' = world limit_reached_pipe /\
  (crashed p' = true \/ unfinished p' = unfinished limit_reached_pipe - 2) /\
  (forall w, shut_down one_page_env one_item_limit p' <> Completed w) /\
  (forall fuel page start_page start_index w,
     produce_tasks one_page_env one_item_limit fuel page start_page start_index p' <>
       Completed w).
Proof.
  apply (task_done_twice_fails_the_run one_page_env one_item_limit ltac:(cbn; lia)
           (mkCrawlTask lone_notice 1 1) limit_reached_pipe); try reflexivity.
  cbn. lia.
Defined.

(** ** The page limit *)

Lemma shut_down_ended env cfg p : ended (shut_down env cfg p).
Proof.
  unfold shut_down. destruct (put_sentinels _ _ _ _ _); [|exact I].
  destruct (crashed _); exact I.
Qed.

(** X25.  With a positive [max_pages] the producer loop is left, whatever
    the site answers: started at [page], it goes round at most
    [max_pages - page + 1] times, and once more to find the limit
    passed; after that the run has completed, has failed, or is left
    waiting on the queue, and no further page is fetched. *)
Theorem max_pages_bounds_the_producer :
  forall (env : Env) (cfg : CrawlerConfig) (m : Z) (fuel : nat)
         (page start_page start_index : Z) (p : Pipe),
    max_pages cfg = Some m -> 0 < m ->
    (Z.to_nat (m + 1 - page) < fuel)%nat ->
    ended (produce_tasks env cfg fuel page start_page start_index p).
Proof.
  intros env cfg m fuel. induction fuel as [|fuel IH];
    intros page start_page start_index p Hm Hpos Hfuel; [lia|].
  cbn [produce_tasks]. rewrite Hm. unfold page_limit_passed.
  assert ((m =? 0) = false) as -> by (apply Z.eqb_neq; lia). cbn [negb andb].
  destruct (Z.ltb_spec m page) as [Hpast|Hin]; [apply shut_down_ended|].
  destruct (crawler_retry env cfg _ _) as [[bid_list|err|e] w2];
    [|apply shut_down_ended|exact I].
  destruct (items bid_list); [apply shut_down_ended|].
  destruct (enqueue_page env cfg page _ _) as [p2|p2|p2];
    [|apply shut_down_ended|exact I].
  destruct (negb (has_next bid_list)); [apply shut_down_ended|].
  destruct (call_go_to_next_page env _) as [moved w4].
  destruct (negb moved); [apply shut_down_ended|].
  apply IH; [exact Hm|exact Hpos|lia].
Qed.

Lemma max_pages_bounds_the_producer_witness :
  ended (produce_tasks one_page_env (set_limits zero_limits (Some 2) None) 3 1 1 0
           (mkPipe fresh_world [] 0 3 false 0 1 0 0)).
Proof.
  apply (max_pages_bounds_the_producer one_page_env (set_limits zero_limits (Some 2) None) 2 3
           1 1 0 (mkPipe fresh_world [] 0 3 false 0 1 0 0)); [reflexivity|lia|cbn; lia].
Defined.


End CrawlerFacts.
